(** * Gravity analyst suite: ingestion, index, cache and resolver substrate

    A shallow embedding of the orchestration code of the three workspaces
    (gravitic-celestial, gravitic-macro, gravitic-nebula) together with the
    properties the design specification states about it.

    Conventions of the embedding
    - SQL tables are lists of rows in rowid (insertion) order.
    - Python dictionaries are finite maps ([gmap]) when they are used as
      maps, and association lists when their textual order matters.
    - Python exceptions are values of [PyExc]; a call that may raise returns
      a [PyResult].
    - Wall-clock reads ([datetime.utcnow()]) are explicit arguments.
    - Floats are rationals ([Q]).
    - Strings are ASCII text.  [lower], [upper] and [strip] are Python's
      methods on such text; they leave a character above 127 alone, which
      Python's Unicode-aware methods do not, so a property that rests on
      what they do to letters is stated for strings that differ in the
      case of ASCII letters only. *)

From Stdlib Require Import ZArith QArith Qminmax Ascii String List Bool Lia Sorted Permutation.
From stdpp Require Import base option list gmap strings.
Import ListNotations.
Local Open Scope Z_scope.
Local Open Scope string_scope.
Local Open Scope list_scope.

(* ===================================================================== *)
(** * Part I. The programs *)
(* ===================================================================== *)

(** ** Python built-ins used by the code *)

Module Py.

(** Exceptions that the modelled code raises or catches. *)
Inductive PyExc : Type :=
| AttributeError (obj attr : string)
| ValueError (msg : string)
| TypeError (msg : string)
| IndexError (msg : string)
| KeyError (key : string)
| ValidationError (field : string)
| IntegrityError (msg : string)
| OperationalError (msg : string)
| RuntimeError (msg : string).

(** Outcome of a call that may raise. *)
Inductive PyResult (A : Type) : Type :=
| Ok (a : A)
| Raise (e : PyExc).
Arguments Ok {A} a.
Arguments Raise {A} e.

Definition is_upper_ascii (c : ascii) : bool :=
  let n := nat_of_ascii c in (65 <=? n)%nat && (n <=? 90)%nat.

Definition is_lower_ascii (c : ascii) : bool :=
  let n := nat_of_ascii c in (97 <=? n)%nat && (n <=? 122)%nat.

Definition lower_ascii (c : ascii) : ascii :=
  if is_upper_ascii c then ascii_of_nat (nat_of_ascii c + 32) else c.

Definition upper_ascii (c : ascii) : ascii :=
  if is_lower_ascii c then ascii_of_nat (nat_of_ascii c - 32) else c.

(** [str.lower()] on ASCII text: [A]-[Z] go to [a]-[z], every other
    character stays. *)
Fixpoint lower (s : string) : string :=
  match s with
  | EmptyString => EmptyString
  | String c s' => String (lower_ascii c) (lower s')
  end.

(** [str.upper()] on ASCII text: [a]-[z] go to [A]-[Z], every other
    character stays. *)
Fixpoint upper (s : string) : string :=
  match s with
  | EmptyString => EmptyString
  | String c s' => String (upper_ascii c) (upper s')
  end.

(** [str.isspace()] on one character: space, the controls 9..13 and the
    separators 28..31. *)
Definition is_space (c : ascii) : bool :=
  let n := nat_of_ascii c in
  (n =? 32)%nat || ((9 <=? n)%nat && (n <=? 13)%nat)
  || ((28 <=? n)%nat && (n <=? 31)%nat).

Fixpoint lstrip (s : string) : string :=
  match s with
  | EmptyString => EmptyString
  | String c s' => if is_space c then lstrip s' else s
  end.

(** Drops trailing white space: a character is kept when it is not white
    space or when something is kept after it. *)
Fixpoint rstrip (s : string) : string :=
  match s with
  | EmptyString => EmptyString
  | String c s' =>
      match rstrip s' with
      | EmptyString => if is_space c then EmptyString else String c EmptyString
      | r => String c r
      end
  end.

(** [str.strip()] on ASCII text. *)
Definition strip (s : string) : string := rstrip (lstrip s).

(** Truth value of a string: empty is false. *)
Definition truthy_str (s : string) : bool :=
  match s with EmptyString => false | _ => true end.

(** Truth value of an optional string ([None] and [""] are false). *)
Definition truthy_opt (o : option string) : bool :=
  match o with Some s => truthy_str s | None => false end.

(** [xs[:n]] for a list and a possibly negative stop index. *)
Definition slice_to {A} (n : Z) (xs : list A) : list A :=
  if (n <? 0)%Z then firstn (length xs - Z.to_nat (- n))%nat xs
  else firstn (Z.to_nat n) xs.

(** SQL [LIMIT n]: a negative bound means no bound (SQLite). *)
Definition sql_limit {A} (n : Z) (xs : list A) : list A :=
  if (n <? 0)%Z then xs else firstn (Z.to_nat n) xs.

(** Python values as they come out of a JSON response or of
    [ast.literal_eval]. *)
#[warnings="-register-all"]
Inductive PyVal : Type :=
| PNone
| PBool (b : bool)
| PNum (q : Q)
| PStr (s : string)
| PList (l : list PyVal).

(** Truth value of a Python value. *)
Definition truthy (v : PyVal) : bool :=
  match v with
  | PNone => false
  | PBool b => b
  | PNum q => negb (Qeq_bool q 0%Q)
  | PStr s => truthy_str s
  | PList l => match l with [] => false | _ => true end
  end.

(** The characters of a string, as one-character strings. *)
Fixpoint chars (s : string) : list PyVal :=
  match s with
  | EmptyString => []
  | String c s' => PStr (String c EmptyString) :: chars s'
  end.

(** What iterating over a value yields; numbers, booleans and [None] are
    not iterable. *)
Definition iter (v : PyVal) : PyResult (list PyVal) :=
  match v with
  | PList l => Ok l
  | PStr s => Ok (chars s)
  | _ => Raise (TypeError "object is not iterable")
  end.

(** [v[0]] *)
Definition first_item (v : PyVal) : PyResult PyVal :=
  match v with
  | PList (x :: _) => Ok x
  | PList [] => Raise (IndexError "list index out of range")
  | PStr (String c _) => Ok (PStr (String c EmptyString))
  | PStr EmptyString => Raise (IndexError "string index out of range")
  | _ => Raise (TypeError "object is not subscriptable")
  end.

(** [d.get(key, default)] on a JSON object. *)
Definition dict_get (d : gmap string PyVal) (key : string) (dflt : PyVal)
  : PyVal :=
  default dflt (d !! key).

(** *** Decimal numerals and lists of string literals

    The part of [float(s)] and of [ast.literal_eval(s)] that the market
    API exercises: plain decimal numerals, and bracketed lists of quoted
    strings without escapes. *)

Definition digit_of (c : ascii) : option Z :=
  let n := nat_of_ascii c in
  if (48 <=? n)%nat && (n <=? 57)%nat then Some (Z.of_nat (n - 48)) else None.

Fixpoint digits_value (acc : Z) (s : string) : option Z :=
  match s with
  | EmptyString => Some acc
  | String c s' =>
      match digit_of c with
      | Some d => digits_value (10 * acc + d) s'
      | None => None
      end
  end.

(** Splits at the first dot. *)
Fixpoint split_dot (s : string) : string * option string :=
  match s with
  | EmptyString => (EmptyString, None)
  | String c s' =>
      if Ascii.eqb c "." then (EmptyString, Some s')
      else let '(a, b) := split_dot s' in (String c a, b)
  end.

Definition unsigned_decimal (s : string) : option Q :=
  match split_dot s with
  | (ip, None) =>
      if truthy_str ip then
        match digits_value 0 ip with
        | Some v => Some (v # 1)
        | None => None
        end
      else None
  | (ip, Some fp) =>
      if truthy_str ip || truthy_str fp then
        match digits_value 0 (ip +:+ fp) with
        | Some v => Some (v # Pos.pow 10 (Pos.of_nat (String.length fp)))
        | None => None
        end
      else None
  end.

(** [float(s)] on a plain decimal numeral with an optional sign. *)
Definition decimal_float (s : string) : option Q :=
  match s with
  | String "-" r => option_map Qopp (unsigned_decimal r)
  | String "+" r => unsigned_decimal r
  | _ => unsigned_decimal s
  end.

Inductive ListState : Type :=
| BeforeList
| BeforeItem
| InItem (quote : ascii) (rev_chars : list ascii)
| AfterItem
| AfterList.

Definition string_of_rev (rev_chars : list ascii) : string :=
  fold_left (fun acc c => String c acc) rev_chars EmptyString.

Fixpoint scan_list (state : ListState) (items : list PyVal) (s : string)
  : option (list PyVal) :=
  match s with
  | EmptyString =>
      match state with AfterList => Some items | _ => None end
  | String c s' =>
      match state with
      | BeforeList =>
          if Ascii.eqb c " " then scan_list BeforeList items s'
          else if Ascii.eqb c "[" then scan_list BeforeItem items s'
          else None
      | BeforeItem =>
          if Ascii.eqb c " " then scan_list BeforeItem items s'
          else if Ascii.eqb c "]" then scan_list AfterList items s'
          else if Ascii.eqb c "034" || Ascii.eqb c "'"
               then scan_list (InItem c []) items s'
          else None
      | InItem quote rev_chars =>
          if Ascii.eqb c quote
          then scan_list AfterItem
                 (items ++ [PStr (string_of_rev rev_chars)]) s'
          else if Ascii.eqb c "092" then None
          else scan_list (InItem quote (c :: rev_chars)) items s'
      | AfterItem =>
          if Ascii.eqb c " " then scan_list AfterItem items s'
          else if Ascii.eqb c "," then scan_list BeforeItem items s'
          else if Ascii.eqb c "]" then scan_list AfterList items s'
          else None
      | AfterList =>
          if Ascii.eqb c " " then scan_list AfterList items s' else None
      end
  end.

(** [ast.literal_eval(s)] on a list of string literals. *)
Definition string_list_literal (s : string) : option PyVal :=
  option_map PList (scan_list BeforeList [] s).

(** [ORDER BY key DESC] and [sort(key=..., reverse=True)]: a stable sort,
    rows with equal keys keep their relative order.  [lt a b] tells whether
    the key of [a] is below the key of [b]. *)
Section OrderBy.
Context {A : Type} (lt : A -> A -> bool).

Fixpoint insert_desc (r : A) (l : list A) : list A :=
  match l with
  | [] => [r]
  | x :: l' => if lt r x then x :: insert_desc r l' else r :: l
  end.

Definition order_by_desc (l : list A) : list A :=
  fold_right insert_desc [] l.

End OrderBy.

End Py.

(* ----------------------------------------------------------------- *)
(** ** core/ingestion/state_manager.py *)

Module StateManager.

(** A row of [processed_filings]; [processed_at] is filled by the engine
    default and never read by the code. *)
Record ProcessedFiling : Type := mkProcessedFiling {
  accession_number : string;
  ticker : string;
  filing_date : string
}.

(** A row of [scheduler_events]. *)
Record SchedulerEvent : Type := mkSchedulerEvent {
  id : nat;
  event_type : string;
  job_id : option string;
  scheduled_run_time : option string;
  exception : option string;
  traceback : option string
}.

(** The database behind one [StateManager] connection. *)
Record db : Type := mkDb {
  processed_filings : list ProcessedFiling;
  scheduler_events : list SchedulerEvent
}.

(** [_init_db] on a fresh file. *)
Definition init_db : db := mkDb [] [].

(** [SELECT 1 FROM processed_filings WHERE accession_number = ?] *)
Definition is_processed (d : db) (accession : string) : bool :=
  existsb (fun r => String.eqb (accession_number r) accession)
          (processed_filings d).

(** [INSERT OR IGNORE INTO processed_filings ...]: the row is appended
    unless the primary key is taken. *)
Definition mark_processed (d : db) (accession tick date : string) : db :=
  if existsb (fun r => String.eqb (accession_number r) accession)
             (processed_filings d)
  then d
  else mkDb (processed_filings d ++ [mkProcessedFiling accession tick date])
            (scheduler_events d).

(** [SELECT COUNT( * ) FROM processed_filings] *)
Definition get_processed_count (d : db) : nat := length (processed_filings d).

(** [INSERT INTO scheduler_events ...]: append-only, the id is the next
    AUTOINCREMENT value. *)
Definition record_scheduler_event (d : db) (etype : string)
    (job : option string) (run_time : option string)
    (exc : option string) (tb : option string) : db :=
  mkDb (processed_filings d)
       (scheduler_events d ++
        [mkSchedulerEvent (S (length (scheduler_events d))) etype job run_time exc tb]).

(** Rows of [processed_filings] that carry a given accession number. *)
Definition rows_for (d : db) (accession : string) : list ProcessedFiling :=
  filter (fun r => String.eqb (accession_number r) accession = true)
         (processed_filings d).

(** The PRIMARY KEY constraint of [processed_filings]. *)
Definition pk_unique (d : db) : Prop :=
  NoDup (map accession_number (processed_filings d)).

(** A run of [mark_processed] calls for one accession with arbitrary
    ticker and filing-date arguments. *)
Definition mark_many (d : db) (accession : string)
    (args : list (string * string)) : db :=
  fold_left (fun acc a => mark_processed acc accession (fst a) (snd a)) args d.

End StateManager.

(* ----------------------------------------------------------------- *)
(** ** core/ingestion/polling_engine.py *)

Module PollingEngine.
Import Py StateManager.

Inductive Level : Type := DEBUG | INFO | WARNING | ERROR | EXCEPTION.

(** What a task does to the outside world, in order. *)
Inductive Event : Type :=
| Log (lvl : Level) (msg : string)
| GetFilingText
| ExtractFromText (text tick : string)
| WriteReport (filename : string)
| SendReportAlert (filename : string)
| MarkProcessed (accession tick date : string)
| RecordSchedulerEvent (etype : string).

(** Computations over the state database and the event trace that may
    raise. *)
Definition M (A : Type) : Type :=
  db -> list Event -> PyResult A * db * list Event.

#[global] Instance M_ret : MRet M := fun A a d tr => (Ok a, d, tr).

#[global] Instance M_bind : MBind M := fun A B k m d tr =>
  match m d tr with
  | (Ok a, d', tr') => k a d' tr'
  | (Raise e, d', tr') => (Raise e, d', tr')
  end.

Definition emit (e : Event) : M unit := fun d tr => (Ok tt, d, tr ++ [e]).

Definition lift {A} (r : PyResult A) : M A := fun d tr => (r, d, tr).

Definition read_db {A} (f : db -> A) : M A := fun d tr => (Ok (f d), d, tr).

Definition write_db (f : db -> db) : M unit := fun d tr => (Ok tt, f d, tr).

(** [try: m except Exception: h] *)
Definition try_except {A} (m : M A) (h : PyExc -> M A) : M A :=
  fun d tr =>
    match m d tr with
    | (Ok a, d', tr') => (Ok a, d', tr')
    | (Raise e, d', tr') => h e d' tr'
    end.

(** [try: m finally: f] *)
Definition try_finally {A} (m : M A) (f : M unit) : M A :=
  fun d tr =>
    match m d tr with
    | (r, d', tr') =>
        match f d' tr' with
        | (Ok _, d'', tr'') => (r, d'', tr'')
        | (Raise e, d'', tr'') => (Raise e, d'', tr'')
        end
    end.

Section Task.

(** The adapter payload ([filing_obj]) and the extractor's report are
    opaque to the engine. *)
Variables Payload Report : Type.

(** A candidate filing: the dictionary an adapter returns, read with
    [.get]; an absent key and a [None] value both read as [None]. *)
Record Filing : Type := mkFiling {
  f_accession_number : option string;
  f_ticker : option string;
  f_filing_obj : option Payload;
  f_filing_date : option string
}.

(** The collaborators of a task: the market adapter, the extraction
    engine, the file system and the notification client. *)
Record Collaborators : Type := mkCollaborators {
  get_filing_text : Payload -> PyResult (option string);
  extract_from_text : string -> string -> PyResult Report;
  write_report_file : Report -> string -> PyResult unit;
  send_report_alert : Report -> string -> PyResult bool
}.

Variable C : Collaborators.

(** [_save_report]: writes [data/reports/<ticker>_<accession>.md], then
    sends the notification. *)
Definition _save_report (report : Report) (tick accession : string) : M unit :=
  let filename := "data/reports/" +:+ tick +:+ "_" +:+ accession +:+ ".md" in
  emit (WriteReport filename) ;;
  lift (write_report_file C report filename) ;;
  emit (SendReportAlert filename) ;;
  _ ← lift (send_report_alert C report filename) ;
  mret tt.

(** The part of [_process_filing] between the duplicate check and the
    final log line of the [try] block. *)
Definition process_new_filing (filing : Filing) (accession tick : string)
  : M unit :=
  emit (Log INFO "NEW FILING FOUND") ;;
  match f_filing_obj filing with
  | Some filing_obj =>
      emit (Log INFO "Fetching text") ;;
      text_content ←
        try_except
          (emit GetFilingText ;; lift (get_filing_text C filing_obj))
          (fun _ => emit (Log EXCEPTION "Failed to fetch filing text") ;;
                    mret None) ;
      if truthy_opt text_content then
        let text := default "" text_content in
        emit (Log DEBUG "Content Preview") ;;
        emit (Log INFO "Generating Earnings Note") ;;
        emit (ExtractFromText text tick) ;;
        report ← lift (extract_from_text C text tick) ;
        _save_report report tick accession ;;
        emit (Log INFO "Report saved")
      else
        emit (Log WARNING "No content extracted.")
  | None => emit (Log WARNING "No filing object available.")
  end ;;
  filing_date ←
    match f_filing_date filing with
    | None => emit (Log WARNING "Missing filing_date") ;; mret ""
    | Some dt => mret dt
    end ;
  emit (MarkProcessed accession tick filing_date) ;;
  write_db (fun d => mark_processed d accession tick filing_date) ;;
  emit (Log INFO "Processed").

(** [PollingEngine._process_filing] *)
Definition _process_filing (filing : Filing) : M unit :=
  match f_accession_number filing, f_ticker filing with
  | Some accession, Some tick =>
      if negb (truthy_str accession) || negb (truthy_str tick) then
        emit (Log WARNING "Skipping malformed filing")
      else
        emit (Log INFO "Starting task") ;;
        try_finally
          (try_except
             (seen ← read_db (fun d => is_processed d accession) ;
              if (seen : bool) then emit (Log INFO "Skipping (Already processed)")
              else process_new_filing filing accession tick)
             (fun _ => emit (Log EXCEPTION "Error processing")))
          (emit (Log INFO "Finished task"))
  | _, _ => emit (Log WARNING "Skipping malformed filing")
  end.

(** Runs one task on a database, from an empty trace. *)
Definition run_task (filing : Filing) (d : db)
  : PyResult unit * db * list Event :=
  _process_filing filing d [].

End Task.

Arguments mkFiling {Payload}.
Arguments f_accession_number {Payload}.
Arguments f_ticker {Payload}.
Arguments f_filing_obj {Payload}.
Arguments f_filing_date {Payload}.
Arguments mkCollaborators {Payload Report}.
Arguments get_filing_text {Payload Report}.
Arguments extract_from_text {Payload Report}.
Arguments write_report_file {Payload Report}.
Arguments send_report_alert {Payload Report}.
Arguments _save_report {Payload Report}.
Arguments process_new_filing {Payload Report}.
Arguments _process_filing {Payload Report}.
Arguments run_task {Payload Report}.

(** *** The scheduler listener of [start_scheduled] *)

(** What an attribute of a [PollingEngine] instance holds. *)
Inductive Attr : Type :=
| AttrTickers (ts : list string)
| AttrObject (cls : string)
| AttrNone
| AttrMaxWorkers (n : nat)
| AttrMethod (name : string)
| AttrStateManager.

(** A [PollingEngine] instance: what [__init__] sets. *)
Record Engine : Type := mkEngine {
  tickers : list string;
  max_workers : nat
}.

(** Attribute lookup on an instance: the instance attributes assigned in
    [__init__], then the methods of the class; anything else raises
    [AttributeError]. *)
Definition getattr (self : Engine) (name : string) : PyResult Attr :=
  if String.eqb name "tickers" then Ok (AttrTickers (tickers self))
  else if String.eqb name "registry" then Ok (AttrObject "MarketRegistry")
  else if String.eqb name "extractor" then Ok (AttrObject "ExtractionEngine")
  else if String.eqb name "rag" then Ok AttrNone
  else if String.eqb name "notifier" then Ok AttrNone
  else if String.eqb name "logger" then Ok (AttrObject "Logger")
  else if String.eqb name "_state_local" then Ok (AttrObject "threading.local")
  else if String.eqb name "max_workers" then Ok (AttrMaxWorkers (max_workers self))
  else if existsb (String.eqb name)
            ["_get_state_manager"; "_process_filing"; "run_once"; "start_loop";
             "start_scheduled"; "_save_report"; "_get_notifier"; "_get_rag"]
       then Ok (AttrMethod name)
  else Raise (AttributeError "PollingEngine" name).

(** An APScheduler job event ([EVENT_JOB_ERROR] or [EVENT_JOB_MISSED]);
    [scheduled_run_time] is kept as its ISO-8601 text. *)
Record JobEvent : Type := mkJobEvent {
  ev_job_id : string;
  ev_scheduled_run_time : option string;
  ev_exception : option string;
  ev_traceback : option string
}.

(** [start_scheduled._log_scheduler_event] *)
Definition _log_scheduler_event (self : Engine) (event : JobEvent) : M unit :=
  let scheduled_run_time_str := default "unknown" (ev_scheduled_run_time event) in
  let job := ev_job_id event in
  match ev_exception event with
  | Some _ => emit (Log ERROR "Scheduled job failed")
  | None =>
      emit (Log WARNING "Scheduled job missed its run time") ;;
      state ← lift (getattr self "state") ;
      match state with
      | AttrStateManager =>
          emit (RecordSchedulerEvent "misfire") ;;
          write_db (fun d =>
            record_scheduler_event d "misfire" (Some job)
              (Some scheduled_run_time_str) None None)
      | _ => lift (Raise (AttributeError "object" "record_scheduler_event"))
      end
  end.

End PollingEngine.

(** *** Outcome classification used to state what a task does *)

Module TaskOutcome.
Import Py PollingEngine.

Section Outcome.
Context {Payload Report : Type}.
Variable C : Collaborators Payload Report.

(** The text a task goes on to extract from: present only when the filing
    carries a payload and the adapter returns non-empty text without
    raising. *)
Definition fetched_text (filing : Filing Payload) : option string :=
  match f_filing_obj filing with
  | Some obj =>
      match get_filing_text C obj with
      | Ok (Some t) => if truthy_str t then Some t else None
      | Ok None => None
      | Raise _ => None
      end
  | None => None
  end.

(** Whether extraction, the report file and the notification all go
    through for a given text. *)
Definition extract_and_save (text tick accession : string) : PyResult unit :=
  match extract_from_text C text tick with
  | Raise e => Raise e
  | Ok report =>
      let filename := "data/reports/" +:+ tick +:+ "_" +:+ accession +:+ ".md" in
      match write_report_file C report filename with
      | Raise e => Raise e
      | Ok _ =>
          match send_report_alert C report filename with
          | Raise e => Raise e
          | Ok _ => Ok tt
          end
      end
  end.

End Outcome.
End TaskOutcome.

(* ----------------------------------------------------------------- *)
(** ** macro_core/models.py and macro_core/models_index.py *)

Module MacroModels.
Import Py.

(** One entry of [MacroEvent.outcomes]: the dictionary
    [{"label": ..., "probability": ...}]. *)
Record OutcomeEntry (Label : Type) : Type := mkOutcomeEntry {
  label : Label;
  probability : Q
}.
Arguments mkOutcomeEntry {Label}.
Arguments label {Label}.
Arguments probability {Label}.

(** [MacroEvent]; timestamps are microseconds since the epoch. *)
Record MacroEvent (Label : Type) : Type := mkMacroEvent {
  event_id : string;
  title : string;
  category : option string;
  sector : option string;
  related_ticker : option string;
  probability_yes : Q;
  outcomes : option (list (OutcomeEntry Label));
  volume_usd : option Q;
  end_date : option Z;
  source : string;
  timestamp : Z
}.
Arguments mkMacroEvent {Label}.
Arguments event_id {Label}.
Arguments title {Label}.
Arguments category {Label}.
Arguments sector {Label}.
Arguments related_ticker {Label}.
Arguments probability_yes {Label}.
Arguments outcomes {Label}.
Arguments volume_usd {Label}.
Arguments end_date {Label}.
Arguments source {Label}.
Arguments timestamp {Label}.

(** The field constraint [ge=0.0, le=1.0] of [probability_yes]. *)
Definition probability_in_range (p : Q) : bool :=
  Qle_bool 0 p && Qle_bool p 1.

(** [MarketMetadata] *)
Record MarketMetadata : Type := mkMarketMetadata {
  mm_event_id : string;
  mm_market_id : string;
  mm_title : string;
  mm_description : option string;
  mm_volume_usd : Q;
  mm_slug : option string;
  mm_tags : string;
  mm_created_at : option Z;
  mm_end_date : option string
}.

End MacroModels.

(* ----------------------------------------------------------------- *)
(** ** macro_core/persistence/timeseries.py *)

Module TimeSeriesPersistence.
Import Py MacroModels.

(** A row of [macro_probabilities].  The timestamp column holds
    [event.timestamp.isoformat()], a one-to-one rendering of the
    timestamp, so the row keeps the timestamp itself. *)
Record Row : Type := mkRow {
  row_id : nat;
  row_event_id : string;
  row_event_title : string;
  row_category : option string;
  row_sector : option string;
  row_related_ticker : option string;
  row_probability_yes : Q;
  row_volume_usd : option Q;
  row_source : string;
  row_timestamp : Z
}.

Definition same_key (eid : string) (ts : Z) (r : Row) : bool :=
  String.eqb (row_event_id r) eid && (row_timestamp r =? ts)%Z.

(** [INSERT INTO macro_probabilities ...] under
    [UNIQUE(event_id, timestamp)]. *)
Definition insert_row (tbl : list Row) (r : Row) : PyResult (list Row) :=
  if existsb (same_key (row_event_id r) (row_timestamp r)) tbl
  then Raise (IntegrityError
                "UNIQUE constraint failed: macro_probabilities.event_id, macro_probabilities.timestamp")
  else Ok (tbl ++ [r]).

(** [save_snapshot]: true when the row was written, false on a duplicate
    or on any other database error. *)
Definition save_snapshot {L} (tbl : list Row) (event : MacroEvent L)
  : bool * list Row :=
  match insert_row tbl
          (mkRow (S (length tbl)) (event_id event) (title event)
                 (category event) (sector event) (related_ticker event)
                 (probability_yes event) (volume_usd event) (source event)
                 (timestamp event)) with
  | Ok tbl' => (true, tbl')
  | Raise (IntegrityError _) => (false, tbl)
  | Raise _ => (false, tbl)
  end.

(** [save_batch]: the number of snapshots for which [save_snapshot]
    answered true. *)
Fixpoint save_batch {L} (tbl : list Row) (events : list (MacroEvent L))
  : nat * list Row :=
  match events with
  | [] => (0%nat, tbl)
  | event :: rest =>
      let '(ok, tbl') := save_snapshot tbl event in
      let '(saved, tbl'') := save_batch tbl' rest in
      ((if ok then S saved else saved), tbl'')
  end.

(** Rows stored under a snapshot key. *)
Definition rows_with_key (tbl : list Row) (eid : string) (ts : Z) : list Row :=
  List.filter (same_key eid ts) tbl.

(** The [UNIQUE(event_id, timestamp)] constraint. *)
Definition unique_keys (tbl : list Row) : Prop :=
  forall eid ts, (length (rows_with_key tbl eid ts) <= 1)%nat.

End TimeSeriesPersistence.

(* ----------------------------------------------------------------- *)
(** ** gravitic-nebula core/persistence/engine.py *)

Module SignalStore.
Import Py.

Section Store.

(** The JSON payload of a signal is opaque to the store. *)
Variable Payload : Type.

(** A row of [entities]. *)
Record Entity : Type := mkEntity {
  ent_id : nat;
  ent_ticker : string;
  ent_canonical_name : string;
  ent_last_scraped_at : option Z
}.

(** A row of [signals]; timestamps are microseconds since the epoch. *)
Record ScrapedSignal : Type := mkScrapedSignal {
  sig_id : nat;
  sig_entity_id : nat;
  sig_provider : string;
  sig_signal_value : Q;
  sig_raw_payload : Payload;
  sig_timestamp : Z
}.

Record store : Type := mkStore {
  entities : list Entity;
  signals : list ScrapedSignal
}.

(** [init_db] on a fresh file. *)
Definition empty_store : store := mkStore [] [].

(** [session.query(Entity).filter(Entity.ticker == ticker).first()] *)
Definition find_entity (st : store) (tick : string) : option Entity :=
  List.find (fun e => String.eqb (ent_ticker e) tick) (entities st).

(** [timedelta(hours=h)] in microseconds. *)
Definition timedelta_hours (h : Z) : Z := h * 3600000000.

(** The signals of one entity and provider, newest first. *)
Definition signals_newest_first (st : store) (entity : Entity)
    (provider : string) : list ScrapedSignal :=
  order_by_desc (fun a b => (sig_timestamp a <? sig_timestamp b)%Z)
    (List.filter
       (fun s => Nat.eqb (sig_entity_id s) (ent_id entity)
                 && String.eqb (sig_provider s) provider)
       (signals st)).

(** [SignalStore.get_latest_signal] with [ttl_hours] and the clock reading
    made explicit. *)
Definition get_latest_signal (st : store) (ttl_hours now : Z)
    (tick provider : string) : option Payload :=
  match find_entity st tick with
  | None => None
  | Some entity =>
      match head (signals_newest_first st entity provider) with
      | None => None
      | Some latest =>
          if (now - sig_timestamp latest <? timedelta_hours ttl_hours)%Z
          then Some (sig_raw_payload latest)
          else None
      end
  end.

(** [SignalStore.save_signal]; [now_signal] and [now_entity] are its two
    clock readings, in program order. *)
Definition save_signal (st : store) (tick provider : string)
    (payload : Payload) (signal_value : Q) (canonical_name : option string)
    (now_signal now_entity : Z) : store :=
  let '(entity, ents) :=
    match find_entity st tick with
    | Some e => (e, entities st)
    | None =>
        let e := mkEntity (S (length (entities st))) tick
                   (if truthy_opt canonical_name
                    then default tick canonical_name else tick)
                   None in
        (e, entities st ++ [e])
    end in
  let new_signal :=
    mkScrapedSignal (S (length (signals st))) (ent_id entity) provider
      signal_value payload now_signal in
  let touch e :=
    if Nat.eqb (ent_id e) (ent_id entity) then
      mkEntity (ent_id e) (ent_ticker e)
        (if truthy_opt canonical_name
         then default (ent_canonical_name e) canonical_name
         else ent_canonical_name e)
        (Some now_entity)
    else e in
  mkStore (map touch ents) (signals st ++ [new_signal]).

(** One [save_signal] call with its clock readings. *)
Record Save : Type := mkSave {
  s_ticker : string;
  s_provider : string;
  s_payload : Payload;
  s_signal_value : Q;
  s_canonical_name : option string;
  s_now_signal : Z;
  s_now_entity : Z
}.

Definition apply_save (st : store) (s : Save) : store :=
  save_signal st (s_ticker s) (s_provider s) (s_payload s) (s_signal_value s)
    (s_canonical_name s) (s_now_signal s) (s_now_entity s).

(** The store after a history of saves on a fresh database. *)
Definition run_saves (hist : list Save) : store :=
  fold_left apply_save hist empty_store.

(** The most recently saved signal for a ticker and provider. *)
Definition last_saved (hist : list Save) (tick provider : string)
  : option Save :=
  last (List.filter
          (fun s => String.eqb (s_ticker s) tick
                    && String.eqb (s_provider s) provider) hist).

End Store.

Arguments mkEntity : clear implicits.
Arguments ent_id : clear implicits.
Arguments mkScrapedSignal {Payload}.
Arguments sig_id {Payload}.
Arguments sig_entity_id {Payload}.
Arguments sig_provider {Payload}.
Arguments sig_signal_value {Payload}.
Arguments sig_raw_payload {Payload}.
Arguments sig_timestamp {Payload}.
Arguments mkStore {Payload}.
Arguments entities {Payload}.
Arguments signals {Payload}.
Arguments empty_store {Payload}.
Arguments find_entity {Payload}.
Arguments signals_newest_first {Payload}.
Arguments get_latest_signal {Payload}.
Arguments save_signal {Payload}.
Arguments mkSave {Payload}.
Arguments s_ticker {Payload}.
Arguments s_provider {Payload}.
Arguments s_payload {Payload}.
Arguments s_signal_value {Payload}.
Arguments s_canonical_name {Payload}.
Arguments s_now_signal {Payload}.
Arguments s_now_entity {Payload}.
Arguments apply_save {Payload}.
Arguments run_saves {Payload}.
Arguments last_saved {Payload}.

End SignalStore.

(* ----------------------------------------------------------------- *)
(** ** gravitic-nebula core/entity_resolver/engine.py *)

Module HybridResolver.
Import Py.

(** One element of the list given to [load_entities]:
    [{"name": ..., "ticker": ..., "aliases": [...]}], the last key
    optional. *)
Record EntityDef : Type := mkEntityDef {
  e_name : string;
  e_ticker : string;
  e_aliases : option (list string)
}.

(** The answer of [resolve]. *)
Record Resolution : Type := mkResolution {
  res_ticker : string;
  res_canonical_name : string;
  res_confidence : Q;
  res_method : string
}.

(** Calls made to the libraries behind the resolver. *)
Inductive Call : Type :=
| FuzzyExtract (query : string)
| Encode (texts : list string)
| Similarity.

Section Resolver.

(** The libraries the resolver relies on: a vector backend with its own
    fitted state [B] and array type [Vec], and rapidfuzz's
    [process.extract]. *)
Variables B Vec : Type.

Record Libs : Type := mkLibs {
  fit : B -> list string -> B;
  encode : B -> list string -> Vec;
  similarity : B -> Vec -> Vec -> list Q;
  fuzzy_extract : string -> list string -> Z -> list (string * Q * nat)
}.

Variable libs : Libs.

(** The fields of a [HybridResolver]. *)
Record Resolver : Type := mkResolver {
  vector_backend : B;
  known_entities : list string;
  entity_vectors : option Vec;
  entity_map : gmap string string;
  alias_map : gmap string string
}.

(** [HybridResolver.__init__] with a given backend. *)
Definition init (b : B) : Resolver := mkResolver b [] None ∅ ∅.

(** The inner loop of [load_entities] over the aliases of one entity. *)
Definition map_aliases (name : string) (aliases : list string)
    (amap : gmap string string) : gmap string string :=
  fold_left (fun m alias => <[lower alias := name]> m) aliases amap.

(** One iteration of the loop of [load_entities]. *)
Definition load_entity
    (acc : list string * gmap string string * gmap string string)
    (e : EntityDef) : list string * gmap string string * gmap string string :=
  let '(known, emap, amap) := acc in
  (known ++ [e_name e],
   <[e_name e := e_ticker e]> emap,
   match e_aliases e with
   | Some aliases => map_aliases (e_name e) aliases amap
   | None => amap
   end).

(** [HybridResolver.load_entities] *)
Definition load_entities (r : Resolver) (entities : list EntityDef) : Resolver :=
  let '(known, emap, amap) := fold_left load_entity entities ([], ∅, ∅) in
  let b := fit libs (vector_backend r) known in
  mkResolver b known (Some (encode libs b known)) emap amap.

(** [int(np.argmax(scores))]: the first position of the maximum. *)
Fixpoint argmax_from (best_idx : nat) (best : Q) (idx : nat) (scores : list Q)
  : nat :=
  match scores with
  | [] => best_idx
  | x :: rest =>
      if Qle_bool x best then argmax_from best_idx best (S idx) rest
      else argmax_from idx x (S idx) rest
  end.

Definition argmax (scores : list Q) : PyResult nat :=
  match scores with
  | [] => Raise (ValueError "attempt to get argmax of an empty sequence")
  | x :: rest => Ok (argmax_from 0 x 1 rest)
  end.

(** [d[key]] on a dictionary. *)
Definition getitem (m : gmap string string) (key : string) : PyResult string :=
  match m !! key with
  | Some v => Ok v
  | None => Raise (KeyError key)
  end.

(** [HybridResolver.resolve]: the answer and the library calls made. *)
Definition resolve (r : Resolver) (query : string) (fuzzy_threshold : Z)
  : PyResult (option Resolution) * list Call :=
  let query_norm := strip (lower query) in
  match alias_map r !! query_norm with
  | Some canonical =>
      match getitem (entity_map r) canonical with
      | Ok tick => (Ok (Some (mkResolution tick canonical 1 "alias_lookup")), [])
      | Raise e => (Raise e, [])
      end
  | None =>
      let candidates :=
        fuzzy_extract libs query (known_entities r) fuzzy_threshold in
      let query_vec := encode libs (vector_backend r) [query] in
      let trace := [FuzzyExtract query; Encode [query]; Similarity] in
      match entity_vectors r with
      | None => (Raise (TypeError "entity_vectors is None"), trace)
      | Some vectors =>
          let all_cosine_scores :=
            similarity libs (vector_backend r) query_vec vectors in
          match argmax all_cosine_scores with
          | Raise e => (Raise e, trace)
          | Ok best_idx_vec =>
              match nth_error all_cosine_scores best_idx_vec,
                    nth_error (known_entities r) best_idx_vec with
              | Some best_score_vec, Some best_name_vec =>
                  if Qle_bool best_score_vec (35 # 100) then (Ok None, trace)
                  else
                    match getitem (entity_map r) best_name_vec with
                    | Ok tick =>
                        (Ok (Some (mkResolution tick best_name_vec
                                     best_score_vec "pure_vector")), trace)
                    | Raise e => (Raise e, trace)
                    end
              | _, _ => (Raise (IndexError "list index out of range"), trace)
              end
          end
      end
  end.

End Resolver.

Arguments mkLibs {B Vec}.
Arguments fit {B Vec}.
Arguments encode {B Vec}.
Arguments similarity {B Vec}.
Arguments fuzzy_extract {B Vec}.
Arguments mkResolver {B Vec}.
Arguments vector_backend {B Vec}.
Arguments known_entities {B Vec}.
Arguments entity_vectors {B Vec}.
Arguments entity_map {B Vec}.
Arguments alias_map {B Vec}.
Arguments init {B Vec}.
Arguments load_entities {B Vec}.
Arguments resolve {B Vec}.

End HybridResolver.

(* ----------------------------------------------------------------- *)
(** ** macro_core/persistence/index.py *)

Module MarketIndex.
Import Py MacroModels.

(** A row of [market_metadata]; [end_date] is the ISO text of the date. *)
Record MetaRow : Type := mkMetaRow {
  mr_event_id : string;
  mr_market_id : string;
  mr_title : string;
  mr_description : option string;
  mr_slug : option string;
  mr_tags : string;
  mr_volume_usd : Q;
  mr_end_date : option string
}.

(** A row of the FTS5 table [market_fts]. *)
Record FtsRow : Type := mkFtsRow {
  fts_event_id : string;
  fts_title : string;
  fts_description : string;
  fts_tags : string;
  fts_slug : string
}.

Record index : Type := mkIndex {
  market_metadata : list MetaRow;
  market_fts : list FtsRow
}.

(** [_init_db] on a fresh file. *)
Definition empty_index : index := mkIndex [] [].

(** [INSERT ... ON CONFLICT(event_id) DO UPDATE SET volume_usd, title] *)
Fixpoint upsert_row (rows : list MetaRow) (m : MarketMetadata) : list MetaRow :=
  match rows with
  | [] =>
      [mkMetaRow (mm_event_id m) (mm_market_id m) (mm_title m)
         (mm_description m) (mm_slug m) (mm_tags m) (mm_volume_usd m)
         (mm_end_date m)]
  | r :: rest =>
      if String.eqb (mr_event_id r) (mm_event_id m) then
        mkMetaRow (mr_event_id r) (mr_market_id r) (mm_title m)
          (mr_description r) (mr_slug r) (mr_tags r) (mm_volume_usd m)
          (mr_end_date r) :: rest
      else r :: upsert_row rest m
  end.

(** The body of the loop of [upsert_markets]: the metadata upsert, then
    delete-and-insert on the FTS table. *)
Definition upsert_one (idx : index) (m : MarketMetadata) : index :=
  mkIndex
    (upsert_row (market_metadata idx) m)
    (List.filter (fun f => negb (String.eqb (fts_event_id f) (mm_event_id m)))
       (market_fts idx)
     ++ [mkFtsRow (mm_event_id m) (mm_title m) (default "" (mm_description m))
           (mm_tags m) (default "" (mm_slug m))]).

(** [MarketIndex.upsert_markets] *)
Definition upsert_markets (idx : index) (markets : list MarketMetadata)
  : nat * index :=
  fold_left (fun '(count, i) m => (S count, upsert_one i m)) markets (0%nat, idx).

(** SQLite's [LIKE]: [%] matches any run of characters, [_] any one
    character, letters compare without regard to ASCII case. *)
Fixpoint like (pattern text : string) : bool :=
  match pattern with
  | EmptyString => match text with EmptyString => true | _ => false end
  | String p pattern' =>
      if Ascii.eqb p "%" then
        (fix any (t : string) : bool :=
           like pattern' t
           || match t with
              | EmptyString => false
              | String _ t' => any t'
              end) text
      else
        match text with
        | EmptyString => false
        | String c text' =>
            (Ascii.eqb p "_" || Ascii.eqb (lower_ascii p) (lower_ascii c))
            && like pattern' text'
        end
  end.

(** Whether the volume of [a] is below the volume of [b]. *)
Definition volume_below (a b : MetaRow) : bool :=
  negb (Qle_bool (mr_volume_usd b) (mr_volume_usd a)).

(** The [MarketMetadata] built from a result row. *)
Definition of_row (r : MetaRow) : MarketMetadata :=
  mkMarketMetadata (mr_event_id r)
    (if truthy_str (mr_market_id r) then mr_market_id r else "")
    (mr_title r) (mr_description r) (mr_volume_usd r) (mr_slug r)
    (if truthy_str (mr_tags r) then mr_tags r else "")
    None (mr_end_date r).

(** [MarketIndex._search_fallback] *)
Definition _search_fallback (idx : index) (query : string) (limit : Z)
  : list MarketMetadata :=
  let pattern := "%" +:+ query +:+ "%" in
  map of_row
    (sql_limit limit
       (order_by_desc volume_below
          (List.filter
             (fun r => like pattern (mr_title r) || like pattern (mr_tags r))
             (market_metadata idx)))).

Section Search.

(** The FTS5 engine: the rows a [MATCH] query selects, or [None] when the
    query text is not valid FTS5 syntax. *)
Variable fts5_match : string -> option (FtsRow -> bool).

(** [market_fts f JOIN market_metadata m ON f.event_id = m.event_id
    WHERE market_fts MATCH ?] *)
Definition fts_join (idx : index) (selected : FtsRow -> bool) : list MetaRow :=
  flat_map
    (fun f =>
       if selected f then
         List.filter (fun m => String.eqb (fts_event_id f) (mr_event_id m))
           (market_metadata idx)
       else [])
    (market_fts idx).

(** [MarketIndex.search] *)
Definition search (idx : index) (query : string) (limit : Z)
  : list MarketMetadata :=
  match fts5_match query with
  | Some selected =>
      map of_row
        (sql_limit limit (order_by_desc volume_below (fts_join idx selected)))
  | None => _search_fallback idx query limit
  end.

End Search.

End MarketIndex.

(* ----------------------------------------------------------------- *)
(** ** macro_core/scrapers/discovery.py *)

Module DiscoveryEngine.
Import Py MacroModels MarketIndex.

(** An entry of [TICKER_THEME_MAP]: a dictionary read with [.get]. *)
Record Theme : Type := mkTheme {
  sector : option string;
  keywords : option (list string)
}.

(** The empty dictionary [{}]. *)
Definition no_theme : Theme := mkTheme None None.

Definition theme (s : string) (kws : list string) : Theme :=
  mkTheme (Some s) (Some kws).

Definition TICKER_THEME_MAP : gmap string Theme :=
  list_to_map
    [("NVDA", theme "AI/Chips"
        ["NVDA"; "Nvidia"; "AI"; "Chips"; "Semiconductors"; "TSMC";
         "Blackwell"; "Jensen Huang"]);
     ("MSFT", theme "Software/Cloud"
        ["MSFT"; "Microsoft"; "OpenAI"; "Azure"; "Cloud"; "SaaS"]);
     ("AAPL", theme "Consumer Tech"
        ["AAPL"; "Apple"; "iPhone"; "China Sales"; "App Store"]);
     ("TSLA", theme "Auto/Energy"
        ["TSLA"; "Tesla"; "Musk"; "EV"; "Electric Vehicles"; "Charging"]);
     ("META", theme "Ad/Social"
        ["META"; "Facebook"; "Zuckerberg"; "Ads"; "Instagram"; "Threads"]);
     ("GOOGL", theme "Ad/Search"
        ["GOOGL"; "Google"; "Search"; "Gemini"; "YouTube"; "Antitrust"]);
     ("AMZN", theme "Retail/Cloud"
        ["AMZN"; "Amazon"; "AWS"; "Retail"; "Prime"])].

(** [DiscoveryEngine.get_keywords_for_ticker] *)
Definition get_keywords_for_ticker (ticker : string) : list string :=
  let mapping := default no_theme (TICKER_THEME_MAP !! upper ticker) in
  default [upper ticker] (keywords mapping).

(** [DiscoveryEngine.get_sector_for_ticker] *)
Definition get_sector_for_ticker (ticker : string) : string :=
  let mapping := default no_theme (TICKER_THEME_MAP !! upper ticker) in
  default "Other" (sector mapping).

Section SearchTicker.

Variable fts5_match : string -> option (FtsRow -> bool).

(** The inner loop of [search_ticker] over the matches of one keyword. *)
Definition add_matches (acc : list MarketMetadata * gset string)
    (matches : list MarketMetadata) : list MarketMetadata * gset string :=
  fold_left
    (fun '(results, seen_ids) m =>
       if decide (mm_event_id m ∈ seen_ids) then (results, seen_ids)
       else (results ++ [m], {[mm_event_id m]} ∪ seen_ids))
    matches acc.

(** [DiscoveryEngine.search_ticker]: the queries sent to the index, in
    order, and the result. *)
Definition search_ticker (idx : index) (ticker : string) (limit : Z)
  : list string * list MarketMetadata :=
  let kws := get_keywords_for_ticker ticker in
  let '(queries, (results, _)) :=
    fold_left
      (fun '(sent, acc) kw =>
         (sent ++ [kw], add_matches acc (search fts5_match idx kw limit)))
      kws ([], ([], ∅)) in
  let sorted :=
    order_by_desc
      (fun a b => negb (Qle_bool (mm_volume_usd b) (mm_volume_usd a)))
      results in
  (queries, slice_to limit sorted).

End SearchTicker.

End DiscoveryEngine.

(* ----------------------------------------------------------------- *)
(** ** macro_core/scrapers/polymarket.py *)

Module PolymarketScraper.
Import Py MacroModels.

Section Hydration.

(** The built-ins [ast.literal_eval] and [float] on strings; [None] stands
    for a raised exception. *)
Variable literal_eval_str : string -> option PyVal.
Variable float_of_str : string -> option Q.

(** [ast.literal_eval(v)] *)
Definition literal_eval (v : PyVal) : PyResult PyVal :=
  match v with
  | PStr s =>
      match literal_eval_str s with
      | Some x => Ok x
      | None => Raise (ValueError "malformed node or string")
      end
  | _ => Raise (ValueError "malformed node or string")
  end.

(** [float(v)] *)
Definition float (v : PyVal) : PyResult Q :=
  match v with
  | PNum q => Ok q
  | PBool b => Ok (if b then 1%Q else 0%Q)
  | PStr s =>
      match float_of_str s with
      | Some q => Ok q
      | None => Raise (ValueError "could not convert string to float")
      end
  | _ => Raise (TypeError "float() argument must be a string or a real number")
  end.

(** The loop over [zip(outcome_labels, prices)]: the entries appended to
    [outcomes_data] and the exception that stopped the loop, if any. *)
Fixpoint append_outcomes (labels prices : list PyVal)
    (outcomes_data : list (OutcomeEntry PyVal))
  : list (OutcomeEntry PyVal) * option PyExc :=
  match labels, prices with
  | lbl :: labels', price :: prices' =>
      match float price with
      | Ok q => append_outcomes labels' prices'
                  (outcomes_data ++ [mkOutcomeEntry lbl q])
      | Raise e => (outcomes_data, Some e)
      end
  | _, _ => (outcomes_data, None)
  end.

(** The inner [try] block of [_parse_single_market]: [outcomes_data] and
    [prob_yes] as they stand after it. *)
Definition parse_outcomes (market : gmap string PyVal)
  : list (OutcomeEntry PyVal) * Q :=
  match literal_eval (dict_get market "outcomes" (PStr "[]")) with
  | Raise _ => ([], 1 # 2)
  | Ok outcome_labels =>
      match literal_eval (dict_get market "outcomePrices" (PStr "[]")) with
      | Raise _ => ([], 1 # 2)
      | Ok prices =>
          let '(outcomes_data, failed) :=
            if truthy outcome_labels && truthy prices then
              match iter outcome_labels, iter prices with
              | Ok ls, Ok ps => append_outcomes ls ps []
              | Raise e, _ => ([], Some e)
              | _, Raise e => ([], Some e)
              end
            else ([], None) in
          match failed with
          | Some _ => (outcomes_data, 1 # 2)
          | None =>
              if truthy prices then
                match first_item prices with
                | Ok p0 =>
                    match float p0 with
                    | Ok q => (outcomes_data, q)
                    | Raise _ => (outcomes_data, 1 # 2)
                    end
                | Raise _ => (outcomes_data, 1 # 2)
                end
              else (outcomes_data, 1 # 2)
          end
      end
  end.

(** The [MacroEvent] constructor with its validation: [event_id] and
    [title] must be strings and [probability_yes] must lie in [0, 1]. *)
Definition new_MacroEvent (eid ttl : PyVal) (prob : Q)
    (outs : option (list (OutcomeEntry PyVal))) (vol : option Q)
    (src : string) (now : Z) : PyResult (MacroEvent PyVal) :=
  match eid, ttl with
  | PStr i, PStr t =>
      if probability_in_range prob
      then Ok (mkMacroEvent i t None None None prob outs vol None src now)
      else Raise (ValidationError "probability_yes")
  | PStr _, _ => Raise (ValidationError "title")
  | _, _ => Raise (ValidationError "event_id")
  end.

(** The shell event returned when building the event fails. *)
Definition shell_event (now : Z) : MacroEvent PyVal :=
  mkMacroEvent "" "Error Parsing" None None None 0%Q None (Some 0%Q) None
    "error" now.

(** [PolymarketScraper._parse_single_market]; [now] is the clock reading
    that stamps the event. *)
Definition _parse_single_market (market : gmap string PyVal) (now : Z)
  : MacroEvent PyVal :=
  let '(outcomes_data, prob_yes) := parse_outcomes market in
  let volume := dict_get market "volume" (PNum 0%Q) in
  match float (if truthy volume then volume else PNum 0%Q) with
  | Raise _ => shell_event now
  | Ok vol =>
      match new_MacroEvent (dict_get market "id" (PStr ""))
              (dict_get market "question" (PStr "Unknown"))
              prob_yes (Some outcomes_data) (Some vol) "polymarket" now with
      | Ok event => event
      | Raise _ => shell_event now
      end
  end.

(** The fields other than the outcome lists are as the API sends them:
    [id] and [question] are strings when present, and the volume converts
    to a float. *)
Definition plain_fields (market : gmap string PyVal) : Prop :=
  (exists i, dict_get market "id" (PStr "") = PStr i)
  /\ (exists t, dict_get market "question" (PStr "Unknown") = PStr t)
  /\ (exists vol,
        let volume := dict_get market "volume" (PNum 0%Q) in
        float (if truthy volume then volume else PNum 0%Q) = Ok vol).

End Hydration.

End PolymarketScraper.

(* ----------------------------------------------------------------- *)
(** ** run_poller.py *)

Module RunPoller.
Import Py.

(** Values held by an [argparse.Namespace]. *)
Inductive ArgValue : Type :=
| ANone
| ABool (b : bool)
| AInt (z : Z)
| AStr (s : string)
| AList (l : list string).

Inductive ArgType : Type := TInt | TStr.

Inductive Action : Type :=
| Store (ty : ArgType)
| StoreTrue
| Help.

(** One [add_argument] call for an optional argument. *)
Record OptSpec : Type := mkOpt {
  opt_flag : string;
  opt_dest : string;
  opt_action : Action;
  opt_default : ArgValue
}.

(** The optional arguments [main] declares, after the [--help] that
    [ArgumentParser] adds itself; [env_log_level] is
    [os.getenv("LOG_LEVEL")]. *)
Definition parser_options (env_log_level : option string) : list OptSpec :=
  [mkOpt "--help" "help" Help ANone;
   mkOpt "--interval" "interval" (Store TInt) (AInt 5);
   mkOpt "--cron" "cron" (Store TStr) ANone;
   mkOpt "--simple" "simple" StoreTrue (ABool false);
   mkOpt "--log-level" "log_level" (Store TStr)
     (AStr (default "INFO" env_log_level));
   mkOpt "--max-workers" "max_workers" (Store TInt) ANone].

(** The namespace before any argument is read: every destination at its
    default ([--help] has none). *)
Definition defaults (opts : list OptSpec) : gmap string ArgValue :=
  fold_left
    (fun ns o =>
       match opt_action o with
       | Help => ns
       | _ => <[opt_dest o := opt_default o]> ns
       end)
    opts ∅.

Inductive Lookup : Type :=
| Found (o : OptSpec)
| Ambiguous
| Unknown.

(** An option string names the option it equals or, failing that, the one
    option it abbreviates. *)
Definition find_option (opts : list OptSpec) (name : string) : Lookup :=
  match List.filter (fun o => String.eqb (opt_flag o) name) opts with
  | o :: _ => Found o
  | [] =>
      match List.filter (fun o => String.prefix name (opt_flag o)) opts with
      | [o] => Found o
      | [] => Unknown
      | _ => Ambiguous
      end
  end.

(** Splits [--name=value] at the first equals sign. *)
Fixpoint split_eq (s : string) : string * option string :=
  match s with
  | EmptyString => (EmptyString, None)
  | String c s' =>
      if Ascii.eqb c "=" then (EmptyString, Some s')
      else let '(a, b) := split_eq s' in (String c a, b)
  end.

(** [int(s)] on an optionally signed run of digits. *)
Definition parse_int (s : string) : option Z :=
  match s with
  | String "-" r =>
      if truthy_str r then option_map Z.opp (digits_value 0 r) else None
  | String "+" r => if truthy_str r then digits_value 0 r else None
  | _ => if truthy_str s then digits_value 0 s else None
  end.

Fixpoint all_digits (s : string) : bool :=
  match s with
  | EmptyString => true
  | String c s' =>
      match digit_of c with Some _ => all_digits s' | None => false end
  end.

(** A dash, then digits with an optional fraction. *)
Definition is_negative_number (s : string) : bool :=
  match s with
  | String "-" r =>
      match split_dot r with
      | (ip, None) => truthy_str ip && all_digits ip
      | (ip, Some fp) => all_digits ip && truthy_str fp && all_digits fp
      end
  | _ => false
  end.

Fixpoint has_blank (s : string) : bool :=
  match s with
  | EmptyString => false
  | String c s' => Ascii.eqb c " " || has_blank s'
  end.

(** Whether a token reads as an option string: it starts with a dash, is
    longer than the dash, is not a negative number ([-5], [-.5], [-1.5]) and
    holds no blank. *)
Definition is_option_string (tok : string) : bool :=
  match tok with
  | String "-" (String _ _) =>
      negb (is_negative_number tok) && negb (has_blank tok)
  | _ => false
  end.

Definition convert (ty : ArgType) (v : string) : option ArgValue :=
  match ty with
  | TInt => option_map AInt (parse_int v)
  | TStr => Some (AStr v)
  end.

Record ParseState : Type := mkParseState {
  ps_namespace : gmap string ArgValue;
  ps_tickers : list string;
  ps_closed : bool;
  ps_extras : list string
}.

(** A positional token joins [tickers] while the first run of positional
    tokens lasts; later ones are left over. *)
Definition take_positional (st : ParseState) (tok : string) : ParseState :=
  if ps_closed st
  then mkParseState (ps_namespace st) (ps_tickers st) true (ps_extras st ++ [tok])
  else mkParseState (ps_namespace st) (ps_tickers st ++ [tok]) false (ps_extras st).

(** Meeting an option string ends the run of tickers, if one was read. *)
Definition close_positionals (st : ParseState) : ParseState :=
  mkParseState (ps_namespace st) (ps_tickers st)
    (ps_closed st || match ps_tickers st with [] => false | _ => true end)
    (ps_extras st).

Definition set_dest (st : ParseState) (dest : string) (v : ArgValue)
  : ParseState :=
  mkParseState (<[dest := v]> (ps_namespace st)) (ps_tickers st)
    (ps_closed st) (ps_extras st).

Definition leave_over (st : ParseState) (tok : string) : ParseState :=
  mkParseState (ps_namespace st) (ps_tickers st) (ps_closed st)
    (ps_extras st ++ [tok]).

(** The scan of the command line; [inl code] is [SystemExit(code)].  An
    option that stores a value takes it from [--name=value] or from the next
    token, which must not itself read as an option; a bare [--] makes every
    later token positional. *)
Fixpoint parse_loop (opts : list OptSpec) (st : ParseState)
    (argv : list string) : Z + ParseState :=
  match argv with
  | [] => inr st
  | tok :: rest =>
      if String.eqb tok "--" then
        inr (fold_left take_positional rest st)
      else if is_option_string tok then
        let st := close_positionals st in
        let '(name, explicit) := split_eq tok in
        match (if String.eqb tok "-h" then Found (mkOpt "--help" "help" Help ANone)
               else if String.prefix "--" tok then find_option opts name
               else Unknown) with
        | Ambiguous => inl 2
        | Unknown => parse_loop opts (leave_over st tok) rest
        | Found o =>
            match opt_action o with
            | Help => inl 0
            | StoreTrue =>
                match explicit with
                | Some _ => inl 2
                | None => parse_loop opts (set_dest st (opt_dest o) (ABool true)) rest
                end
            | Store ty =>
                match explicit with
                | Some v =>
                    match convert ty v with
                    | Some a => parse_loop opts (set_dest st (opt_dest o) a) rest
                    | None => inl 2
                    end
                | None =>
                    match rest with
                    | v :: rest' =>
                        if is_option_string v || String.eqb v "--" then inl 2
                        else
                          match convert ty v with
                          | Some a =>
                              parse_loop opts (set_dest st (opt_dest o) a) rest'
                          | None => inl 2
                          end
                    | [] => inl 2
                    end
                end
            end
        end
      else parse_loop opts (take_positional st tok) rest
  end.

(** [parser.parse_args()]: the namespace, or the exit code of the error
    (2) or of [--help] (0). *)
Definition parse_args (env_log_level : option string) (argv : list string)
  : Z + gmap string ArgValue :=
  let opts := parser_options env_log_level in
  match parse_loop opts (mkParseState (defaults opts) [] false []) argv with
  | inl code => inl code
  | inr st =>
      match ps_tickers st, ps_extras st with
      | [], _ => inl 2
      | _ :: _, _ :: _ => inl 2
      | tickers, [] => inr (<["tickers" := AList tickers]> (ps_namespace st))
      end
  end.

(** [args.name] *)
Definition getattr (args : gmap string ArgValue) (name : string)
  : PyResult ArgValue :=
  match args !! name with
  | Some v => Ok v
  | None => Raise (AttributeError "Namespace" name)
  end.

#[global] Instance PyResult_ret : MRet PyResult := fun A a => Ok a.

#[global] Instance PyResult_bind : MBind PyResult := fun A B k m =>
  match m with
  | Ok a => k a
  | Raise e => Raise e
  end.

(** How a run of the command ends. *)
Inductive Outcome : Type :=
| Exit (code : Z)
| Unhandled (e : PyExc)
| StartLoop (interval_seconds : Z)
| StartScheduled (cron : option string) (interval_minutes : Z)
    (misfire_grace_seconds : option Z).

Definition as_int (v : ArgValue) : PyResult Z :=
  match v with
  | AInt z => Ok z
  | ABool b => Ok (if b then 1 else 0)
  | _ => Raise (TypeError "an integer is required")
  end.

Definition as_opt_int (v : ArgValue) : PyResult (option Z) :=
  match v with
  | ANone => Ok None
  | _ => z ← as_int v; mret (Some z)
  end.

Definition as_opt_str (v : ArgValue) : PyResult (option string) :=
  match v with
  | ANone => Ok None
  | AStr s => Ok (Some s)
  | _ => Raise (TypeError "a string is required")
  end.

Definition truthy_arg (v : ArgValue) : bool :=
  match v with
  | ANone => false
  | ABool b => b
  | AInt z => negb (z =? 0)%Z
  | AStr s => truthy_str s
  | AList l => match l with [] => false | _ => true end
  end.

Section Main.

(** [CronTrigger.from_crontab] accepts the expression. *)
Variable cron_ok : string -> bool.

(** The checks [PollingEngine.start_loop] makes before looping. *)
Definition start_loop (interval_seconds : Z) : PyResult Outcome :=
  if (interval_seconds <=? 0)%Z
  then Raise (ValueError "interval_seconds must be positive")
  else Ok (StartLoop interval_seconds).

(** The checks [PollingEngine.start_scheduled] makes before the job is
    added: the trigger, then the misfire grace time. *)
Definition start_scheduled (cron_expression : option string)
    (interval_minutes : Z) (misfire_grace_seconds : option Z)
  : PyResult Outcome :=
  (if truthy_opt cron_expression
   then Ok tt
   else if (interval_minutes <=? 0)%Z
        then Raise (ValueError "interval_minutes must be positive")
        else Ok tt) ;;
  match misfire_grace_seconds with
  | Some g =>
      if (g <=? 0)%Z
      then Raise (ValueError "misfire_grace_seconds must be positive")
      else Ok tt
  | None => Ok tt
  end ;;
  mret (StartScheduled
          (match cron_expression with
           | Some c => if truthy_str c && cron_ok c then Some c else None
           | None => None
           end)
          interval_minutes misfire_grace_seconds).

(** The body of [main] once the arguments are parsed. *)
Definition run (args : gmap string ArgValue) : PyResult Outcome :=
  _ ← getattr args "log_level";
  _ ← getattr args "log_format";
  _ ← getattr args "log_file";
  _ ← getattr args "console";
  _ ← getattr args "tickers";
  _ ← getattr args "tickers";
  _ ← getattr args "max_workers";
  simple ← getattr args "simple";
  if truthy_arg simple then
    interval ← getattr args "interval" ≫= as_int;
    start_loop (interval * 60)
  else
    cron ← getattr args "cron" ≫= as_opt_str;
    interval ← getattr args "interval" ≫= as_int;
    misfire ← getattr args "misfire_grace_seconds" ≫= as_opt_int;
    start_scheduled cron interval misfire.

(** [run_poller.main] on a command line (without the program name). *)
Definition main (env_log_level : option string) (argv : list string)
  : Outcome :=
  match parse_args env_log_level argv with
  | inl code => Exit code
  | inr args =>
      match run args with
      | Ok outcome => outcome
      | Raise e => Unhandled e
      end
  end.

End Main.

End RunPoller.

(* ----------------------------------------------------------------- *)
(** ** core/ingestion/international/market_registry.py *)

Module MarketRegistry.
Import Py.

(** [s.endswith(suffix)] *)
Definition endswith (s suffix : string) : bool :=
  (String.length suffix <=? String.length s)%nat
  && String.eqb
       (substring (String.length s - String.length suffix)
          (String.length suffix) s)
       suffix.

(** The two ingestion clients a registry holds. *)
Inductive Client : Type := EdgarClient | NseClient.

(** [MarketRegistry.get_client] *)
Definition get_client (ticker : string) : Client :=
  if endswith ticker ".NS" then NseClient else EdgarClient.

(** The dictionary [{'edgar': [...], 'nse': [...]}]. *)
Record Groups : Type := mkGroups {
  edgar : list string;
  nse : list string
}.

(** [MarketRegistry.group_tickers_by_market] *)
Definition group_tickers_by_market (tickers : list string) : Groups :=
  fold_left
    (fun groups t =>
       if endswith t ".NS"
       then mkGroups (edgar groups) (nse groups ++ [t])
       else mkGroups (edgar groups ++ [t]) (nse groups))
    tickers (mkGroups [] []).

End MarketRegistry.

(* ----------------------------------------------------------------- *)
(** ** macro_core/persistence/timeseries.py: reading back *)

Module TimeSeriesQueries.
Import Py MacroModels TimeSeriesPersistence.

(** A result row of [get_latest_probabilities]. *)
Record LatestRow : Type := mkLatestRow {
  lr_event_id : string;
  lr_event_title : string;
  lr_category : option string;
  lr_sector : option string;
  lr_related_ticker : option string;
  lr_probability_yes : Q;
  lr_volume_usd : option Q;
  lr_timestamp : Z
}.

Definition older (a b : Row) : bool := (row_timestamp a <? row_timestamp b)%Z.

(** One group of [GROUP BY event_id]: with [MAX(timestamp)] in the select
    list, the other columns are read from the row that holds the
    maximum. *)
Definition latest_of (tbl : list Row) (eid : string) : option LatestRow :=
  match head (order_by_desc older
                (List.filter (fun r => String.eqb (row_event_id r) eid) tbl)) with
  | Some r =>
      Some (mkLatestRow (row_event_id r) (row_event_title r) (row_category r)
              (row_sector r) (row_related_ticker r) (row_probability_yes r)
              (row_volume_usd r) (row_timestamp r))
  | None => None
  end.

(** [get_latest_probabilities]: one row per event, newest first, capped
    by [LIMIT]. *)
Definition get_latest_probabilities (tbl : list Row) (limit : Z)
  : list LatestRow :=
  sql_limit limit
    (order_by_desc (fun a b => (lr_timestamp a <? lr_timestamp b)%Z)
       (omap (latest_of tbl) (nodup string_dec (map row_event_id tbl)))).

End TimeSeriesQueries.

(* ----------------------------------------------------------------- *)
(** ** macro_core/persistence/index.py: counting *)

Module MarketIndexStatus.
Import MarketIndex.

(** [MarketIndex.get_count]: [SELECT COUNT( * ) FROM market_metadata] *)
Definition get_count (idx : index) : nat := length (market_metadata idx).

(** [MarketIndex.is_empty] *)
Definition is_empty (idx : index) : bool := Nat.eqb (get_count idx) 0.

End MarketIndexStatus.

(* ===================================================================== *)
(** * Part II. Properties *)
(* ===================================================================== *)

Module StateManagerProps.
Import StateManager.

Example mark_twice :
  mark_many init_db "0001045810-24-001"
    [("NVDA", "2024-11-20"); ("AMD", "2024-11-21")]
  = mkDb [mkProcessedFiling "0001045810-24-001" "NVDA" "2024-11-20"] [].
Proof. reflexivity. Qed.

Lemma is_processed_mark (d : db) (acc t dt : string) :
  is_processed (mark_processed d acc t dt) acc = true.
Proof.
  unfold mark_processed, is_processed.
  destruct (existsb _ (processed_filings d)) eqn:E; simpl.
  - exact E.
  - rewrite existsb_app. simpl. rewrite String.eqb_refl.
    now rewrite orb_true_r.
Qed.

Lemma mark_processed_noop (d : db) (acc t dt : string) :
  is_processed d acc = true -> mark_processed d acc t dt = d.
Proof.
  unfold mark_processed, is_processed. intros ->. reflexivity.
Qed.

Lemma mark_many_noop (d : db) (acc : string) (args : list (string * string)) :
  is_processed d acc = true -> mark_many d acc args = d.
Proof.
  intros H. induction args as [|a args IH]; simpl.
  - reflexivity.
  - unfold mark_many in *. simpl. rewrite mark_processed_noop by exact H.
    exact IH.
Qed.

Lemma rows_absent (rows : list ProcessedFiling) (acc : string) :
  existsb (fun r => String.eqb (accession_number r) acc) rows = false ->
  filter (fun r => String.eqb (accession_number r) acc = true) rows = [].
Proof.
  induction rows as [|r rows IH]; simpl; intros H.
  - reflexivity.
  - apply orb_false_iff in H as [H1 H2].
    rewrite filter_cons. rewrite decide_False by (rewrite H1; discriminate).
    auto.
Qed.

Lemma absent_not_elem (rows : list ProcessedFiling) (acc : string) :
  existsb (fun r => String.eqb (accession_number r) acc) rows = false ->
  acc ∉ map accession_number rows.
Proof.
  induction rows as [|r rows IH]; simpl; intros H.
  - apply not_elem_of_nil.
  - apply orb_false_iff in H as [H1 H2].
    apply not_elem_of_cons. split; [|auto].
    intros ->. rewrite String.eqb_refl in H1. discriminate.
Qed.

Lemma rows_present_unique (rows : list ProcessedFiling) (acc : string) :
  NoDup (map accession_number rows) ->
  existsb (fun r => String.eqb (accession_number r) acc) rows = true ->
  length (filter (fun r => String.eqb (accession_number r) acc = true) rows)
  = 1%nat.
Proof.
  induction rows as [|r rows IH]; simpl; intros ND H.
  - discriminate.
  - apply NoDup_cons in ND as [Hnotin ND].
    rewrite filter_cons.
    destruct (String.eqb (accession_number r) acc) eqn:E.
    + rewrite decide_True by reflexivity. simpl. f_equal.
      apply String.eqb_eq in E. subst acc.
      destruct (existsb (fun r0 => String.eqb (accession_number r0)
                                     (accession_number r)) rows) eqn:E'.
      * exfalso. apply Hnotin.
        apply existsb_exists in E' as [x [Hin Hx]].
        apply String.eqb_eq in Hx. rewrite <- Hx.
        apply list_elem_of_In, in_map, Hin.
      * now rewrite rows_absent.
    + rewrite decide_False by discriminate. simpl in H. auto.
Qed.

Lemma pk_unique_mark (d : db) (acc t dt : string) :
  pk_unique d -> pk_unique (mark_processed d acc t dt).
Proof.
  unfold pk_unique, mark_processed. intros ND.
  destruct (existsb _ (processed_filings d)) eqn:E; simpl; [exact ND|].
  rewrite map_app. simpl. apply NoDup_app. repeat split.
  - exact ND.
  - intros x Hx Hx'. apply list_elem_of_singleton in Hx'. subst x.
    now apply (absent_not_elem _ _ E).
  - apply NoDup_singleton.
Qed.

(** C1. Any number of [mark_processed] calls for one accession (at least
    one, with arbitrary ticker and filing-date arguments) on a table that
    satisfies its primary-key constraint leaves exactly one row for that
    accession; every call after the first changes nothing, and
    [is_processed] answers true afterwards.  The constraint is preserved. *)
Theorem mark_processed_idempotent (d : db) (acc t0 d0 : string)
    (rest : list (string * string)) :
  pk_unique d ->
  let d1 := mark_processed d acc t0 d0 in
  let dn := mark_many d acc ((t0, d0) :: rest) in
  length (rows_for dn acc) = 1%nat
  /\ dn = d1
  /\ (forall t dt, mark_processed d1 acc t dt = d1)
  /\ is_processed dn acc = true
  /\ pk_unique dn.
Proof.
  intros ND d1 dn.
  assert (Hp : is_processed d1 acc = true) by apply is_processed_mark.
  assert (Hdn : dn = d1).
  { unfold dn, mark_many. simpl. apply (mark_many_noop _ _ _ Hp). }
  rewrite Hdn. repeat split.
  - unfold rows_for. apply rows_present_unique.
    + apply pk_unique_mark, ND.
    + exact Hp.
  - intros t dt. now apply mark_processed_noop.
  - exact Hp.
  - apply pk_unique_mark, ND.
Qed.

Lemma mark_processed_idempotent_witness :
  let d := mkDb [mkProcessedFiling "0000000000-24-007" "AMD" "2024-10-01"] [] in
  let dn := mark_many d "0001045810-24-001"
              [("NVDA", "2024-11-20"); ("NVDA", ""); ("X", "2024-11-22")] in
  length (rows_for dn "0001045810-24-001") = 1%nat
  /\ dn = mark_processed d "0001045810-24-001" "NVDA" "2024-11-20"
  /\ (forall t dt,
        mark_processed
          (mark_processed d "0001045810-24-001" "NVDA" "2024-11-20")
          "0001045810-24-001" t dt
        = mark_processed d "0001045810-24-001" "NVDA" "2024-11-20")
  /\ is_processed dn "0001045810-24-001" = true
  /\ pk_unique dn.
Proof.
  apply (mark_processed_idempotent
           (mkDb [mkProcessedFiling "0000000000-24-007" "AMD" "2024-10-01"] [])
           "0001045810-24-001" "NVDA" "2024-11-20"
           [("NVDA", ""); ("X", "2024-11-22")]).
  unfold pk_unique. simpl. apply NoDup_singleton.
Defined.

End StateManagerProps.

Module PollingEngineProps.
Import Py StateManager PollingEngine TaskOutcome.

(** A task whose extractor raises. *)
Definition extractor_raises : Collaborators unit unit :=
  mkCollaborators (fun _ => Ok (Some "Q3 revenue up 12%"))
                  (fun _ _ => Raise (RuntimeError "extraction failed"))
                  (fun _ _ => Ok tt)
                  (fun _ _ => Ok true).

(** A task whose notifier raises. *)
Definition notifier_raises : Collaborators unit unit :=
  mkCollaborators (fun _ => Ok (Some "Q3 revenue up 12%"))
                  (fun _ _ => Ok tt)
                  (fun _ _ => Ok tt)
                  (fun _ _ => Raise (AttributeError "report" "guidance")).

(** A task whose text fetch raises. *)
Definition fetch_raises : Collaborators unit unit :=
  mkCollaborators (fun _ => Raise (RuntimeError "network"))
                  (fun _ _ => Ok tt)
                  (fun _ _ => Ok tt)
                  (fun _ _ => Ok true).

Definition nvda_filing : Filing unit :=
  mkFiling (Some "0001045810-24-001") (Some "NVDA") (Some tt)
           (Some "2024-11-20").

Example fetch_raises_marks :
  run_task fetch_raises nvda_filing init_db
  = (Ok tt,
     mkDb [mkProcessedFiling "0001045810-24-001" "NVDA" "2024-11-20"] [],
     [Log INFO "Starting task"; Log INFO "NEW FILING FOUND";
      Log INFO "Fetching text"; GetFilingText;
      Log EXCEPTION "Failed to fetch filing text";
      Log WARNING "No content extracted.";
      MarkProcessed "0001045810-24-001" "NVDA" "2024-11-20";
      Log INFO "Processed"; Log INFO "Finished task"]).
Proof. reflexivity. Qed.

(** C2, as stated, fails: when the extractor raises, and likewise when the
    notifier raises, the task ends without [mark_processed]; the accession
    stays unprocessed. *)
Lemma process_filing_raise_not_marked :
  (let '(r, d', tr) := run_task extractor_raises nvda_filing init_db in
   r = Ok tt /\ d' = init_db
   /\ is_processed d' "0001045810-24-001" = false
   /\ ~ In (MarkProcessed "0001045810-24-001" "NVDA" "2024-11-20") tr)
  /\
  (let '(r, d', tr) := run_task notifier_raises nvda_filing init_db in
   r = Ok tt /\ d' = init_db
   /\ is_processed d' "0001045810-24-001" = false
   /\ ~ In (MarkProcessed "0001045810-24-001" "NVDA" "2024-11-20") tr).
Proof.
  split; vm_compute; repeat split; try reflexivity;
    intros H; repeat (destruct H as [H|H]; [discriminate H|]); exact H.
Qed.

Ltac run_monad :=
  unfold mbind, mret, M_bind, M_ret, emit, lift, read_db, write_db,
    try_except, try_finally; cbn.

(** C2, amended.  For a well-formed filing that is not yet processed, the
    task never raises and ends on its final log line.  The accession is
    marked processed, with the filing's date or the empty string, whenever
    no text is extracted (no payload, the text fetch raises, or the text is
    empty) and whenever extraction, report writing and notification all
    succeed.  When the extractor, the report writer or the notifier raises,
    the exception is logged and the database is left as it was. *)
Theorem process_filing_marking {Payload Report : Type}
    (C : Collaborators Payload Report) (filing : Filing Payload)
    (acc tk : string) (d : db) :
  f_accession_number filing = Some acc ->
  f_ticker filing = Some tk ->
  truthy_str acc = true ->
  truthy_str tk = true ->
  is_processed d acc = false ->
  let '(r, d', tr) := run_task C filing d in
  let date := default "" (f_filing_date filing) in
  let marked :=
    d' = mark_processed d acc tk date
    /\ In (MarkProcessed acc tk date) tr
    /\ is_processed d' acc = true in
  r = Ok tt
  /\ last tr = Some (Log INFO "Finished task")
  /\ match fetched_text C filing with
     | None => marked
     | Some text =>
         match extract_and_save C text tk acc with
         | Ok _ => marked
         | Raise _ =>
             d' = d /\ forall a t dt, ~ In (MarkProcessed a t dt) tr
         end
     end.
Proof.
  intros Hacc Htk Ta Tt Hnew.
  unfold run_task, _process_filing. rewrite Hacc, Htk, Ta, Tt. cbn [negb orb].
  unfold process_new_filing, _save_report, fetched_text, extract_and_save.
  run_monad. rewrite Hnew.
  assert (Hm : forall dt, is_processed (mark_processed d acc tk dt) acc = true)
    by (intros; apply StateManagerProps.is_processed_mark).
  destruct (f_filing_obj filing) as [obj|]; cbn.
  - destruct (get_filing_text C obj) as [[t|]|e]; cbn.
    + destruct (truthy_str t) eqn:Et; cbn.
      * destruct (extract_from_text C t tk) as [report|e]; cbn.
        -- destruct (write_report_file C report _) as [u|e]; cbn.
           ++ destruct (send_report_alert C report _) as [b|e]; cbn.
              ** destruct (f_filing_date filing); cbn;
                   repeat split; auto; cbn; tauto.
              ** repeat split; auto.
                 intros a x dt H.
                 repeat (destruct H as [H|H]; [discriminate H|]); exact H.
           ++ repeat split; auto.
              intros a x dt H.
              repeat (destruct H as [H|H]; [discriminate H|]); exact H.
        -- repeat split; auto.
           intros a x dt H.
           repeat (destruct H as [H|H]; [discriminate H|]); exact H.
      * destruct (f_filing_date filing); cbn; repeat split; auto; cbn; tauto.
    + destruct (f_filing_date filing); cbn; repeat split; auto; cbn; tauto.
    + destruct (f_filing_date filing); cbn; repeat split; auto; cbn; tauto.
  - destruct (f_filing_date filing); cbn; repeat split; auto; cbn; tauto.
Qed.

Lemma process_filing_marking_witness :
  let '(r, d', tr) := run_task fetch_raises nvda_filing init_db in
  let date := default "" (f_filing_date nvda_filing) in
  let marked :=
    d' = mark_processed init_db "0001045810-24-001" "NVDA" date
    /\ In (MarkProcessed "0001045810-24-001" "NVDA" date) tr
    /\ is_processed d' "0001045810-24-001" = true in
  r = Ok tt
  /\ last tr = Some (Log INFO "Finished task")
  /\ match fetched_text fetch_raises nvda_filing with
     | None => marked
     | Some text =>
         match extract_and_save fetch_raises text "NVDA" "0001045810-24-001" with
         | Ok _ => marked
         | Raise _ =>
             d' = init_db /\ forall a t dt, ~ In (MarkProcessed a t dt) tr
         end
     end.
Proof.
  apply (process_filing_marking fetch_raises nvda_filing
           "0001045810-24-001" "NVDA" init_db); reflexivity.
Defined.

Example job_error_logged_only :
  _log_scheduler_event (mkEngine ["NVDA"] 8)
    (mkJobEvent "polling_job" (Some "2024-11-20T10:05:00")
       (Some "RuntimeError('boom')") (Some "Traceback ..."))
    init_db []
  = (Ok tt, init_db, [Log ERROR "Scheduled job failed"]).
Proof. reflexivity. Qed.

Example misfire_raises :
  _log_scheduler_event (mkEngine ["NVDA"] 8)
    (mkJobEvent "polling_job" (Some "2024-11-20T10:05:00") None None)
    init_db []
  = (Raise (AttributeError "PollingEngine" "state"), init_db,
     [Log WARNING "Scheduled job missed its run time"]).
Proof. reflexivity. Qed.

(** C3 does not hold of the code.  The listener never appends a row to
    [scheduler_events]: for a job error it only logs, and for a missed run
    it raises [AttributeError], because a [PollingEngine] instance has no
    attribute [state]. *)
Theorem listener_never_records (self : Engine) (event : JobEvent)
    (d : db) (tr : list Event) :
  let '(r, d', tr') := _log_scheduler_event self event d tr in
  d' = d
  /\ ~ In (RecordSchedulerEvent "misfire") (skipn (length tr) tr')
  /\ match ev_exception event with
     | Some _ => r = Ok tt
     | None => r = Raise (AttributeError "PollingEngine" "state")
     end.
Proof.
  unfold _log_scheduler_event.
  destruct (ev_exception event); run_monad.
  - repeat split; auto. rewrite drop_app_length. cbn.
    intros [H|[]]; discriminate H.
  - repeat split; auto. rewrite drop_app_length. cbn.
    intros [H|[]]; discriminate H.
Qed.

End PollingEngineProps.

Module TimeSeriesProps.
Import Py MacroModels TimeSeriesPersistence.

Section Snapshots.
Context {L : Type}.
Implicit Types (tbl : list Row) (e : MacroEvent L).

Definition row_of tbl e : Row :=
  mkRow (S (length tbl)) (event_id e) (title e) (category e) (sector e)
        (related_ticker e) (probability_yes e) (volume_usd e) (source e)
        (timestamp e).

Lemma save_snapshot_eq tbl e :
  save_snapshot tbl e =
  if existsb (same_key (event_id e) (timestamp e)) tbl
  then (false, tbl) else (true, tbl ++ [row_of tbl e]).
Proof.
  unfold save_snapshot, insert_row. cbn.
  destruct (existsb _ tbl); reflexivity.
Qed.

Lemma same_key_row tbl e : same_key (event_id e) (timestamp e) (row_of tbl e) = true.
Proof.
  unfold same_key. cbn. now rewrite String.eqb_refl, Z.eqb_refl.
Qed.

Lemma same_key_other tbl e eid ts :
  same_key eid ts (row_of tbl e) = same_key (event_id e) (timestamp e) (row_of tbl e)
  -> eid = event_id e /\ ts = timestamp e.
Proof.
  rewrite same_key_row. unfold same_key. cbn.
  intros H. apply andb_true_iff in H as [H1 H2].
  apply String.eqb_eq in H1. apply Z.eqb_eq in H2. auto.
Qed.

Lemma rows_none tbl eid ts :
  existsb (same_key eid ts) tbl = false -> rows_with_key tbl eid ts = [].
Proof.
  unfold rows_with_key. induction tbl as [|r tbl IH]; cbn; intros H.
  - reflexivity.
  - apply orb_false_iff in H as [-> H]. auto.
Qed.

Lemma rows_some tbl eid ts :
  existsb (same_key eid ts) tbl = true ->
  (1 <= length (rows_with_key tbl eid ts))%nat.
Proof.
  unfold rows_with_key. induction tbl as [|r tbl IH]; cbn; intros H.
  - discriminate.
  - destruct (same_key eid ts r); cbn in *; [lia | auto].
Qed.

Lemma unique_save tbl e :
  unique_keys tbl -> unique_keys (snd (save_snapshot tbl e)).
Proof.
  intros U. rewrite save_snapshot_eq.
  destruct (existsb _ tbl) eqn:E; cbn; [exact U|].
  intros eid ts. unfold rows_with_key. rewrite List.filter_app, length_app. cbn.
  destruct (same_key eid ts (row_of tbl e)) eqn:K; cbn.
  - assert (eid = event_id e /\ ts = timestamp e) as [-> ->].
    { apply (same_key_other tbl). now rewrite same_key_row. }
    fold (rows_with_key tbl (event_id e) (timestamp e)).
    rewrite rows_none by exact E. cbn. lia.
  - specialize (U eid ts). unfold rows_with_key in U. lia.
Qed.

Lemma has_key_save tbl e eid ts :
  existsb (same_key eid ts) tbl = true ->
  existsb (same_key eid ts) (snd (save_snapshot tbl e)) = true.
Proof.
  intros H. rewrite save_snapshot_eq.
  destruct (existsb (same_key (event_id e) (timestamp e)) tbl); cbn.
  - exact H.
  - rewrite existsb_app, H. reflexivity.
Qed.

Lemma save_batch_cons tbl e (rest : list (MacroEvent L)) :
  save_batch tbl (e :: rest) =
  ((if fst (save_snapshot tbl e)
    then S (fst (save_batch (snd (save_snapshot tbl e)) rest))
    else fst (save_batch (snd (save_snapshot tbl e)) rest)),
   snd (save_batch (snd (save_snapshot tbl e)) rest)).
Proof.
  cbn [save_batch]. destruct (save_snapshot tbl e) as [ok t']. cbn [fst snd].
  destruct (save_batch t' rest) as [n t'']. reflexivity.
Qed.

Lemma batch_invariants (events : list (MacroEvent L)) : forall tbl eid ts,
  unique_keys tbl ->
  existsb (same_key eid ts) tbl = true ->
  unique_keys (snd (save_batch tbl events))
  /\ existsb (same_key eid ts) (snd (save_batch tbl events)) = true.
Proof.
  induction events as [|e rest IH]; intros tbl eid ts U H.
  - cbn. auto.
  - rewrite save_batch_cons. cbn [snd].
    apply IH; [apply unique_save, U | apply has_key_save, H].
Qed.

Lemma save_batch_length (events : list (MacroEvent L)) : forall tbl,
  length (snd (save_batch tbl events))
  = (length tbl + fst (save_batch tbl events))%nat.
Proof.
  induction events as [|e rest IH]; intros tbl.
  - cbn. lia.
  - rewrite save_batch_cons. cbn [fst snd]. rewrite IH.
    rewrite save_snapshot_eq.
    destruct (existsb _ tbl); cbn [fst snd]; [lia|].
    rewrite length_app. cbn. lia.
Qed.

End Snapshots.

Definition fed_event (vol : Q) : MacroEvent string :=
  mkMacroEvent "test_fed_rate_001" "Will Fed cut rates in March 2025?"
    (Some "Economics") None None (42 # 100) None (Some vol) None
    "polymarket" 1732100000000000.

Example save_twice :
  save_batch [] [fed_event 1500000%Q; fed_event 99%Q]
  = (1%nat,
     [mkRow 1 "test_fed_rate_001" "Will Fed cut rates in March 2025?"
        (Some "Economics") None None (42 # 100) (Some 1500000%Q) "polymarket"
        1732100000000000]).
Proof. reflexivity. Qed.

(** C5. On a table that satisfies [UNIQUE(event_id, timestamp)] and holds no
    row for an event's key, the first [save_snapshot] returns true; after it,
    and after any further saves, every call with the same key returns false
    and changes nothing, and exactly one row is stored under that key.
    [save_batch] returns the number of rows it added. *)
Theorem save_snapshot_unique {L : Type} (tbl : list Row) (e : MacroEvent L) :
  unique_keys tbl ->
  existsb (same_key (event_id e) (timestamp e)) tbl = false ->
  fst (save_snapshot tbl e) = true
  /\ (forall (others : list (MacroEvent L)) (e' : MacroEvent L),
        event_id e' = event_id e -> timestamp e' = timestamp e ->
        let t := snd (save_batch (snd (save_snapshot tbl e)) others) in
        save_snapshot t e' = (false, t)
        /\ length (rows_with_key t (event_id e) (timestamp e)) = 1%nat)
  /\ (forall (t : list Row) (events : list (MacroEvent L)),
        length (snd (save_batch t events))
        = (length t + fst (save_batch t events))%nat).
Proof.
  intros U Hnew. split; [|split].
  - rewrite save_snapshot_eq, Hnew. reflexivity.
  - intros others e' Hid Hts t.
    assert (H1 : existsb (same_key (event_id e) (timestamp e))
                   (snd (save_snapshot tbl e)) = true).
    { rewrite save_snapshot_eq, Hnew. cbn.
      rewrite existsb_app. cbn. rewrite same_key_row. now rewrite orb_true_r. }
    destruct (batch_invariants others (snd (save_snapshot tbl e))
                (event_id e) (timestamp e) (unique_save tbl e U) H1)
      as [U2 H2].
    fold t in U2, H2. split.
    + rewrite save_snapshot_eq, Hid, Hts, H2. reflexivity.
    + specialize (U2 (event_id e) (timestamp e)).
      pose proof (rows_some _ _ _ H2). lia.
  - intros t events. apply save_batch_length.
Qed.

Lemma save_snapshot_unique_witness :
  fst (save_snapshot [] (fed_event 1500000%Q)) = true
  /\ (forall (others : list (MacroEvent string)) (e' : MacroEvent string),
        event_id e' = "test_fed_rate_001" ->
        timestamp e' = 1732100000000000 ->
        let t := snd (save_batch (snd (save_snapshot [] (fed_event 1500000%Q))) others) in
        save_snapshot t e' = (false, t)
        /\ length (rows_with_key t "test_fed_rate_001" 1732100000000000) = 1%nat)
  /\ (forall (t : list Row) (events : list (MacroEvent string)),
        length (snd (save_batch t events))
        = (length t + fst (save_batch t events))%nat).
Proof.
  apply (save_snapshot_unique [] (fed_event 1500000%Q)).
  - intros eid ts. cbn. lia.
  - reflexivity.
Defined.

End TimeSeriesProps.

Module PyProps.
Import Py.

Section OrderByFacts.
Context {A : Type} (lt : A -> A -> bool).

Lemma insert_desc_below (r : A) (l : list A) :
  Forall (fun x => lt r x = true) l -> insert_desc lt r l = l ++ [r].
Proof.
  induction 1 as [|x l Hx Hl IH]; cbn.
  - reflexivity.
  - rewrite Hx, IH. reflexivity.
Qed.

(** Rows whose keys strictly increase come out reversed. *)
Lemma order_by_desc_increasing (l : list A) :
  StronglySorted (fun a b => lt a b = true) l ->
  order_by_desc lt l = rev l.
Proof.
  unfold order_by_desc. induction 1 as [|x l Hl IH Hx]; cbn.
  - reflexivity.
  - rewrite IH. apply insert_desc_below.
    apply List.Forall_forall. intros y Hy. apply in_rev in Hy.
    rewrite List.Forall_forall in Hx. now apply Hx.
Qed.

Lemma insert_desc_perm (r : A) (l : list A) :
  Permutation (insert_desc lt r l) (r :: l).
Proof.
  induction l as [|x l IH]; cbn.
  - reflexivity.
  - destruct (lt r x).
    + rewrite IH. apply perm_swap.
    + reflexivity.
Qed.

Lemma order_by_desc_perm (l : list A) : Permutation (order_by_desc lt l) l.
Proof.
  unfold order_by_desc. induction l as [|x l IH]; cbn.
  - reflexivity.
  - rewrite insert_desc_perm. now apply perm_skip.
Qed.

Lemma order_by_desc_length (l : list A) :
  length (order_by_desc lt l) = length l.
Proof. apply Permutation_length, order_by_desc_perm. Qed.

(** With a comparison that is transitive on its negation, the output is
    in descending order: no row is below a later one. *)
Hypothesis lt_false_trans :
  forall a b c, lt a b = false -> lt b c = false -> lt a c = false.
Hypothesis lt_asym : forall a b, lt a b = true -> lt b a = false.

Lemma insert_desc_sorted (r : A) (l : list A) :
  StronglySorted (fun a b => lt a b = false) l ->
  StronglySorted (fun a b => lt a b = false) (insert_desc lt r l).
Proof.
  induction 1 as [|x l Hl IH Hx]; cbn.
  - repeat constructor.
  - destruct (lt r x) eqn:E.
    + constructor; [exact IH|].
      apply List.Forall_forall. intros y Hy.
      apply (Permutation_in _ (insert_desc_perm r l)) in Hy.
      destruct Hy as [<-|Hy]; [now apply lt_asym|].
      rewrite List.Forall_forall in Hx. now apply Hx.
    + constructor; [now constructor|].
      constructor; [exact E|].
      apply List.Forall_forall. intros y Hy.
      rewrite List.Forall_forall in Hx. eapply lt_false_trans; eauto.
Qed.

Lemma order_by_desc_sorted (l : list A) :
  StronglySorted (fun a b => lt a b = false) (order_by_desc lt l).
Proof.
  unfold order_by_desc. induction l as [|x l IH]; cbn.
  - constructor.
  - now apply insert_desc_sorted.
Qed.

End OrderByFacts.

Lemma Forall2_filter_sync {A B : Type} (R : A -> B -> Prop)
    (f : A -> bool) (g : B -> bool) (l1 : list A) (l2 : list B) :
  Forall2 (fun a b => R a b /\ f a = g b) l1 l2 ->
  Forall2 R (List.filter f l1) (List.filter g l2).
Proof.
  induction 1 as [|a b l1 l2 [HR Hfg] H IH]; cbn.
  - constructor.
  - rewrite Hfg. destruct (g b); [constructor|]; auto.
Qed.

Lemma Forall2_last_sync {A B : Type} (R : A -> B -> Prop)
    (l1 : list A) (l2 : list B) :
  Forall2 R l1 l2 ->
  match last l1, last l2 with
  | Some a, Some b => R a b
  | None, None => True
  | _, _ => False
  end.
Proof.
  induction 1 as [|a b l1 l2 HR H IH]; cbn.
  - exact I.
  - destruct H as [|a' b' l1 l2 HR' H]; cbn in *; [exact HR|exact IH].
Qed.

Lemma head_rev {A : Type} (l : list A) : head (rev l) = last l.
Proof.
  induction l as [|x l IH]; cbn; [reflexivity|].
  rewrite last_cons, <- IH.
  destruct (rev l); reflexivity.
Qed.

Lemma StronglySorted_filter {A : Type} (R : A -> A -> Prop) (f : A -> bool)
    (l : list A) :
  StronglySorted R l -> StronglySorted R (List.filter f l).
Proof.
  induction 1 as [|x l Hl IH Hx]; cbn.
  - constructor.
  - destruct (f x); [|exact IH].
    constructor; [exact IH|].
    apply List.Forall_forall. intros y Hy.
    apply filter_In in Hy as [Hy _].
    rewrite List.Forall_forall in Hx. now apply Hx.
Qed.

Lemma find_over_app {A : Type} (f : A -> bool) (l1 l2 : list A) :
  List.find f (l1 ++ l2) =
  match List.find f l1 with Some x => Some x | None => List.find f l2 end.
Proof.
  induction l1 as [|x l1 IH]; cbn; [reflexivity|].
  destruct (f x); [reflexivity|exact IH].
Qed.

(** [same_ascii_case a b]: the two strings have the same length and agree
    character by character up to the case of the letters [A]-[Z] and
    [a]-[z]; any other character has to be the same in both. *)
Fixpoint same_ascii_case (a b : string) : bool :=
  match a, b with
  | EmptyString, EmptyString => true
  | String x a', String y b' =>
      Ascii.eqb (lower_ascii x) (lower_ascii y) && same_ascii_case a' b'
  | _, _ => false
  end.

Lemma same_ascii_case_cons (x y : ascii) (a b : string) :
  same_ascii_case (String x a) (String y b) = true ->
  lower_ascii x = lower_ascii y /\ same_ascii_case a b = true.
Proof.
  cbn. intros H. apply andb_true_iff in H as [Hc Hs].
  apply Ascii.eqb_eq in Hc. auto.
Qed.

Lemma same_ascii_case_lower (a b : string) :
  same_ascii_case a b = true -> lower a = lower b.
Proof.
  revert b. induction a as [|x a IH]; intros [|y b] H; try discriminate;
    [reflexivity|].
  apply same_ascii_case_cons in H as [Hc Hs]. cbn.
  now rewrite Hc, (IH b Hs).
Qed.

Lemma upper_lower_ascii (c : ascii) : upper_ascii (lower_ascii c) = upper_ascii c.
Proof. destruct c as [[] [] [] [] [] [] [] []]; reflexivity. Qed.

Lemma same_ascii_case_upper (a b : string) :
  same_ascii_case a b = true -> upper a = upper b.
Proof.
  revert b. induction a as [|x a IH]; intros [|y b] H; try discriminate;
    [reflexivity|].
  apply same_ascii_case_cons in H as [Hc Hs]. cbn.
  rewrite <- (upper_lower_ascii x), <- (upper_lower_ascii y), Hc.
  now rewrite (IH b Hs).
Qed.

End PyProps.

Module SignalStoreProps.
Import Py SignalStore PyProps.

Section Cache.
Context {Payload : Type}.
Implicit Types (st : store Payload) (s : Save Payload).

(** The (ticker, id) pairs of the entity table. *)
Definition keys st : list (string * nat) :=
  map (fun e => (ent_ticker e, ent_id e)) (entities st).

Definition id_in (ks : list (string * nat)) (tick : string) : option nat :=
  option_map snd (List.find (fun k => String.eqb (fst k) tick) ks).

Definition id_of st (tick : string) : option nat :=
  option_map ent_id (find_entity st tick).

Lemma id_of_keys st tick : id_of st tick = id_in (keys st) tick.
Proof.
  unfold id_of, id_in, find_entity, keys.
  induction (entities st) as [|e es IH]; cbn; [reflexivity|].
  destruct (String.eqb (ent_ticker e) tick); [reflexivity|exact IH].
Qed.

Definition entity_id_for st (tick : string) : nat :=
  match find_entity st tick with
  | Some e => ent_id e
  | None => S (length (entities st))
  end.

Lemma keys_save st s :
  keys (apply_save st s) =
  match find_entity st (s_ticker s) with
  | Some _ => keys st
  | None => keys st ++ [(s_ticker s, S (length (keys st)))]
  end.
Proof.
  unfold apply_save, save_signal, keys.
  destruct (find_entity st (s_ticker s)) as [e|]; cbn.
  - rewrite map_map. apply map_ext. intros a.
    destruct (Nat.eqb (ent_id a) (ent_id e)); reflexivity.
  - rewrite map_map, length_map, map_app. cbn. f_equal.
    + apply map_ext. intros a.
      destruct (Nat.eqb (ent_id a) _); reflexivity.
    + rewrite Nat.eqb_refl. reflexivity.
Qed.

Lemma signals_save st s :
  signals (apply_save st s) =
  signals st ++
  [mkScrapedSignal (S (length (signals st))) (entity_id_for st (s_ticker s))
     (s_provider s) (s_signal_value s) (s_payload s) (s_now_signal s)].
Proof.
  unfold apply_save, save_signal, entity_id_for.
  destruct (find_entity st (s_ticker s)); reflexivity.
Qed.

Lemma id_in_app_some ks extra tick i :
  id_in ks tick = Some i -> id_in (ks ++ extra) tick = Some i.
Proof.
  unfold id_in. intros H.
  destruct (List.find _ ks) as [k|] eqn:E; [|discriminate].
  now rewrite find_over_app, E.
Qed.

Lemma id_of_save_old st s tick i :
  id_of st tick = Some i -> id_of (apply_save st s) tick = Some i.
Proof.
  rewrite !id_of_keys, keys_save. intros H.
  destruct (find_entity st (s_ticker s)); [exact H|].
  now apply id_in_app_some.
Qed.

Lemma id_of_save_new st s :
  id_of (apply_save st s) (s_ticker s) = Some (entity_id_for st (s_ticker s)).
Proof.
  unfold entity_id_for.
  destruct (find_entity st (s_ticker s)) as [e|] eqn:E.
  - apply id_of_save_old. unfold id_of. now rewrite E.
  - rewrite id_of_keys, keys_save, E. unfold id_in.
    assert (Hn : List.find (fun k => String.eqb (fst k) (s_ticker s)) (keys st)
                 = None).
    { pose proof (id_of_keys st (s_ticker s)) as K.
      unfold id_of, id_in in K. rewrite E in K. cbn in K.
      destruct (List.find _ (keys st)); [discriminate|reflexivity]. }
    rewrite find_over_app, Hn. cbn. rewrite String.eqb_refl. cbn.
    unfold keys. now rewrite length_map.
Qed.

(** What links a save to the signal row it produced. *)
Definition stored st s (sg : ScrapedSignal Payload) : Prop :=
  id_of st (s_ticker s) = Some (sig_entity_id sg)
  /\ sig_provider sg = s_provider s
  /\ sig_raw_payload sg = s_payload s
  /\ sig_timestamp sg = s_now_signal s.

Definition Inv (hist : list (Save Payload)) st : Prop :=
  map snd (keys st) = seq 1 (length (keys st))
  /\ Forall2 (stored st) hist (signals st).

Lemma Inv_empty : Inv [] empty_store.
Proof. split; cbn; [reflexivity|constructor]. Qed.

Lemma Inv_save hist st s : Inv hist st -> Inv (hist ++ [s]) (apply_save st s).
Proof.
  intros [I1 I2]. split.
  - rewrite keys_save. destruct (find_entity st (s_ticker s)); [exact I1|].
    rewrite map_app, length_app, I1. cbn.
    rewrite Nat.add_1_r, seq_S. reflexivity.
  - rewrite signals_save. apply Forall2_app.
    + eapply Forall2_impl; [exact I2|].
      intros a b (H1 & H2 & H3 & H4). repeat split; auto.
      now apply id_of_save_old.
    + constructor; [|constructor].
      repeat split; cbn. apply id_of_save_new.
Qed.

Lemma Inv_run (hist : list (Save Payload)) : Inv hist (run_saves hist).
Proof.
  induction hist as [|s hist IH] using rev_ind.
  - apply Inv_empty.
  - unfold run_saves. rewrite fold_left_app. cbn. now apply Inv_save.
Qed.

Lemma keys_inj (ks : list (string * nat)) : forall start a b i,
  map snd ks = seq start (length ks) ->
  In (a, i) ks -> In (b, i) ks -> a = b.
Proof.
  induction ks as [|[t j] ks IH]; cbn; intros start a b i Hs Ha Hb.
  - contradiction.
  - injection Hs as Hj Hs'.
    assert (Hfresh : forall c, In (c, start) ks -> False).
    { intros c Hc. apply (in_map snd) in Hc. rewrite Hs' in Hc. cbn in Hc.
      apply in_seq in Hc. lia. }
    destruct Ha as [Ha|Ha], Hb as [Hb|Hb].
    + congruence.
    + injection Ha as -> ->. exfalso. rewrite Hj in Hb. eauto.
    + injection Hb as -> ->. exfalso. rewrite Hj in Ha. eauto.
    + eapply IH; eauto.
Qed.

Lemma id_in_found ks tick i : id_in ks tick = Some i -> In (tick, i) ks.
Proof.
  unfold id_in. destruct (List.find _ ks) as [[t j]|] eqn:E; [|discriminate].
  cbn. intros [= ->]. apply find_some in E as [Hin Heq]. cbn in Heq.
  apply String.eqb_eq in Heq. now subst t.
Qed.

Lemma id_of_inj st t1 t2 i :
  map snd (keys st) = seq 1 (length (keys st)) ->
  id_of st t1 = Some i -> id_of st t2 = Some i -> t1 = t2.
Proof.
  rewrite !id_of_keys. intros Hs H1 H2.
  eapply keys_inj; eauto using id_in_found.
Qed.

Lemma stored_sorted st (hist : list (Save Payload)) (sgs : list (ScrapedSignal Payload)) :
  Forall2 (stored st) hist sgs ->
  StronglySorted (fun a b => (s_now_signal a < s_now_signal b)%Z) hist ->
  StronglySorted
    (fun a b => (sig_timestamp a <? sig_timestamp b)%Z = true) sgs.
Proof.
  induction 1 as [|s sg hist sgs Hst H IH]; intros Hs.
  - constructor.
  - apply StronglySorted_inv in Hs as [Hs Hall].
    constructor; [now apply IH|].
    clear IH Hs. induction H as [|s' sg' hist sgs Hst' H IH]; constructor.
    + apply List.Forall_inv in Hall.
      destruct Hst as (_ & _ & _ & ->), Hst' as (_ & _ & _ & ->).
      now apply Z.ltb_lt.
    + apply IH. now apply List.Forall_inv_tail in Hall.
Qed.

Lemma no_entity_no_save st (hist : list (Save Payload))
    (sgs : list (ScrapedSignal Payload)) (tick provider : string) :
  Forall2 (stored st) hist sgs ->
  find_entity st tick = None ->
  List.filter (fun s : Save Payload =>
                 String.eqb (s_ticker s) tick
                 && String.eqb (s_provider s) provider) hist = [].
Proof.
  intros H E. induction H as [|s sg hist' sgs' Hst H IH]; cbn.
  - reflexivity.
  - destruct (String.eqb_spec (s_ticker s) tick) as [Heq|Hne]; cbn.
    + destruct Hst as (H1 & _). rewrite Heq in H1.
      unfold id_of in H1. rewrite E in H1. discriminate.
    + exact IH.
Qed.

End Cache.

Definition aapl_hist : list (Save string) :=
  [mkSave "AAPL" "hiring" "{jobs: 120}" 1%Q None 0 1;
   mkSave "AAPL" "shipping" "{teu: 7}" 2%Q (Some "Apple Inc.") 10 11;
   mkSave "AAPL" "hiring" "{jobs: 140}" 3%Q None 1000000 1000001].

Example ttl_fresh :
  get_latest_signal (run_saves aapl_hist) 1 (1000000 + 1800000000)
    "AAPL" "hiring" = Some "{jobs: 140}".
Proof. reflexivity. Qed.

Example ttl_expired :
  get_latest_signal (run_saves aapl_hist) 1 (1000000 + 7200000000)
    "AAPL" "hiring" = None.
Proof. reflexivity. Qed.

Example ttl_boundary :
  get_latest_signal (run_saves aapl_hist) 1 (1000000 + 3600000000)
    "AAPL" "hiring" = None.
Proof. reflexivity. Qed.

(** C4. After any history of [save_signal] calls on a fresh store whose
    clock readings strictly increase from one save to the next,
    [get_latest_signal] returns the payload of the most recently saved signal
    for the ticker and provider exactly when [now] minus its timestamp is
    strictly below the TTL, and [None] otherwise: no save for that ticker, no
    save for that provider, or an expired signal. *)
Theorem get_latest_signal_ttl {Payload : Type}
    (hist : list (Save Payload)) (ttl_hours now : Z)
    (tick provider : string) :
  StronglySorted (fun a b => (s_now_signal a < s_now_signal b)%Z) hist ->
  get_latest_signal (run_saves hist) ttl_hours now tick provider =
  match last_saved hist tick provider with
  | Some s =>
      if (now - s_now_signal s <? timedelta_hours ttl_hours)%Z
      then Some (s_payload s) else None
  | None => None
  end.
Proof.
  intros Hsorted.
  destruct (Inv_run hist) as [I1 I2].
  set (st := run_saves hist) in *.
  unfold get_latest_signal, last_saved.
  destruct (find_entity st tick) as [e|] eqn:E.
  - assert (Hid : id_of st tick = Some (ent_id e))
      by (unfold id_of; now rewrite E).
    set (fh := fun s : Save Payload => String.eqb (s_ticker s) tick
                               && String.eqb (s_provider s) provider).
    set (fs := fun sg : ScrapedSignal Payload =>
                 Nat.eqb (sig_entity_id sg) (ent_id e)
                 && String.eqb (sig_provider sg) provider).
    assert (Hsync : Forall2 (stored st) (List.filter fh hist)
                      (List.filter fs (signals st))).
    { apply Forall2_filter_sync. eapply Forall2_impl; [exact I2|].
      intros s sg Hst. split; [exact Hst|].
      destruct Hst as (H1 & H2 & _ & _). unfold fh, fs. rewrite H2. f_equal.
      destruct (String.eqb_spec (s_ticker s) tick) as [Heq|Hne].
      - rewrite Heq, Hid in H1. injection H1 as <-. symmetry.
        apply Nat.eqb_refl.
      - symmetry. apply Nat.eqb_neq. intros Heq. apply Hne.
        rewrite Heq in H1. eapply id_of_inj; eauto. }
    unfold signals_newest_first. fold fs.
    rewrite order_by_desc_increasing, head_rev.
    + pose proof (Forall2_last_sync _ _ _ Hsync) as Hl.
      destruct (last (List.filter fh hist)) as [s|],
               (last (List.filter fs (signals st))) as [sg|];
        try contradiction; [|reflexivity].
      destruct Hl as (_ & _ & -> & ->). reflexivity.
    + apply StronglySorted_filter. eapply stored_sorted; eauto.
  - rewrite (no_entity_no_save st hist (signals st) tick provider I2 E).
    reflexivity.
Qed.

Lemma get_latest_signal_ttl_witness :
  get_latest_signal (run_saves aapl_hist) 1 (1000000 + 1800000000)
    "AAPL" "hiring" =
  match last_saved aapl_hist "AAPL" "hiring" with
  | Some s =>
      if (1000000 + 1800000000 - s_now_signal s <? timedelta_hours 1)%Z
      then Some (s_payload s) else None
  | None => None
  end.
Proof.
  apply (get_latest_signal_ttl aapl_hist 1 (1000000 + 1800000000)
           "AAPL" "hiring").
  unfold aapl_hist.
  repeat (constructor; [|repeat (constructor; [cbn; lia|]); constructor]).
  constructor.
Defined.

End SignalStoreProps.

Module HybridResolverProps.
Import Py HybridResolver.

Section Aliases.
Context {B Vec : Type} (libs : Libs B Vec).

Lemma map_aliases_lookup (name : string) (aliases : list string) :
  forall (amap : gmap string string) (a c : string),
  map_aliases name aliases amap !! a = Some c ->
  c = name \/ amap !! a = Some c.
Proof.
  unfold map_aliases.
  induction aliases as [|x xs IH]; cbn; intros amap a c H.
  - now right.
  - apply IH in H as [H|H]; [now left|].
    destruct (decide (lower x = a)) as [Heq|Hne].
    + subst a. rewrite lookup_insert_eq in H. left. congruence.
    + rewrite lookup_insert_ne in H by exact Hne. now right.
Qed.

(** Every canonical name an alias points to has a ticker. *)
Definition aliases_closed (emap amap : gmap string string) : Prop :=
  forall a c, amap !! a = Some c -> is_Some (emap !! c).

Lemma load_entity_closed known emap amap (e : EntityDef) :
  aliases_closed emap amap ->
  aliases_closed (snd (fst (load_entity (known, emap, amap) e)))
                 (snd (load_entity (known, emap, amap) e)).
Proof.
  intros Hc a c. cbn. intros H.
  assert (Hcase : c = e_name e \/ amap !! a = Some c).
  { destruct (e_aliases e) as [als|]; [|now right].
    now apply map_aliases_lookup in H. }
  destruct Hcase as [->|H'].
  - rewrite lookup_insert_eq. eauto.
  - destruct (decide (e_name e = c)) as [->|Hne].
    + rewrite lookup_insert_eq. eauto.
    + rewrite lookup_insert_ne by exact Hne. eapply Hc, H'.
Qed.

Lemma fold_load_closed (entities : list EntityDef) :
  forall acc,
  aliases_closed (snd (fst acc)) (snd acc) ->
  aliases_closed (snd (fst (fold_left load_entity entities acc)))
                 (snd (fold_left load_entity entities acc)).
Proof.
  induction entities as [|e es IH]; cbn; intros acc H; [exact H|].
  apply IH. destruct acc as [[known emap] amap]. now apply load_entity_closed.
Qed.

Lemma load_entities_closed (r : Resolver B Vec) (entities : list EntityDef) :
  aliases_closed (entity_map (load_entities libs r entities))
                 (alias_map (load_entities libs r entities)).
Proof.
  unfold load_entities.
  pose proof (fold_load_closed entities ([], ∅, ∅)) as H.
  destruct (fold_left load_entity entities ([], ∅, ∅)) as [[known emap] amap].
  cbn in *. apply H. intros a c Hl. rewrite lookup_empty in Hl. discriminate.
Qed.

End Aliases.

(** A backend that scores every comparison as zero. *)
Definition flat_libs : Libs unit unit :=
  mkLibs (fun b _ => b) (fun _ _ => tt) (fun _ _ _ => [0%Q; 0%Q; 0%Q])
         (fun _ _ _ => []).

(** A backend that gives the first entity a perfect score. *)
Definition eager_libs : Libs unit unit :=
  mkLibs (fun b _ => b) (fun _ _ => tt) (fun _ _ _ => [1%Q; 0%Q; 0%Q])
         (fun _ _ _ => []).

Definition golden_entities : list EntityDef :=
  [mkEntityDef "Apple Inc." "AAPL" (Some ["Apple Computer"]);
   mkEntityDef "Foxconn" "2317.TW"
     (Some ["Hon Hai Precision Ind. Co."; "Hon Hai"]);
   mkEntityDef "SpaceX" "PRIVATE:SPACE" None].

Example golden_alias :
  resolve eager_libs (load_entities eager_libs (init tt) golden_entities)
    "Hon Hai Precision Ind. Co." 50
  = (Ok (Some (mkResolution "2317.TW" "Foxconn" 1 "alias_lookup")), []).
Proof. vm_compute. reflexivity. Qed.

Example golden_vector :
  resolve eager_libs (load_entities eager_libs (init tt) golden_entities)
    "Cupertino phone maker" 50
  = (Ok (Some (mkResolution "AAPL" "Apple Inc." 1 "pure_vector")),
     [FuzzyExtract "Cupertino phone maker"; Encode ["Cupertino phone maker"];
      Similarity]).
Proof. vm_compute. reflexivity. Qed.

(** A corpus whose alias carries a trailing blank. *)
Definition padded_entities : list EntityDef :=
  [mkEntityDef "Acme Corp" "ACME" (Some ["Acme Corporation "])].

(** C6, as stated, fails: the lowercased query is a key of the alias map,
    yet [resolve] misses the alias, consults the vector backend and, with
    low scores, answers [None]. *)
Lemma resolve_alias_padded_misses :
  let r := load_entities flat_libs (init tt) padded_entities in
  alias_map r !! lower "Acme Corporation " = Some "Acme Corp"
  /\ resolve flat_libs r "Acme Corporation " 50
     = (Ok None,
        [FuzzyExtract "Acme Corporation "; Encode ["Acme Corporation "];
         Similarity]).
Proof. vm_compute. split; reflexivity. Qed.

(** C6, amended.  For every corpus loaded with [load_entities], every
    backend and every query whose lowercased and then stripped form is a key
    of the alias map, [resolve] returns the aliased canonical name and its
    ticker with confidence 1 and method [alias_lookup] without calling the
    vector backend; the backend is called only when that lookup misses. *)
Theorem resolve_alias_precedence {B Vec : Type} (libs : Libs B Vec)
    (r0 : Resolver B Vec) (entities : list EntityDef)
    (query canonical : string) (fuzzy_threshold : Z) :
  let r := load_entities libs r0 entities in
  alias_map r !! strip (lower query) = Some canonical ->
  exists tick,
    entity_map r !! canonical = Some tick
    /\ resolve libs r query fuzzy_threshold
       = (Ok (Some (mkResolution tick canonical 1 "alias_lookup")), []).
Proof.
  intros r H. subst r.
  destruct (load_entities_closed libs r0 entities _ _ H) as [tick Ht].
  exists tick. split; [exact Ht|].
  unfold resolve, getitem. rewrite H, Ht. reflexivity.
Qed.

Lemma resolve_alias_precedence_witness :
  let r := load_entities eager_libs (init tt) golden_entities in
  exists tick,
    entity_map r !! "Foxconn" = Some tick
    /\ resolve eager_libs r "  HON HAI  " 50
       = (Ok (Some (mkResolution tick "Foxconn" 1 "alias_lookup")), []).
Proof.
  apply (resolve_alias_precedence eager_libs (init tt) golden_entities
           "  HON HAI  " "Foxconn" 50).
  vm_compute. reflexivity.
Defined.

(** The vector backend is reached only on an alias miss. *)
Lemma resolve_calls_imply_miss {B Vec : Type} (libs : Libs B Vec)
    (r : Resolver B Vec) (query : string) (fuzzy_threshold : Z) :
  snd (resolve libs r query fuzzy_threshold) <> [] ->
  alias_map r !! strip (lower query) = None.
Proof.
  unfold resolve, getitem.
  destruct (alias_map r !! strip (lower query)) as [c|]; [|reflexivity].
  destruct (entity_map r !! c); cbn; congruence.
Qed.

End HybridResolverProps.

Module MarketIndexProps.
Import Py MacroModels MarketIndex PyProps.

Lemma StronglySorted_firstn {A : Type} (R : A -> A -> Prop) (n : nat)
    (l : list A) :
  StronglySorted R l -> StronglySorted R (firstn n l).
Proof.
  intros H. revert n. induction H as [|x l Hl IH Hx]; intros [|n]; cbn;
    try constructor.
  - apply IH.
  - apply List.Forall_forall. intros y Hy.
    rewrite List.Forall_forall in Hx. apply Hx.
    rewrite <- (firstn_skipn n l). apply in_or_app. now left.
Qed.

Lemma StronglySorted_map {A B : Type} (R : A -> A -> Prop)
    (S : B -> B -> Prop) (f : A -> B) (l : list A) :
  (forall a b, R a b -> S (f a) (f b)) ->
  StronglySorted R l -> StronglySorted S (map f l).
Proof.
  intros HRS. induction 1 as [|x l Hl IH Hx]; cbn; constructor.
  - exact IH.
  - rewrite List.Forall_forall in *. intros y Hy.
    apply in_map_iff in Hy as [a [<- Ha]]. auto.
Qed.

Lemma sql_limit_length {A : Type} (n : Z) (l : list A) :
  (0 <= n)%Z -> (Z.of_nat (length (sql_limit n l)) <= n)%Z.
Proof.
  intros Hn. unfold sql_limit.
  destruct (Z.ltb_spec n 0); [lia|].
  rewrite length_firstn. lia.
Qed.

Lemma sql_limit_sorted {A : Type} (R : A -> A -> Prop) (n : Z) (l : list A) :
  StronglySorted R l -> StronglySorted R (sql_limit n l).
Proof.
  intros H. unfold sql_limit. destruct (n <? 0)%Z; [exact H|].
  now apply StronglySorted_firstn.
Qed.

Lemma volume_below_false (a b : MetaRow) :
  volume_below a b = false <-> (mr_volume_usd b <= mr_volume_usd a)%Q.
Proof.
  unfold volume_below. rewrite negb_false_iff. apply Qle_bool_iff.
Qed.

Lemma volume_below_true (a b : MetaRow) :
  volume_below a b = true <-> (mr_volume_usd a < mr_volume_usd b)%Q.
Proof.
  unfold volume_below. rewrite negb_true_iff. split; intros H.
  - apply Qnot_le_lt. intros Hle. apply Qle_bool_iff in Hle. congruence.
  - apply not_true_is_false. intros Hle. apply Qle_bool_iff in Hle.
    now apply Qle_not_lt in Hle.
Qed.

(** What both queries hand to [LIMIT]: rows in descending volume order. *)
Lemma result_rows_sorted (limit : Z) (rows : list MetaRow) :
  StronglySorted
    (fun a b : MarketMetadata => (mm_volume_usd b <= mm_volume_usd a)%Q)
    (map of_row (sql_limit limit (order_by_desc volume_below rows))).
Proof.
  apply StronglySorted_map
    with (R := fun a b : MetaRow => volume_below a b = false).
  - intros a b H. cbn. now apply volume_below_false.
  - apply sql_limit_sorted, order_by_desc_sorted.
    + intros a b c H1 H2. apply volume_below_false in H1, H2.
      apply volume_below_false. eapply Qle_trans; eauto.
    + intros a b H. apply volume_below_true in H.
      apply volume_below_false. now apply Qlt_le_weak.
Qed.

Lemma result_rows_length (limit : Z) (rows : list MetaRow) :
  (0 <= limit)%Z ->
  (Z.of_nat (length (map of_row (sql_limit limit (order_by_desc volume_below rows))))
   <= limit)%Z.
Proof. intros H. rewrite length_map. now apply sql_limit_length. Qed.

(** FTS5 stand-ins: one selects every row, one rejects every query. *)
Definition match_all : string -> option (FtsRow -> bool) :=
  fun _ => Some (fun _ => true).

Definition syntax_error : string -> option (FtsRow -> bool) :=
  fun _ => None.

Definition fed_b : MarketMetadata :=
  mkMarketMetadata "evt-b" "m-2" "Fed decision in March" None 10%Q None
    "Economics, Fed" None None.

Definition fed_a : MarketMetadata :=
  mkMarketMetadata "evt-a" "m-1" "Fed cuts rates" None 10%Q None
    "Economics, Fed" None None.

Definition fed_c : MarketMetadata :=
  mkMarketMetadata "evt-c" "m-3" "Will the fed pause?" None 25%Q None
    "Economics" None None.

Definition fed_index : index :=
  snd (upsert_markets empty_index [fed_b; fed_a; fed_c]).

Example search_fed_fts :
  map mm_event_id (search match_all fed_index "Fed" 20)
  = ["evt-c"; "evt-b"; "evt-a"].
Proof. reflexivity. Qed.

Example search_fed_like :
  map mm_event_id (_search_fallback fed_index "FED" 2) = ["evt-c"; "evt-b"].
Proof. reflexivity. Qed.

(** C7, as stated, fails: two matches with the same volume come out with
    the greater [event_id] first, on the full-text path and on the fallback
    path; and a negative limit does not bound the result. *)
Lemma search_ties_ignore_event_id :
  map (fun m => (mm_event_id m, mm_volume_usd m))
      (search match_all fed_index "Fed" 20)
  = [("evt-c", 25%Q); ("evt-b", 10%Q); ("evt-a", 10%Q)]
  /\ map (fun m => (mm_event_id m, mm_volume_usd m))
         (search syntax_error fed_index "Fed" 20)
     = [("evt-c", 25%Q); ("evt-b", 10%Q); ("evt-a", 10%Q)]
  /\ String.ltb "evt-a" "evt-b" = true
  /\ length (search match_all fed_index "Fed" (-1)) = 3%nat.
Proof. repeat split; reflexivity. Qed.

(** C7, amended.  For every query and every non-negative limit, [search]
    returns at most [limit] rows in descending order of [volume_usd], on the
    full-text path and on the substring fallback path, which is taken
    exactly when the query is not valid full-text syntax.  Neither query
    sorts on [event_id]. *)
Theorem search_limit_and_order (fts5_match : string -> option (FtsRow -> bool))
    (idx : index) (query : string) (limit : Z) :
  (0 <= limit)%Z ->
  let by_volume :=
    StronglySorted
      (fun a b : MarketMetadata => (mm_volume_usd b <= mm_volume_usd a)%Q) in
  (Z.of_nat (length (search fts5_match idx query limit)) <= limit)%Z
  /\ by_volume (search fts5_match idx query limit)
  /\ (Z.of_nat (length (_search_fallback idx query limit)) <= limit)%Z
  /\ by_volume (_search_fallback idx query limit)
  /\ (fts5_match query = None ->
      search fts5_match idx query limit = _search_fallback idx query limit).
Proof.
  intros Hl by_volume. unfold by_volume, search, _search_fallback.
  destruct (fts5_match query) as [selected|];
    repeat split;
    try apply result_rows_sorted;
    try (apply result_rows_length; exact Hl);
    intros; congruence.
Qed.

Lemma search_limit_and_order_witness :
  let by_volume :=
    StronglySorted
      (fun a b : MarketMetadata => (mm_volume_usd b <= mm_volume_usd a)%Q) in
  (Z.of_nat (length (search match_all fed_index "Fed" 2)) <= 2)%Z
  /\ by_volume (search match_all fed_index "Fed" 2)
  /\ (Z.of_nat (length (_search_fallback fed_index "Fed" 2)) <= 2)%Z
  /\ by_volume (_search_fallback fed_index "Fed" 2)
  /\ (match_all "Fed" = None ->
      search match_all fed_index "Fed" 2 = _search_fallback fed_index "Fed" 2).
Proof.
  apply (search_limit_and_order match_all fed_index "Fed" 2). lia.
Defined.

End MarketIndexProps.

Module PolymarketScraperProps.
Import Py MacroModels PolymarketScraper.

Section Loop.
Variable literal_eval_str : string -> option PyVal.
Variable float_of_str : string -> option Q.

Lemma append_outcomes_numeric (labels : list string) :
  forall (prices : list string) (qs : list Q)
         (acc : list (OutcomeEntry PyVal)),
  map float_of_str prices = map Some qs ->
  append_outcomes float_of_str (map PStr labels) (map PStr prices) acc
  = (acc ++ zip_with mkOutcomeEntry (map PStr labels) qs, None).
Proof.
  induction labels as [|l labels IH]; intros prices qs acc Hq; cbn.
  - now rewrite app_nil_r.
  - destruct prices as [|p prices], qs as [|q qs]; try discriminate; cbn.
    + now rewrite app_nil_r.
    + injection Hq as Hp Hq. rewrite Hp.
      rewrite (IH prices qs _ Hq), <- app_assoc. reflexivity.
Qed.

End Loop.

(** The double-quote character, and a double-quoted string literal. *)
Definition dq : string := String "034" EmptyString.

Definition quoted (s : string) : string := dq +:+ s +:+ dq.

Definition json_list (a b : string) : string :=
  "[" +:+ quoted a +:+ ", " +:+ quoted b +:+ "]".

Definition market_with_prices (p1 p2 : string) : gmap string PyVal :=
  list_to_map
    [("id", PStr "517311"); ("question", PStr "Will the Fed cut rates?");
     ("outcomes", PStr (json_list "Yes" "No"));
     ("outcomePrices", PStr (json_list p1 p2));
     ("volume", PStr "1500000.5")].

Example yes_no_scenario :
  _parse_single_market string_list_literal decimal_float
    (market_with_prices "0.42" "0.58") 1732100000000000
  = mkMacroEvent "517311" "Will the Fed cut rates?" None None None (42 # 100)
      (Some [mkOutcomeEntry (PStr "Yes") (42 # 100);
             mkOutcomeEntry (PStr "No") (58 # 100)])
      (Some (15000005 # 10)) None "polymarket" 1732100000000000.
Proof. vm_compute. reflexivity. Qed.

Example unparsable_outcomes :
  _parse_single_market string_list_literal decimal_float
    (<["outcomes" := PStr "[Yes, No"]> (market_with_prices "0.42" "0.58"))
    1732100000000000
  = mkMacroEvent "517311" "Will the Fed cut rates?" None None None (1 # 2)
      (Some []) (Some (15000005 # 10)) None "polymarket" 1732100000000000.
Proof. vm_compute. reflexivity. Qed.

(** C8, as stated, fails: both fields parse as non-empty lists of strings,
    yet a first price above 1 is rejected by the event's own validation and
    the shell event comes back, with no outcomes and probability 0; and a
    price that is not a numeral leaves no outcome entry and probability
    0.5. *)
Lemma parse_market_price_rejected :
  string_list_literal (json_list "Yes" "No") = Some (PList [PStr "Yes"; PStr "No"])
  /\ string_list_literal (json_list "1.5" "0.58")
     = Some (PList [PStr "1.5"; PStr "0.58"])
  /\ decimal_float "1.5" = Some (15 # 10)
  /\ _parse_single_market string_list_literal decimal_float
       (market_with_prices "1.5" "0.58") 1732100000000000
     = shell_event 1732100000000000
  /\ probability_yes (shell_event 1732100000000000) = 0%Q
  /\ outcomes (shell_event 1732100000000000) = None
  /\ (let e := _parse_single_market string_list_literal decimal_float
                 (market_with_prices "n/a" "0.58") 1732100000000000 in
      probability_yes e = (1 # 2) /\ outcomes e = Some []).
Proof. vm_compute. repeat split; reflexivity. Qed.

(** C8, amended.  When [outcomes] and [outcomePrices] parse as lists of
    strings, the labels are non-empty, every price is a numeral and the
    first price lies in [0, 1] (and [id], [question] and [volume] are as the
    API sends them), the event has one outcome entry per (label, price)
    pair, paired by position, and [probability_yes] is the value of the
    first price.  When either field fails to parse, [probability_yes] is
    0.5 and there is no outcome entry. *)
Theorem parse_single_market_outcomes
    (literal_eval_str : string -> option PyVal)
    (float_of_str : string -> option Q)
    (market : gmap string PyVal) (now : Z)
    (so sp : string) (labels prices : list string) (qs : list Q) (q0 : Q) :
  plain_fields float_of_str market ->
  market !! "outcomes" = Some (PStr so) ->
  literal_eval_str so = Some (PList (map PStr labels)) ->
  market !! "outcomePrices" = Some (PStr sp) ->
  literal_eval_str sp = Some (PList (map PStr prices)) ->
  labels <> [] ->
  map float_of_str prices = map Some qs ->
  head qs = Some q0 ->
  probability_in_range q0 = true ->
  (let e := _parse_single_market literal_eval_str float_of_str market now in
   outcomes e = Some (zip_with mkOutcomeEntry (map PStr labels) qs)
   /\ length (default [] (outcomes e)) = Nat.min (length labels) (length prices)
   /\ probability_yes e = q0)
  /\ (forall market' : gmap string PyVal,
        plain_fields float_of_str market' ->
        (exists x, literal_eval literal_eval_str
                     (dict_get market' "outcomes" (PStr "[]")) = Raise x)
        \/ (exists x, literal_eval literal_eval_str
                        (dict_get market' "outcomePrices" (PStr "[]")) = Raise x) ->
        let e := _parse_single_market literal_eval_str float_of_str market' now in
        probability_yes e = (1 # 2) /\ outcomes e = Some []).
Proof.
  intros Hplain Ho Hlo Hp Hlp Hne Hq Hhead Hrange. split.
  - destruct Hplain as ([i Hi] & [t Ht] & [vol Hvol]). cbn in Hvol.
    assert (Hlen : length prices = length qs).
    { apply (f_equal (@length _)) in Hq. now rewrite !length_map in Hq. }
    destruct qs as [|q qs']; [discriminate|]. injection Hhead as ->.
    destruct prices as [|p prices']; [discriminate|].
    destruct labels as [|l labels']; [congruence|].
    assert (Hp0 : float_of_str p = Some q0) by (cbn in Hq; congruence).
    unfold _parse_single_market, parse_outcomes, dict_get.
    rewrite Ho, Hp. cbn [from_option id literal_eval]. rewrite Hlo, Hlp.
    cbn [truthy map andb iter first_item].
    pose proof (append_outcomes_numeric float_of_str (l :: labels')
                  (p :: prices') (q0 :: qs') [] Hq) as Hloop.
    cbn [map] in Hloop. rewrite Hloop.
    cbn [app float]. rewrite Hp0.
    unfold dict_get in Hi, Ht, Hvol. rewrite Hvol.
    unfold new_MacroEvent. rewrite Hi, Ht, Hrange. cbn [outcomes probability_yes].
    repeat split.
    cbn [from_option id]. rewrite length_zip_with.
    cbn [length map]. rewrite ?length_map. cbn [length] in Hlen. lia.
  - intros market' ([i Hi] & [t Ht] & [vol Hvol]) Hfail e. subst e.
    cbn in Hvol.
    assert (Hpo : parse_outcomes literal_eval_str float_of_str market'
                  = ([], 1 # 2)).
    { unfold parse_outcomes.
      destruct Hfail as [[x Hx]|[x Hx]].
      - now rewrite Hx.
      - rewrite Hx.
        destruct (literal_eval literal_eval_str
                    (dict_get market' "outcomes" (PStr "[]"))); reflexivity. }
    unfold _parse_single_market. rewrite Hpo, Hvol.
    unfold new_MacroEvent. rewrite Hi, Ht. cbn. split; reflexivity.
Qed.

Lemma parse_single_market_outcomes_witness :
  (let e := _parse_single_market string_list_literal decimal_float
              (market_with_prices "0.42" "0.58") 1732100000000000 in
   outcomes e = Some [mkOutcomeEntry (PStr "Yes") (42 # 100);
                      mkOutcomeEntry (PStr "No") (58 # 100)]
   /\ length (default [] (outcomes e)) = 2%nat
   /\ probability_yes e = (42 # 100))
  /\ (forall market' : gmap string PyVal,
        plain_fields decimal_float market' ->
        (exists x, literal_eval string_list_literal
                     (dict_get market' "outcomes" (PStr "[]")) = Raise x)
        \/ (exists x, literal_eval string_list_literal
                        (dict_get market' "outcomePrices" (PStr "[]")) = Raise x) ->
        let e := _parse_single_market string_list_literal decimal_float
                   market' 1732100000000000 in
        probability_yes e = (1 # 2) /\ outcomes e = Some []).
Proof.
  apply (parse_single_market_outcomes string_list_literal decimal_float
           (market_with_prices "0.42" "0.58") 1732100000000000
           (json_list "Yes" "No") (json_list "0.42" "0.58")
           ["Yes"; "No"] ["0.42"; "0.58"] [42 # 100; 58 # 100] (42 # 100)).
  - repeat split; eexists; vm_compute; reflexivity.
  - vm_compute. reflexivity.
  - vm_compute. reflexivity.
  - vm_compute. reflexivity.
  - vm_compute. reflexivity.
  - discriminate.
  - vm_compute. reflexivity.
  - reflexivity.
  - reflexivity.
Defined.

End PolymarketScraperProps.

Module RunPollerProps.
Import Py RunPoller.

(** A key that no declared option writes stays out of the namespace, and
    a key that is in stays in. *)
Definition keeps (k present : string) (st : ParseState) : Prop :=
  ps_namespace st !! k = None /\ is_Some (ps_namespace st !! present).

Lemma keeps_take k p st tok : keeps k p st -> keeps k p (take_positional st tok).
Proof. unfold keeps, take_positional. now destruct (ps_closed st). Qed.

Lemma keeps_fold_take k p (toks : list string) :
  forall st, keeps k p st -> keeps k p (fold_left take_positional toks st).
Proof.
  induction toks as [|t toks IH]; cbn; intros st H; [exact H|].
  now apply IH, keeps_take.
Qed.

Lemma keeps_set k p st dest v :
  dest <> k -> keeps k p st -> keeps k p (set_dest st dest v).
Proof.
  unfold keeps, set_dest. cbn. intros Hne [H1 H2]. split.
  - now rewrite lookup_insert_ne.
  - destruct (decide (dest = p)) as [->|Hp].
    + rewrite lookup_insert_eq. eauto.
    + now rewrite lookup_insert_ne.
Qed.

Lemma find_option_in (opts : list OptSpec) (name : string) (o : OptSpec) :
  find_option opts name = Found o -> In o opts.
Proof.
  unfold find_option.
  destruct (List.filter (fun o => String.eqb (opt_flag o) name) opts)
    as [|o1 l1] eqn:E1.
  - destruct (List.filter (fun o => String.prefix name (opt_flag o)) opts)
      as [|o2 [|o3 l2]] eqn:E2; try discriminate.
    intros [= <-].
    assert (Hin : In o2 (List.filter (fun o => String.prefix name (opt_flag o)) opts))
      by (rewrite E2; now left).
    now apply filter_In in Hin.
  - intros [= <-].
    assert (Hin : In o1 (List.filter (fun o => String.eqb (opt_flag o) name) opts))
      by (rewrite E1; now left).
    now apply filter_In in Hin.
Qed.

Lemma parse_loop_keeps (opts : list OptSpec) (k p : string) :
  (forall o, In o opts -> opt_dest o <> k) ->
  forall (n : nat) (argv : list string) (st st' : ParseState),
  (length argv <= n)%nat ->
  keeps k p st ->
  parse_loop opts st argv = inr st' ->
  keeps k p st'.
Proof.
  intros Hdest. induction n as [|n IH]; intros argv st st' Hlen Hk Hrun.
  - destruct argv; [|cbn in Hlen; lia]. cbn in Hrun. congruence.
  - destruct argv as [|tok rest]; [cbn in Hrun; congruence|].
    cbn in Hlen. cbn [parse_loop] in Hrun.
    destruct (String.eqb tok "--").
    { injection Hrun as <-. now apply keeps_fold_take. }
    destruct (is_option_string tok).
    2:{ eapply (IH rest); [lia| |exact Hrun]. now apply keeps_take. }
    assert (Hc : keeps k p (close_positionals st)) by exact Hk.
    destruct (split_eq tok) as [name explicit].
    destruct (String.eqb tok "-h"); [cbn in Hrun; discriminate|].
    destruct (if String.prefix "--" tok then find_option opts name else Unknown)
      as [o| |] eqn:Ef.
    + assert (Ho : In o opts).
      { destruct (String.prefix "--" tok); [|discriminate].
        now apply find_option_in in Ef. }
      apply Hdest in Ho.
      destruct (opt_action o) as [ty| |].
      * destruct explicit as [v|].
        -- destruct (convert ty v); [|discriminate].
           eapply (IH rest); [lia| |exact Hrun]. now apply keeps_set.
        -- destruct rest as [|v rest']; [discriminate|].
           destruct (is_option_string v || String.eqb v "--"); [discriminate|].
           destruct (convert ty v); [|discriminate].
           eapply (IH rest'); [cbn in Hlen; lia| |exact Hrun].
           now apply keeps_set.
      * destruct explicit; [discriminate|].
        eapply (IH rest); [lia| |exact Hrun]. now apply keeps_set.
      * discriminate.
    + discriminate.
    + eapply (IH rest); [lia| |exact Hrun]. exact Hc.
Qed.

Lemma parse_args_namespace (env : option string) (argv : list string)
    (args : gmap string ArgValue) :
  parse_args env argv = inr args ->
  args !! "log_format" = None /\ is_Some (args !! "log_level").
Proof.
  unfold parse_args.
  destruct (parse_loop _ _ argv) as [code|st] eqn:E; [discriminate|].
  assert (Hk : keeps "log_format" "log_level" st).
  { eapply (parse_loop_keeps (parser_options env) "log_format" "log_level"
              _ (length argv) argv); [lia| |exact E].
    split; cbn; [reflexivity|eauto]. }
  destruct Hk as [H1 H2].
  destruct (ps_tickers st) as [|t ts]; [discriminate|].
  destruct (ps_extras st); [|discriminate].
  intros [= <-]. split.
  - now rewrite lookup_insert_ne.
  - now rewrite lookup_insert_ne.
  Unshelve.
  intros o Ho. cbn in Ho.
  repeat (destruct Ho as [<-|Ho]; [discriminate|]). contradiction.
Qed.

Example help_exits_zero :
  main (fun _ => true) None ["NVDA"; "--help"] = Exit 0.
Proof. vm_compute. reflexivity. Qed.

Example no_ticker_exits_two :
  main (fun _ => true) None ["--interval"; "10"] = Exit 2.
Proof. vm_compute. reflexivity. Qed.

(** C9 does not hold of the code.  On every command line and in every
    environment, [main] ends in [SystemExit] with code 0 or 2 raised by the
    argument parser, or in an unhandled [AttributeError] for
    [args.log_format]; it never reaches [start_scheduled] or [start_loop].
    [--misfire-grace-seconds] is not a declared option, so a command line
    carrying it is rejected with code 2 whatever its value, and one without
    it dies on the missing attribute.  Had the value arrived,
    [start_scheduled] would answer a non-positive one with [ValueError],
    which [main] does not handle either. *)
Theorem main_never_starts (cron_ok : string -> bool) (env : option string)
    (argv : list string) :
  (main cron_ok env argv = Exit 0
   \/ main cron_ok env argv = Exit 2
   \/ main cron_ok env argv
      = Unhandled (AttributeError "Namespace" "log_format"))
  /\ main cron_ok env ["--misfire-grace-seconds"; "30"; "NVDA"] = Exit 2
  /\ main cron_ok env ["--misfire-grace-seconds"; "0"; "NVDA"] = Exit 2
  /\ main cron_ok env ["NVDA"]
     = Unhandled (AttributeError "Namespace" "log_format")
  /\ start_scheduled cron_ok None 5 (Some 0)
     = Raise (ValueError "misfire_grace_seconds must be positive")
  /\ start_scheduled cron_ok None 5 (Some 30)
     = Ok (StartScheduled None 5 (Some 30)).
Proof.
  split; [|repeat split; destruct env; vm_compute; reflexivity].
  unfold main.
  destruct (parse_args env argv) as [code|args] eqn:E.
  - unfold parse_args in E.
    assert (Hcode : forall n argv st c,
              (length argv <= n)%nat ->
              parse_loop (parser_options env) st argv = inl c ->
              c = 0 \/ c = 2).
    { clear. induction n as [|n IH]; intros argv st c Hlen Hrun.
      - destruct argv; [cbn in Hrun; discriminate|cbn in Hlen; lia].
      - destruct argv as [|tok rest]; [cbn in Hrun; discriminate|].
        cbn in Hlen. cbn [parse_loop] in Hrun.
        destruct (String.eqb tok "--"); [discriminate|].
        destruct (is_option_string tok);
          [|eapply (IH rest); [lia|exact Hrun]].
        destruct (split_eq tok) as [name explicit].
        destruct (if String.eqb tok "-h" then _ else _) as [o| |].
        + destruct (opt_action o) as [ty| |].
          * destruct explicit as [v|].
            -- destruct (convert ty v);
                 [eapply (IH rest); [lia|exact Hrun]|].
               injection Hrun as <-. now right.
            -- destruct rest as [|v rest'];
                 [injection Hrun as <-; now right|].
               destruct (is_option_string v || String.eqb v "--");
                 [injection Hrun as <-; now right|].
               destruct (convert ty v);
                 [eapply (IH rest'); [cbn in Hlen; lia|exact Hrun]|].
               injection Hrun as <-. now right.
          * destruct explicit; [injection Hrun as <-; now right|].
            eapply (IH rest); [lia|exact Hrun].
          * injection Hrun as <-. now left.
        + injection Hrun as <-. now right.
        + eapply (IH rest); [lia|exact Hrun]. }
    destruct (parse_loop _ _ argv) as [c|st] eqn:El.
    + injection E as <-.
      destruct (Hcode (length argv) argv _ c (Nat.le_refl _) El) as [->| ->];
        auto.
    + destruct (ps_tickers st), (ps_extras st); try discriminate;
        injection E as <-; auto.
  - right. right.
    destruct (parse_args_namespace env argv args E) as [Hf [lvl Hl]].
    unfold run, getattr. rewrite Hl, Hf. reflexivity.
Qed.

End RunPollerProps.

(* ===================================================================== *)
(** * Part III. Further properties of the same code *)
(* ===================================================================== *)

Module StateStoreFacts.
Import StateManager.

Lemma mark_processed_count (d : db) (acc t dt : string) :
  get_processed_count (mark_processed d acc t dt)
  = (get_processed_count d + (if is_processed d acc then 0 else 1))%nat
  /\ scheduler_events (mark_processed d acc t dt) = scheduler_events d.
Proof.
  unfold get_processed_count, mark_processed, is_processed.
  destruct (existsb _ (processed_filings d)); cbn.
  - split; [lia|reflexivity].
  - split; [now rewrite length_app|reflexivity].
Qed.

(** X1. [mark_processed] only ever adds: the processed count grows by one
    when the accession is new and stays put otherwise, every accession
    that was processed stays processed, the rows already stored are kept as
    they are, and the scheduler log is untouched. *)
Theorem mark_processed_monotone (d : db) (acc t dt : string) :
  get_processed_count (mark_processed d acc t dt)
  = (get_processed_count d + (if is_processed d acc then 0 else 1))%nat
  /\ (forall a, is_processed d a = true ->
                is_processed (mark_processed d acc t dt) a = true)
  /\ (exists added, processed_filings (mark_processed d acc t dt)
                    = processed_filings d ++ added)
  /\ scheduler_events (mark_processed d acc t dt) = scheduler_events d.
Proof.
  destruct (mark_processed_count d acc t dt) as [Hc Hs].
  split; [exact Hc|]. split; [|split; [|exact Hs]].
  - unfold mark_processed, is_processed. intros a Ha.
    destruct (existsb (fun r => String.eqb (accession_number r) acc)
                (processed_filings d)); cbn; [exact Ha|].
    rewrite existsb_app, Ha. reflexivity.
  - unfold mark_processed.
    destruct (existsb _ (processed_filings d)); cbn; [|eauto].
    exists []. now rewrite app_nil_r.
Qed.

(** A run of [record_scheduler_event] calls. *)
Definition record_all (d : db)
    (calls : list (string * option string * option string
                   * option string * option string)) : db :=
  fold_left
    (fun acc '(etype, job, run_time, exc, tb) =>
       record_scheduler_event acc etype job run_time exc tb)
    calls d.

Definition sequential_ids (d : db) : Prop :=
  map id (scheduler_events d) = seq 1 (length (scheduler_events d)).

Lemma record_scheduler_event_ids (d : db) etype job run_time exc tb :
  sequential_ids d ->
  sequential_ids (record_scheduler_event d etype job run_time exc tb).
Proof.
  unfold sequential_ids, record_scheduler_event. cbn. intros H.
  rewrite map_app, length_app, H. cbn.
  rewrite Nat.add_1_r, seq_S. reflexivity.
Qed.

(** X2. The scheduler log is append-only with ids in sequence: after any
    run of [record_scheduler_event] calls on a log numbered 1..n, the old
    rows are still there in front, one row was added per call in call
    order, the ids are 1..n+k without repeats, and [processed_filings] is
    unchanged. *)
Theorem scheduler_log_append_only (d : db)
    (calls : list (string * option string * option string
                   * option string * option string)) :
  sequential_ids d ->
  let d' := record_all d calls in
  sequential_ids d'
  /\ NoDup (map id (scheduler_events d'))
  /\ (exists added,
        scheduler_events d' = scheduler_events d ++ added
        /\ map event_type added = map (fun c => fst (fst (fst (fst c)))) calls)
  /\ processed_filings d' = processed_filings d.
Proof.
  revert d. induction calls as [|[[[[etype job] run_time] exc] tb] calls IH];
    intros d Hs; cbn.
  - repeat split; auto.
    + rewrite Hs. apply NoDup_seq.
    + exists []. now rewrite app_nil_r.
  - specialize (IH (record_scheduler_event d etype job run_time exc tb)
                   (record_scheduler_event_ids d etype job run_time exc tb Hs)).
    cbn in IH. destruct IH as (H1 & H2 & [added [H3 H4]] & H5).
    repeat split; auto.
    eexists (_ :: added). split.
    + unfold record_all in *. cbn. rewrite H3.
      unfold record_scheduler_event. cbn. rewrite <- app_assoc. reflexivity.
    + cbn. now rewrite H4.
Qed.

Lemma scheduler_log_append_only_witness :
  let d' := record_all init_db
              [("misfire", Some "polling_job", Some "2024-11-20T10:05:00", None, None);
               ("error", Some "polling_job", None, Some "boom", Some "tb")] in
  sequential_ids d'
  /\ NoDup (map id (scheduler_events d'))
  /\ (exists added,
        scheduler_events d' = scheduler_events init_db ++ added
        /\ map event_type added = ["misfire"; "error"])
  /\ processed_filings d' = processed_filings init_db.
Proof.
  apply (scheduler_log_append_only init_db
           [("misfire", Some "polling_job", Some "2024-11-20T10:05:00", None, None);
            ("error", Some "polling_job", None, Some "boom", Some "tb")]).
  reflexivity.
Defined.

End StateStoreFacts.

Module TaskFacts.
Import Py StateManager PollingEngine.

(** Events that reach a collaborator or the database. *)
Definition is_effect (e : Event) : bool :=
  match e with
  | Log _ _ => false
  | _ => true
  end.

Definition is_extraction (e : Event) : bool :=
  match e with
  | ExtractFromText _ _ => true
  | _ => false
  end.

Section TaskShape.
Context {Payload Report : Type}.
Variable C : Collaborators Payload Report.

Lemma run_task_processed (filing : Filing Payload) (acc tk : string) (d : db) :
  f_accession_number filing = Some acc ->
  f_ticker filing = Some tk ->
  truthy_str acc = true ->
  truthy_str tk = true ->
  is_processed d acc = true ->
  run_task C filing d
  = (Ok tt, d,
     [Log INFO "Starting task"; Log INFO "Skipping (Already processed)";
      Log INFO "Finished task"]).
Proof.
  intros Hacc Htk Ta Tt Hp.
  unfold run_task, _process_filing. rewrite Hacc, Htk, Ta, Tt. cbn [negb orb].
  PollingEngineProps.run_monad. rewrite Hp. reflexivity.
Qed.

(** The possible outcomes of one task. *)
Lemma run_task_shape (filing : Filing Payload) (d : db) :
  let '(r, d', tr) := run_task C filing d in
  r = Ok tt
  /\ (d' = d
      \/ exists acc tk dt,
           f_accession_number filing = Some acc
           /\ f_ticker filing = Some tk
           /\ d' = mark_processed d acc tk dt)
  /\ (length (List.filter is_extraction tr) <= 1)%nat.
Proof.
  unfold run_task, _process_filing.
  destruct (f_accession_number filing) as [acc|] eqn:Ea;
    [|cbn; repeat split; auto].
  destruct (f_ticker filing) as [tk|] eqn:Et;
    [|cbn; repeat split; auto].
  destruct (negb (truthy_str acc) || negb (truthy_str tk));
    [cbn; repeat split; auto|].
  unfold process_new_filing, _save_report.
  PollingEngineProps.run_monad.
  destruct (is_processed d acc); [cbn; repeat split; auto|].
  assert (Hdone : forall dt,
            mark_processed d acc tk dt = d
            \/ exists a t x, Some acc = Some a /\ Some tk = Some t
                             /\ mark_processed d acc tk dt = mark_processed d a t x)
    by (intros dt; right; eauto 6).
  destruct (f_filing_obj filing) as [obj|]; cbn.
  - destruct (get_filing_text C obj) as [[t|]|e]; cbn.
    + destruct (truthy_str t); cbn.
      * destruct (extract_from_text C t tk) as [report|e]; cbn;
          [|repeat split; auto].
        destruct (write_report_file C report _) as [u|e]; cbn;
          [|repeat split; auto].
        destruct (send_report_alert C report _) as [b|e]; cbn;
          [|repeat split; auto].
        destruct (f_filing_date filing); cbn; repeat split; auto.
      * destruct (f_filing_date filing); cbn; repeat split; auto.
    + destruct (f_filing_date filing); cbn; repeat split; auto.
    + destruct (f_filing_date filing); cbn; repeat split; auto.
  - destruct (f_filing_date filing); cbn; repeat split; auto.
Qed.

End TaskShape.

(** X3. Processing the same filing twice: when the first run records the
    accession, a second run, whatever its collaborators do, is a skip that
    calls nothing and changes nothing, so the extractor is invoked at most
    once over both runs and exactly one row is stored for the accession. *)
Theorem process_filing_twice {Payload Report : Type}
    (C C' : Collaborators Payload Report) (filing : Filing Payload)
    (acc tk : string) (d : db) :
  f_accession_number filing = Some acc ->
  f_ticker filing = Some tk ->
  truthy_str acc = true ->
  truthy_str tk = true ->
  pk_unique d ->
  let d1 := snd (fst (run_task C filing d)) in
  let tr1 := snd (run_task C filing d) in
  is_processed d1 acc = true ->
  let '(r2, d2, tr2) := run_task C' filing d1 in
  d2 = d1
  /\ List.filter is_effect tr2 = []
  /\ (length (List.filter is_extraction (tr1 ++ tr2)) <= 1)%nat
  /\ length (rows_for d2 acc) = 1%nat.
Proof.
  intros Hacc Htk Ta Tt Hpk.
  pose proof (run_task_shape C filing d) as Hshape.
  destruct (run_task C filing d) as [[r1 d1] tr1]. cbn [fst snd].
  destruct Hshape as (_ & Hd1 & Hx).
  intros Hp.
  rewrite (run_task_processed C' filing acc tk d1 Hacc Htk Ta Tt Hp).
  split; [reflexivity|]. split; [reflexivity|]. split.
  - rewrite List.filter_app, length_app. cbn. lia.
  - unfold rows_for. apply StateManagerProps.rows_present_unique; [|exact Hp].
    destruct Hd1 as [->|(a & t & dt & _ & _ & ->)]; [exact Hpk|].
    now apply StateManagerProps.pk_unique_mark.
Qed.

Lemma process_filing_twice_witness :
  let d1 := snd (fst (run_task PollingEngineProps.fetch_raises
                        PollingEngineProps.nvda_filing init_db)) in
  let tr1 := snd (run_task PollingEngineProps.fetch_raises
                    PollingEngineProps.nvda_filing init_db) in
  let '(r2, d2, tr2) :=
    run_task PollingEngineProps.extractor_raises
      PollingEngineProps.nvda_filing d1 in
  d2 = d1
  /\ List.filter is_effect tr2 = []
  /\ (length (List.filter is_extraction (tr1 ++ tr2)) <= 1)%nat
  /\ length (rows_for d2 "0001045810-24-001") = 1%nat.
Proof.
  apply (process_filing_twice PollingEngineProps.fetch_raises
           PollingEngineProps.extractor_raises PollingEngineProps.nvda_filing
           "0001045810-24-001" "NVDA" init_db); try reflexivity.
  unfold pk_unique. cbn. apply NoDup_nil_2.
Defined.

(** X4. A malformed filing, one whose accession number or ticker is
    missing or empty, is dropped with a single warning: no collaborator is
    called and the database is unchanged. *)
Theorem process_filing_malformed {Payload Report : Type}
    (C : Collaborators Payload Report) (filing : Filing Payload) (d : db) :
  truthy_opt (f_accession_number filing) = false
  \/ truthy_opt (f_ticker filing) = false ->
  run_task C filing d
  = (Ok tt, d, [Log WARNING "Skipping malformed filing"]).
Proof.
  unfold run_task, _process_filing, truthy_opt.
  destruct (f_accession_number filing) as [a|], (f_ticker filing) as [t|];
    intros [H|H]; try discriminate; try reflexivity.
  - now rewrite H.
  - rewrite H. now rewrite orb_true_r.
Qed.

Lemma process_filing_malformed_witness :
  run_task PollingEngineProps.fetch_raises
    (mkFiling (Some "") (Some "NVDA") (Some tt) None) init_db
  = (Ok tt, init_db, [Log WARNING "Skipping malformed filing"]).
Proof.
  apply (process_filing_malformed PollingEngineProps.fetch_raises
           (mkFiling (Some "") (Some "NVDA") (Some tt) None) init_db).
  left. reflexivity.
Defined.

(** X5. Whatever the filing and whatever the collaborators do, a task
    never raises, never removes or rewrites a processed filing, adds at
    most one, calls the extractor at most once and never touches the
    scheduler log. *)
Theorem process_filing_contained {Payload Report : Type}
    (C : Collaborators Payload Report) (filing : Filing Payload) (d : db) :
  let '(r, d', tr) := run_task C filing d in
  r = Ok tt
  /\ (exists added, processed_filings d' = processed_filings d ++ added)
  /\ (get_processed_count d <= get_processed_count d'
      <= S (get_processed_count d))%nat
  /\ (length (List.filter is_extraction tr) <= 1)%nat
  /\ scheduler_events d' = scheduler_events d.
Proof.
  pose proof (run_task_shape C filing d) as Hshape.
  destruct (run_task C filing d) as [[r d'] tr].
  destruct Hshape as (Hr & Hd & Hx).
  split; [exact Hr|].
  destruct Hd as [->|(acc & tk & dt & _ & _ & ->)].
  - split; [exists []; now rewrite app_nil_r|].
    split; [lia|]. split; [exact Hx|reflexivity].
  - destruct (StateStoreFacts.mark_processed_count d acc tk dt) as [Hc Hs].
    split.
    + unfold mark_processed.
      destruct (existsb _ (processed_filings d)); cbn; [|eauto].
      exists []. now rewrite app_nil_r.
    + split; [|split; [exact Hx|exact Hs]].
      rewrite Hc. destruct (is_processed d acc); lia.
Qed.

End TaskFacts.

Module MarketRegistryFacts.
Import Py MarketRegistry.

Lemma group_fold (tickers : list string) : forall g,
  fold_left
    (fun groups t =>
       if endswith t ".NS"
       then mkGroups (edgar groups) (nse groups ++ [t])
       else mkGroups (edgar groups ++ [t]) (nse groups))
    tickers g
  = mkGroups
      (edgar g ++ List.filter (fun t => negb (endswith t ".NS")) tickers)
      (nse g ++ List.filter (fun t => endswith t ".NS") tickers).
Proof.
  induction tickers as [|t ts IH]; intros g; cbn.
  - rewrite !app_nil_r. now destruct g.
  - rewrite IH. destruct (endswith t ".NS"); cbn;
      now rewrite <- ?app_assoc.
Qed.

Example route_mixed :
  group_tickers_by_market ["NVDA"; "RELIANCE.NS"; "AMD"; "TCS.NS"; ".NS"; "x.ns"]
  = mkGroups ["NVDA"; "AMD"; "x.ns"] ["RELIANCE.NS"; "TCS.NS"; ".NS"].
Proof. reflexivity. Qed.

(** X6. [group_tickers_by_market] splits the tickers in two without losing,
    adding or reordering any: each group lists its tickers in input order,
    together they are a rearrangement of the input, and every ticker of a
    group is routed by [get_client] to that group's client, so the client
    looked up for the first ticker of a group serves the whole group. *)
Theorem grouping_routes_consistently (tickers : list string) :
  let g := group_tickers_by_market tickers in
  edgar g = List.filter (fun t => negb (endswith t ".NS")) tickers
  /\ nse g = List.filter (fun t => endswith t ".NS") tickers
  /\ Permutation (edgar g ++ nse g) tickers
  /\ Forall (fun t => get_client t = EdgarClient) (edgar g)
  /\ Forall (fun t => get_client t = NseClient) (nse g)
  /\ (forall t, head (edgar g) = Some t ->
        Forall (fun t' => get_client t' = get_client t) (edgar g))
  /\ (forall t, head (nse g) = Some t ->
        Forall (fun t' => get_client t' = get_client t) (nse g)).
Proof.
  intros g. unfold g, group_tickers_by_market. rewrite group_fold. cbn.
  assert (He : Forall (fun t => get_client t = EdgarClient)
                 (List.filter (fun t => negb (endswith t ".NS")) tickers)).
  { apply List.Forall_forall. intros t Ht. apply filter_In in Ht as [_ Ht].
    unfold get_client. now destruct (endswith t ".NS"). }
  assert (Hn : Forall (fun t => get_client t = NseClient)
                 (List.filter (fun t => endswith t ".NS") tickers)).
  { apply List.Forall_forall. intros t Ht. apply filter_In in Ht as [_ Ht].
    unfold get_client. now rewrite Ht. }
  split; [reflexivity|]. split; [reflexivity|]. split.
  - clear. induction tickers as [|t ts IH]; cbn; [reflexivity|].
    destruct (endswith t ".NS"); cbn.
    + etransitivity; [symmetry; apply Permutation_middle|].
      now apply perm_skip.
    + now apply perm_skip.
  - split; [exact He|]. split; [exact Hn|]. split; intros t Ht.
    + assert (Hc : get_client t = EdgarClient).
      { rewrite List.Forall_forall in He. apply He.
        revert Ht.
        destruct (List.filter (fun t => negb (endswith t ".NS")) tickers); cbn;
          [discriminate|intros [= ->]; now left]. }
      rewrite Hc. exact He.
    + assert (Hc : get_client t = NseClient).
      { rewrite List.Forall_forall in Hn. apply Hn.
        revert Ht.
        destruct (List.filter (fun t => endswith t ".NS") tickers); cbn;
          [discriminate|intros [= ->]; now left]. }
      rewrite Hc. exact Hn.
Qed.

End MarketRegistryFacts.

Module SignalStoreFacts.
Import Py SignalStore PyProps SignalStoreProps.

Section CacheFacts.
Context {Payload : Type}.
Implicit Types (st : store Payload) (s : Save Payload).

Definition newer (a b : ScrapedSignal Payload) : bool :=
  (sig_timestamp a <? sig_timestamp b)%Z.

Lemma newest_first_head (l : list (ScrapedSignal Payload))
    (latest : ScrapedSignal Payload) :
  head (order_by_desc newer l) = Some latest ->
  In latest l
  /\ Forall (fun sg => (sig_timestamp sg <= sig_timestamp latest)%Z) l.
Proof.
  intros H.
  pose proof (order_by_desc_perm newer l) as Hperm.
  assert (Hsorted : StronglySorted (fun a b => newer a b = false)
                      (order_by_desc newer l)).
  { apply order_by_desc_sorted; unfold newer.
    - intros a b c H1 H2. apply Z.ltb_ge in H1, H2. apply Z.ltb_ge. lia.
    - intros a b H1. apply Z.ltb_lt in H1. apply Z.ltb_ge. lia. }
  destruct (order_by_desc newer l) as [|x rest]; [discriminate|].
  cbn in H. injection H as ->.
  split.
  - apply (Permutation_in _ Hperm). now left.
  - apply StronglySorted_inv in Hsorted as [_ Hall].
    apply List.Forall_forall. intros sg Hsg.
    apply (Permutation_in _ (Permutation_sym Hperm)) in Hsg.
    destruct Hsg as [<-|Hsg]; [lia|].
    rewrite List.Forall_forall in Hall. specialize (Hall sg Hsg).
    unfold newer in Hall. apply Z.ltb_ge in Hall. exact Hall.
Qed.

Lemma entities_save_tickers st s :
  NoDup (map fst (keys st)) -> NoDup (map fst (keys (apply_save st s))).
Proof.
  intros ND. rewrite keys_save.
  destruct (find_entity st (s_ticker s)) as [e|] eqn:E; [exact ND|].
  rewrite map_app. cbn. apply NoDup_app. split; [exact ND|]. split.
  - intros x Hx Hx'. apply list_elem_of_singleton in Hx'. subst x.
    apply list_elem_of_In, in_map_iff in Hx as [[t i] [Ht Hin]]. cbn in Ht.
    subst t. unfold keys in Hin.
    apply in_map_iff in Hin as [e [He Hin]]. injection He as He _.
    unfold find_entity in E.
    apply (find_none _ _ E) in Hin. rewrite He, String.eqb_refl in Hin.
    discriminate.
  - apply NoDup_singleton.
Qed.

Lemma tickers_unique (hist : list (Save Payload)) :
  NoDup (map fst (keys (run_saves hist))).
Proof.
  induction hist as [|s hist IH] using rev_ind.
  - cbn. apply NoDup_nil_2.
  - unfold run_saves. rewrite fold_left_app. cbn.
    now apply entities_save_tickers.
Qed.

Lemma id_of_entity st tick i :
  id_of st tick = Some i ->
  exists e, In e (entities st) /\ ent_ticker e = tick /\ ent_id e = i.
Proof.
  unfold id_of, find_entity.
  destruct (List.find _ (entities st)) as [e|] eqn:E; [|discriminate].
  cbn. intros [= <-]. apply find_some in E as [Hin Heq].
  apply String.eqb_eq in Heq. eauto.
Qed.

Lemma get_latest_by_id st (ttl_hours now : Z) (tick provider : string) :
  get_latest_signal st ttl_hours now tick provider =
  match id_of st tick with
  | None => None
  | Some i =>
      match head (order_by_desc newer
                    (List.filter
                       (fun sg => Nat.eqb (sig_entity_id sg) i
                                  && String.eqb (sig_provider sg) provider)
                       (signals st))) with
      | None => None
      | Some latest =>
          if (now - sig_timestamp latest <? timedelta_hours ttl_hours)%Z
          then Some (sig_raw_payload latest) else None
      end
  end.
Proof.
  unfold get_latest_signal, id_of, signals_newest_first.
  destruct (find_entity st tick); reflexivity.
Qed.

Lemma id_in_bound (ks : list (string * nat)) (tick : string) (i : nat) :
  map snd ks = seq 1 (length ks) -> id_in ks tick = Some i ->
  (i <= length ks)%nat.
Proof.
  intros Hs H. apply id_in_found in H. apply (in_map snd) in H.
  rewrite Hs in H. apply in_seq in H. cbn in H. lia.
Qed.

Lemma entity_tickers_saved (hist : list (Save Payload)) (tick : string) :
  In tick (map fst (keys (run_saves hist))) -> In tick (map s_ticker hist).
Proof.
  induction hist as [|s hist IH] using rev_ind.
  - cbn. auto.
  - unfold run_saves. rewrite fold_left_app. cbn. rewrite keys_save.
    fold (run_saves hist). rewrite map_app, in_app_iff. cbn.
    destruct (find_entity (run_saves hist) (s_ticker s)).
    + intros H. left. now apply IH.
    + rewrite map_app, in_app_iff. cbn. intros [H|[H|[]]]; auto.
Qed.

Lemma Forall2_exists_left {A B : Type} (P : A -> B -> Prop)
    (l1 : list A) (l2 : list B) :
  Forall2 P l1 l2 -> forall a, In a l1 -> exists b, In b l2 /\ P a b.
Proof.
  induction 1 as [|a b l1 l2 HP H IH]; intros x Hx; [contradiction|].
  destruct Hx as [<-|Hx].
  - exists b. split; [now left|exact HP].
  - destruct (IH x Hx) as (y & Hy & Hxy). exists y. split; [now right|exact Hxy].
Qed.

Lemma Forall2_forall_right {A B : Type} (P : A -> B -> Prop) (Q : B -> Prop)
    (l1 : list A) (l2 : list B) :
  Forall2 P l1 l2 -> (forall a b, P a b -> Q b) -> Forall Q l2.
Proof. induction 1; intros HPQ; constructor; eauto. Qed.

Lemma signal_ids_bounded st (hist : list (Save Payload)) :
  Inv hist st ->
  Forall (fun sg => (sig_entity_id sg <= length (keys st))%nat) (signals st).
Proof.
  intros [I1 I2]. eapply Forall2_forall_right; [exact I2|].
  intros s sg (H1 & _). rewrite id_of_keys in H1.
  eapply id_in_bound; eauto.
Qed.

Lemma filter_none {A : Type} (f : A -> bool) (l : list A) :
  Forall (fun x => f x = false) l -> List.filter f l = [].
Proof.
  induction 1 as [|x l Hx Hl IH]; cbn; [reflexivity|]. now rewrite Hx.
Qed.

End CacheFacts.

(** X7. A cache hit is always backed by a stored signal: whatever the
    store holds, a payload returned by [get_latest_signal] belongs to a
    signal of an entity with the asked ticker and of the asked provider, no
    signal of that entity and provider is newer, and its age is strictly
    below the TTL; so with a TTL of zero hours or less nothing that is not
    stamped in the future is ever returned. *)
Theorem cache_hit_sound {Payload : Type} (st : store Payload)
    (ttl_hours now : Z) (tick provider : string) (payload : Payload) :
  get_latest_signal st ttl_hours now tick provider = Some payload ->
  exists e sg,
    In e (entities st) /\ ent_ticker e = tick
    /\ In sg (signals st)
    /\ sig_entity_id sg = ent_id e
    /\ sig_provider sg = provider
    /\ sig_raw_payload sg = payload
    /\ (now - sig_timestamp sg < timedelta_hours ttl_hours)%Z
    /\ (forall sg', In sg' (signals st) ->
          sig_entity_id sg' = ent_id e -> sig_provider sg' = provider ->
          (sig_timestamp sg' <= sig_timestamp sg)%Z)
    /\ ((ttl_hours <= 0)%Z -> (now < sig_timestamp sg)%Z).
Proof.
  rewrite get_latest_by_id.
  destruct (id_of st tick) as [i|] eqn:Ei; [|discriminate].
  destruct (id_of_entity st tick i Ei) as (e & He & Ht & Hi).
  destruct (head _) as [latest|] eqn:Eh; [|discriminate].
  destruct (now - sig_timestamp latest <? timedelta_hours ttl_hours)%Z eqn:Ettl;
    [|discriminate].
  intros [= <-]. apply newest_first_head in Eh as [Hin Hmax].
  apply filter_In in Hin as [Hin Hf]. apply andb_true_iff in Hf as [Hf1 Hf2].
  apply Nat.eqb_eq in Hf1. apply String.eqb_eq in Hf2. apply Z.ltb_lt in Ettl.
  exists e, latest. repeat split; auto; try congruence.
  - intros sg' Hsg' Hid Hp. rewrite List.Forall_forall in Hmax. apply Hmax.
    apply filter_In. split; [exact Hsg'|].
    apply andb_true_iff. split.
    + apply Nat.eqb_eq. congruence.
    + now apply String.eqb_eq.
  - unfold timedelta_hours in Ettl. lia.
Qed.

Lemma cache_hit_sound_witness :
  exists e sg,
    In e (entities (run_saves aapl_hist)) /\ ent_ticker e = "AAPL"
    /\ In sg (signals (run_saves aapl_hist))
    /\ sig_entity_id sg = ent_id e
    /\ sig_provider sg = "hiring"
    /\ sig_raw_payload sg = "{jobs: 140}"
    /\ (1000000 + 1800000000 - sig_timestamp sg < timedelta_hours 1)%Z
    /\ (forall sg', In sg' (signals (run_saves aapl_hist)) ->
          sig_entity_id sg' = ent_id e -> sig_provider sg' = "hiring" ->
          (sig_timestamp sg' <= sig_timestamp sg)%Z)
    /\ ((1 <= 0)%Z -> (1000000 + 1800000000 < sig_timestamp sg)%Z).
Proof.
  apply (cache_hit_sound (run_saves aapl_hist) 1 (1000000 + 1800000000)
           "AAPL" "hiring" "{jobs: 140}").
  reflexivity.
Defined.

(** X8. After any history of [save_signal] calls on a fresh store, the
    entity table holds each saved ticker exactly once, and nothing else,
    with ids 1..n; there is one signal row per save, in order, and every
    signal row points to an existing entity, the one of the ticker it was
    saved for. *)
Theorem save_signal_integrity {Payload : Type} (hist : list (Save Payload)) :
  let st := run_saves hist in
  NoDup (map ent_ticker (entities st))
  /\ map ent_id (entities st) = seq 1 (length (entities st))
  /\ length (signals st) = length hist
  /\ Forall2
       (fun s sg =>
          exists e, In e (entities st) /\ ent_ticker e = s_ticker s
                    /\ ent_id e = sig_entity_id sg
                    /\ sig_provider sg = s_provider s
                    /\ sig_raw_payload sg = s_payload s)
       hist (signals st)
  /\ (forall tick, In tick (map ent_ticker (entities st))
                   <-> In tick (map s_ticker hist)).
Proof.
  intros st. destruct (Inv_run hist) as [I1 I2]. fold st in I1, I2.
  pose proof (tickers_unique hist) as ND. fold st in ND.
  pose proof (entity_tickers_saved hist) as Hsaved. fold st in Hsaved.
  unfold keys in I1, ND, Hsaved. rewrite map_map in I1, ND, Hsaved.
  cbn in I1, ND, Hsaved. rewrite length_map in I1.
  assert (Hrows : Forall2
            (fun s sg =>
               exists e, In e (entities st) /\ ent_ticker e = s_ticker s
                         /\ ent_id e = sig_entity_id sg
                         /\ sig_provider sg = s_provider s
                         /\ sig_raw_payload sg = s_payload s)
            hist (signals st)).
  { eapply Forall2_impl; [exact I2|].
    intros s sg (H1 & H2 & H3 & _).
    destruct (id_of_entity st _ _ H1) as (e & He & Ht & Hi). eauto 8. }
  split; [exact ND|]. split; [exact I1|]. split.
  - symmetry. eapply Forall2_length, I2.
  - split; [exact Hrows|]. intros tick. split; intros H.
    + now apply Hsaved.
    + apply in_map_iff in H as [s [<- Hs]].
      destruct (Forall2_exists_left _ _ _ Hrows s Hs)
        as (sg & _ & e & He & Ht & _).
      rewrite <- Ht. now apply in_map.
Qed.

(** X9. Saving a signal for one ticker and provider leaves every other
    cache line alone: on a store built by [save_signal] calls, what
    [get_latest_signal] answers for a different ticker or a different
    provider is the same before and after the save. *)
Theorem save_signal_isolated {Payload : Type} (hist : list (Save Payload))
    (s : Save Payload) (ttl_hours now : Z) (tick provider : string) :
  s_ticker s <> tick \/ s_provider s <> provider ->
  get_latest_signal (apply_save (run_saves hist) s) ttl_hours now tick provider
  = get_latest_signal (run_saves hist) ttl_hours now tick provider.
Proof.
  intros Hother.
  pose proof (Inv_run hist) as HInv.
  pose proof (signal_ids_bounded _ _ HInv) as Hbound.
  destruct HInv as [I1 I2].
  set (st := run_saves hist) in *.
  rewrite !get_latest_by_id, signals_save.
  assert (Hprov : s_provider s <> provider ->
                  String.eqb (s_provider s) provider = false)
    by (intros H; now apply String.eqb_neq).
  destruct (id_of st tick) as [i|] eqn:Ei.
  - rewrite (id_of_save_old st s tick i Ei).
    assert (Hnew : Nat.eqb (entity_id_for st (s_ticker s)) i
                   && String.eqb (s_provider s) provider = false).
    { destruct (String.eqb_spec (s_provider s) provider) as [Hp|Hp];
        [|apply andb_false_r].
      rewrite andb_true_r. apply Nat.eqb_neq. intros Hid.
      destruct Hother as [Ht|Hp']; [|contradiction]. apply Ht.
      unfold entity_id_for in Hid.
      destruct (find_entity st (s_ticker s)) as [e|] eqn:E.
      - eapply (id_of_inj st); eauto.
        unfold id_of. rewrite E. cbn. now rewrite Hid.
      - rewrite id_of_keys in Ei. apply id_in_bound in Ei; [|exact I1].
        unfold keys in Ei. rewrite length_map in Ei. lia. }
    rewrite List.filter_app. cbn. rewrite Hnew, app_nil_r. reflexivity.
  - destruct (String.eqb_spec (s_ticker s) tick) as [Ht|Ht].
    + destruct Hother as [Hne|Hp]; [contradiction|].
      rewrite <- Ht, id_of_save_new.
      assert (Hfresh : entity_id_for st (s_ticker s) = S (length (keys st))).
      { unfold entity_id_for. rewrite <- Ht in Ei. unfold id_of in Ei.
        destruct (find_entity st (s_ticker s)); [discriminate|].
        unfold keys. now rewrite length_map. }
      rewrite Hfresh, List.filter_app. cbn.
      rewrite (Hprov Hp), andb_false_r, app_nil_r.
      rewrite filter_none; [reflexivity|].
      eapply List.Forall_impl; [|exact Hbound]. intros sg Hsg. cbn in Hsg.
      apply andb_false_iff. left. apply Nat.eqb_neq. lia.
    + assert (Hnone : id_of (apply_save st s) tick = None).
      { rewrite id_of_keys in Ei. rewrite id_of_keys, keys_save.
        destruct (find_entity st (s_ticker s)); [exact Ei|].
        unfold id_in in *. rewrite find_over_app.
        destruct (List.find _ (keys st)); [discriminate|]. cbn.
        apply String.eqb_neq in Ht. now rewrite Ht. }
      now rewrite Hnone.
Qed.

Lemma save_signal_isolated_witness :
  get_latest_signal
    (apply_save (run_saves aapl_hist)
       (mkSave "MSFT" "hiring" "{jobs: 9}" 1%Q None 2000000 2000001))
    1 2000002 "AAPL" "hiring"
  = get_latest_signal (run_saves aapl_hist) 1 2000002 "AAPL" "hiring".
Proof.
  apply (save_signal_isolated aapl_hist
           (mkSave "MSFT" "hiring" "{jobs: 9}" 1%Q None 2000000 2000001)
           1 2000002 "AAPL" "hiring").
  left. discriminate.
Defined.

End SignalStoreFacts.

Module OrderFacts.
Import Py PyProps.

(** The head of a descending sort on an integer key is an element with
    the greatest key; the head is missing only for an empty input. *)
Lemma order_head_max {A : Type} (key : A -> Z) (l : list A) (x : A) :
  head (order_by_desc (fun a b => (key a <? key b)%Z) l) = Some x ->
  In x l /\ Forall (fun y => (key y <= key x)%Z) l.
Proof.
  intros H.
  pose proof (order_by_desc_perm (fun a b => (key a <? key b)%Z) l) as Hperm.
  assert (Hsorted : StronglySorted (fun a b => (key a <? key b)%Z = false)
                      (order_by_desc (fun a b => (key a <? key b)%Z) l)).
  { apply order_by_desc_sorted.
    - intros a b c H1 H2. apply Z.ltb_ge in H1, H2. apply Z.ltb_ge. lia.
    - intros a b H1. apply Z.ltb_lt in H1. apply Z.ltb_ge. lia. }
  destruct (order_by_desc _ l) as [|y rest]; [discriminate|].
  cbn in H. injection H as ->. split.
  - apply (Permutation_in _ Hperm). now left.
  - apply StronglySorted_inv in Hsorted as [_ Hall].
    apply List.Forall_forall. intros z Hz.
    apply (Permutation_in _ (Permutation_sym Hperm)) in Hz.
    destruct Hz as [<-|Hz]; [lia|].
    rewrite List.Forall_forall in Hall. specialize (Hall z Hz).
    now apply Z.ltb_ge in Hall.
Qed.

Lemma order_head_none {A : Type} (lt : A -> A -> bool) (l : list A) :
  head (order_by_desc lt l) = None -> l = [].
Proof.
  intros H. pose proof (order_by_desc_length lt l) as Hlen.
  destruct (order_by_desc lt l); [|discriminate].
  destruct l; [reflexivity|discriminate].
Qed.

Lemma in_sql_limit {A : Type} (n : Z) (l : list A) (x : A) :
  In x (sql_limit n l) -> In x l.
Proof.
  unfold sql_limit. destruct (n <? 0)%Z; [auto|].
  intros H. rewrite <- (firstn_skipn (Z.to_nat n) l).
  apply in_or_app. now left.
Qed.

Lemma NoDup_firstn {A : Type} (n : nat) (l : list A) :
  List.NoDup l -> List.NoDup (firstn n l).
Proof.
  intros H. rewrite <- (firstn_skipn n l) in H.
  now apply List.NoDup_app_remove_r in H.
Qed.

Lemma NoDup_sql_limit {A : Type} (n : Z) (l : list A) :
  List.NoDup l -> List.NoDup (sql_limit n l).
Proof.
  unfold sql_limit. destruct (n <? 0)%Z; [auto|]. apply NoDup_firstn.
Qed.

Lemma map_sql_limit {A B : Type} (f : A -> B) (n : Z) (l : list A) :
  map f (sql_limit n l) = sql_limit n (map f l).
Proof.
  unfold sql_limit. destruct (n <? 0)%Z; [reflexivity|].
  symmetry. apply firstn_map.
Qed.

Lemma StronglySorted_weaken {A : Type} (R S : A -> A -> Prop) (l : list A) :
  (forall a b, R a b -> S a b) -> StronglySorted R l -> StronglySorted S l.
Proof.
  intros HRS. induction 1 as [|x l Hl IH Hx]; constructor; [exact IH|].
  eapply List.Forall_impl; [|exact Hx]. auto.
Qed.

Lemma order_sorted_key {A : Type} (key : A -> Z) (l : list A) :
  StronglySorted (fun a b => (key b <= key a)%Z)
    (order_by_desc (fun a b => (key a <? key b)%Z) l).
Proof.
  apply StronglySorted_weaken
    with (R := fun a b => (key a <? key b)%Z = false).
  - intros a b H. now apply Z.ltb_ge in H.
  - apply order_by_desc_sorted.
    + intros a b c H1 H2. apply Z.ltb_ge in H1, H2. apply Z.ltb_ge. lia.
    + intros a b H1. apply Z.ltb_lt in H1. apply Z.ltb_ge. lia.
Qed.

End OrderFacts.

Module TimeSeriesFacts.
Import Py MacroModels TimeSeriesPersistence TimeSeriesQueries PyProps OrderFacts.

Section Batches.
Context {L : Type}.
Implicit Types (tbl : list Row) (e : MacroEvent L).

Definition present tbl e : bool :=
  existsb (same_key (event_id e) (timestamp e)) tbl.

Lemma present_after_save tbl e : present (snd (save_snapshot tbl e)) e = true.
Proof.
  unfold present. rewrite TimeSeriesProps.save_snapshot_eq.
  destruct (existsb _ tbl) eqn:E; cbn; [exact E|].
  rewrite existsb_app. cbn. rewrite TimeSeriesProps.same_key_row.
  now rewrite orb_true_r.
Qed.

Lemma present_batch (events : list (MacroEvent L)) : forall tbl e,
  present tbl e = true -> present (snd (save_batch tbl events)) e = true.
Proof.
  induction events as [|x rest IH]; intros tbl e H; [exact H|].
  rewrite TimeSeriesProps.save_batch_cons. cbn [snd]. apply IH.
  now apply TimeSeriesProps.has_key_save.
Qed.

Lemma batch_leaves_present (events : list (MacroEvent L)) : forall tbl,
  Forall (fun e => present (snd (save_batch tbl events)) e = true) events.
Proof.
  induction events as [|x rest IH]; intros tbl; constructor.
  - rewrite TimeSeriesProps.save_batch_cons. cbn [snd].
    apply present_batch, present_after_save.
  - rewrite TimeSeriesProps.save_batch_cons. cbn [snd]. apply IH.
Qed.

Lemma batch_of_present (events : list (MacroEvent L)) (tbl : list Row) :
  Forall (fun e => present tbl e = true) events ->
  save_batch tbl events = (0%nat, tbl).
Proof.
  induction 1 as [|x rest Hx Hrest IH]; [reflexivity|].
  rewrite TimeSeriesProps.save_batch_cons, TimeSeriesProps.save_snapshot_eq.
  unfold present in Hx. rewrite Hx. cbn [fst snd]. now rewrite IH.
Qed.

Lemma batch_appends (events : list (MacroEvent L)) : forall tbl,
  exists added,
    snd (save_batch tbl events) = tbl ++ added
    /\ length added = fst (save_batch tbl events)
    /\ (length added <= length events)%nat.
Proof.
  induction events as [|x rest IH]; intros tbl.
  - exists []. cbn. rewrite app_nil_r. auto.
  - rewrite TimeSeriesProps.save_batch_cons, TimeSeriesProps.save_snapshot_eq.
    destruct (existsb _ tbl); cbn [fst snd].
    + destruct (IH tbl) as (added & H1 & H2 & H3).
      exists added. cbn. repeat split; auto.
    + destruct (IH (tbl ++ [TimeSeriesProps.row_of tbl x]))
        as (added & H1 & H2 & H3).
      exists (TimeSeriesProps.row_of tbl x :: added).
      rewrite H1, <- app_assoc. cbn. repeat split; auto. lia.
Qed.

End Batches.

(** X10. [save_batch] only appends, writes at most one row per event, and
    is idempotent: saving the same batch a second time writes nothing and
    returns 0, whatever the table held before. *)
Theorem save_batch_replay {L : Type} (tbl : list Row)
    (events : list (MacroEvent L)) :
  let n := fst (save_batch tbl events) in
  let tbl' := snd (save_batch tbl events) in
  (n <= length events)%nat
  /\ (exists added, tbl' = tbl ++ added /\ length added = n)
  /\ save_batch tbl' events = (0%nat, tbl')
  /\ Forall (fun e => rows_with_key tbl' (event_id e) (timestamp e) <> [])
       events.
Proof.
  intros n tbl'. unfold n, tbl'.
  destruct (batch_appends events tbl) as (added & H1 & H2 & H3).
  pose proof (batch_leaves_present events tbl) as Hp.
  split; [lia|]. split; [eauto|]. split.
  - now apply batch_of_present.
  - eapply List.Forall_impl; [|exact Hp]. intros e He Hnone.
    apply TimeSeriesProps.rows_some in He. rewrite Hnone in He.
    cbn in He. lia.
Qed.

Section Latest.

Lemma latest_of_spec (tbl : list Row) (eid : string) (r : LatestRow) :
  latest_of tbl eid = Some r ->
  lr_event_id r = eid
  /\ exists row,
       In row tbl
       /\ row_event_id row = eid
       /\ r = mkLatestRow (row_event_id row) (row_event_title row)
                (row_category row) (row_sector row) (row_related_ticker row)
                (row_probability_yes row) (row_volume_usd row)
                (row_timestamp row)
       /\ (forall row', In row' tbl -> row_event_id row' = eid ->
             (row_timestamp row' <= row_timestamp row)%Z).
Proof.
  unfold latest_of, older.
  destruct (head _) as [row|] eqn:E; [|discriminate].
  intros [= <-].
  apply (order_head_max row_timestamp) in E as [Hin Hmax].
  apply filter_In in Hin as [Hin Heq]. apply String.eqb_eq in Heq.
  split; [exact Heq|]. exists row. repeat split; auto.
  intros row' Hin' Heq'. rewrite List.Forall_forall in Hmax. apply Hmax.
  apply filter_In. split; [exact Hin'|]. now apply String.eqb_eq.
Qed.

Lemma latest_of_some (tbl : list Row) (row : Row) :
  In row tbl -> exists r, latest_of tbl (row_event_id row) = Some r.
Proof.
  intros Hin. unfold latest_of.
  destruct (head _) as [x|] eqn:E; [eauto|].
  apply order_head_none in E.
  assert (Hf : In row (List.filter
                         (fun r => String.eqb (row_event_id r) (row_event_id row))
                         tbl))
    by (apply filter_In; split; [exact Hin|apply String.eqb_refl]).
  rewrite E in Hf. contradiction.
Qed.

Lemma latest_ids_nodup (tbl : list Row) (ids : list string) :
  List.NoDup ids ->
  List.NoDup (map lr_event_id (omap (latest_of tbl) ids))
  /\ (forall x, In x (map lr_event_id (omap (latest_of tbl) ids)) -> In x ids).
Proof.
  induction 1 as [|x ids Hx Hids [IH1 IH2]]; cbn.
  - split; [constructor|auto].
  - destruct (latest_of tbl x) as [r|] eqn:E; cbn.
    + apply latest_of_spec in E as [Hid _]. split.
      * constructor; [|exact IH1]. rewrite Hid. intros Hin. apply Hx.
        now apply IH2.
      * intros y [Hy|Hy]; [left; congruence|right; now apply IH2].
    + split; [exact IH1|]. intros y Hy. right. now apply IH2.
Qed.

End Latest.

Example latest_two_events :
  map (fun r => (lr_event_id r, lr_timestamp r))
    (get_latest_probabilities
       [mkRow 1 "fed" "Fed cut?" None None None (40 # 100) None "polymarket" 10;
        mkRow 2 "cpi" "CPI above 3?" None None None (20 # 100) None "polymarket" 30;
        mkRow 3 "fed" "Fed cut?" None None None (45 # 100) None "polymarket" 50;
        mkRow 4 "cpi" "CPI above 3?" None None None (25 # 100) None "polymarket" 20]
       20)
  = [("fed", 50); ("cpi", 30)].
Proof. reflexivity. Qed.

(** X11. [get_latest_probabilities] returns at most one row per event,
    newest first; each returned row is a stored snapshot of its event and
    no stored snapshot of that event is newer.  A non-negative limit caps
    the number of rows; with a negative limit every stored event is
    returned. *)
Theorem latest_probabilities_spec (tbl : list Row) (limit : Z) :
  let res := get_latest_probabilities tbl limit in
  List.NoDup (map lr_event_id res)
  /\ StronglySorted (fun a b => (lr_timestamp b <= lr_timestamp a)%Z) res
  /\ (forall r, In r res ->
        exists row,
          In row tbl
          /\ r = mkLatestRow (row_event_id row) (row_event_title row)
                   (row_category row) (row_sector row) (row_related_ticker row)
                   (row_probability_yes row) (row_volume_usd row)
                   (row_timestamp row)
          /\ (forall row', In row' tbl ->
                row_event_id row' = row_event_id row ->
                (row_timestamp row' <= row_timestamp row)%Z))
  /\ ((0 <= limit)%Z -> (Z.of_nat (length res) <= limit)%Z)
  /\ ((limit < 0)%Z ->
      forall row, In row tbl -> In (row_event_id row) (map lr_event_id res)).
Proof.
  intros res. unfold res, get_latest_probabilities.
  set (ids := nodup string_dec (map row_event_id tbl)).
  set (groups := omap (latest_of tbl) ids).
  set (lt := fun a b : LatestRow => (lr_timestamp a <? lr_timestamp b)%Z).
  pose proof (order_by_desc_perm lt groups) as Hperm.
  assert (Hin : forall r, In r groups ->
            exists eid, In eid ids /\ latest_of tbl eid = Some r).
  { intros r Hr. apply list_elem_of_In, list_elem_of_omap in Hr
      as (eid & Heid & Hl). exists eid. split; [|exact Hl].
    now apply list_elem_of_In. }
  split; [|split; [|split; [|split]]].
  - rewrite map_sql_limit. apply NoDup_sql_limit.
    apply (Permutation_NoDup (l := map lr_event_id groups)).
    + apply Permutation_map. now symmetry.
    + apply latest_ids_nodup. apply NoDup_nodup.
  - apply MarketIndexProps.sql_limit_sorted.
    apply (order_sorted_key lr_timestamp).
  - intros r Hr. apply in_sql_limit in Hr.
    apply (Permutation_in _ Hperm) in Hr.
    destruct (Hin r Hr) as (eid & _ & Hl).
    apply latest_of_spec in Hl as (Hid & row & H1 & H2 & H3 & H4).
    exists row. repeat split; auto.
    intros row' Hin' Heq. apply H4; [exact Hin'|congruence].
  - intros Hl. now apply MarketIndexProps.sql_limit_length.
  - intros Hneg row Hrow. unfold sql_limit.
    apply Z.ltb_lt in Hneg. rewrite Hneg.
    destruct (latest_of_some tbl row Hrow) as [r Hr].
    pose proof (latest_of_spec _ _ _ Hr) as [Hid _]. rewrite <- Hid.
    apply in_map. apply (Permutation_in _ (Permutation_sym Hperm)).
    apply list_elem_of_In, list_elem_of_omap.
    exists (row_event_id row). split; [|exact Hr].
    apply list_elem_of_In, nodup_In, in_map, Hrow.
Qed.

End TimeSeriesFacts.

Module HybridResolverFacts.
Import Py HybridResolver.

Lemma argmax_from_spec (rest : list Q) :
  forall (pre : list Q) (best_idx : nat) (best : Q),
  nth_error pre best_idx = Some best ->
  Forall (fun x => (x <= best)%Q) pre ->
  (forall j x, (j < best_idx)%nat -> nth_error pre j = Some x -> (x < best)%Q) ->
  let i := argmax_from best_idx best (length pre) rest in
  exists m,
    nth_error (pre ++ rest) i = Some m
    /\ Forall (fun x => (x <= m)%Q) (pre ++ rest)
    /\ (forall j x, (j < i)%nat -> nth_error (pre ++ rest) j = Some x ->
          (x < m)%Q).
Proof.
  induction rest as [|x rest IH]; intros pre best_idx best Hbest Hall Hfirst; cbn.
  - rewrite app_nil_r. eauto.
  - assert (Hlt : (best_idx < length pre)%nat)
      by (apply nth_error_Some; congruence).
    replace (pre ++ x :: rest) with ((pre ++ [x]) ++ rest)
      by (now rewrite <- app_assoc).
    replace (S (length pre)) with (length (pre ++ [x]))
      by (rewrite length_app; cbn; lia).
    destruct (Qle_bool x best) eqn:E.
    + apply Qle_bool_iff in E. apply IH.
      * rewrite nth_error_app1 by exact Hlt. exact Hbest.
      * apply Forall_app. split; [exact Hall|]. now constructor.
      * intros j y Hj Hy. rewrite nth_error_app1 in Hy by lia. eauto.
    + assert (Hx : (best < x)%Q).
      { apply Qnot_le_lt. intros Hle. apply Qle_bool_iff in Hle. congruence. }
      apply IH.
      * rewrite nth_error_app2 by lia. now rewrite Nat.sub_diag.
      * apply Forall_app. split.
        -- eapply List.Forall_impl; [|exact Hall]. intros y Hy. cbn in Hy.
           apply Qlt_le_weak. eapply Qle_lt_trans; eauto.
        -- constructor; [apply Qle_refl|constructor].
      * intros j y Hj Hy. rewrite nth_error_app1 in Hy by exact Hj.
        assert (Hin : In y pre) by (eapply nth_error_In; eauto).
        rewrite List.Forall_forall in Hall.
        eapply Qle_lt_trans; [apply Hall, Hin|exact Hx].
Qed.

Example argmax_tie : argmax [(1 # 2); (9 # 10); (9 # 10); (3 # 10)] = Ok 1%nat.
Proof. reflexivity. Qed.

(** X12. [argmax] raises on an empty score list and otherwise returns the
    first position of the greatest score: every score is at most the one it
    points to, and every score before it is strictly smaller, so among
    equal best scores the entity loaded first wins. *)
Theorem argmax_first_maximum (scores : list Q) :
  match argmax scores with
  | Raise e => scores = []
  | Ok i =>
      exists m,
        nth_error scores i = Some m
        /\ Forall (fun x => (x <= m)%Q) scores
        /\ (forall j x, (j < i)%nat -> nth_error scores j = Some x ->
              (x < m)%Q)
  end.
Proof.
  destruct scores as [|x rest]; cbn; [reflexivity|].
  apply (argmax_from_spec rest [x] 0 x).
  - reflexivity.
  - constructor; [apply Qle_refl|constructor].
  - intros j y Hj. lia.
Qed.

Section Corpus.
Context {B Vec : Type} (libs : Libs B Vec).

(** What the loop of [load_entities] keeps true. *)
Definition corpus_ok
    (acc : list string * gmap string string * gmap string string) : Prop :=
  let '(known, emap, amap) := acc in
  (forall n, In n known -> is_Some (emap !! n))
  /\ (forall a c, amap !! a = Some c -> In c known).

Lemma load_entity_ok acc (e : EntityDef) :
  corpus_ok acc -> corpus_ok (load_entity acc e).
Proof.
  destruct acc as [[known emap] amap]. intros [H1 H2]. cbn. split.
  - intros n Hn. apply in_app_iff in Hn.
    destruct (decide (e_name e = n)) as [->|Hne].
    + rewrite lookup_insert_eq. eauto.
    + rewrite lookup_insert_ne by exact Hne.
      destruct Hn as [Hn|[Hn|[]]]; [auto|contradiction].
  - intros a c Hc. apply in_app_iff.
    assert (Hcase : c = e_name e \/ amap !! a = Some c).
    { destruct (e_aliases e) as [als|]; [|now right].
      now apply HybridResolverProps.map_aliases_lookup in Hc. }
    destruct Hcase as [->|Hold]; [right; now left|left; eauto].
Qed.

Lemma fold_load_ok (entities : list EntityDef) : forall acc,
  corpus_ok acc -> corpus_ok (fold_left load_entity entities acc).
Proof.
  induction entities as [|e es IH]; cbn; intros acc H; [exact H|].
  now apply IH, load_entity_ok.
Qed.

Lemma fold_load_known (entities : list EntityDef) : forall known emap amap,
  fst (fst (fold_left load_entity entities (known, emap, amap)))
  = known ++ map e_name entities.
Proof.
  induction entities as [|e es IH]; intros known emap amap; cbn.
  - now rewrite app_nil_r.
  - rewrite IH, <- app_assoc. reflexivity.
Qed.

Lemma fold_load_tickers (entities : list EntityDef) (n : string) :
  forall known emap amap,
  snd (fst (fold_left load_entity entities (known, emap, amap))) !! n
  = match last (List.filter (fun e => String.eqb (e_name e) n) entities) with
    | Some e => Some (e_ticker e)
    | None => emap !! n
    end.
Proof.
  induction entities as [|e es IH] using rev_ind; intros known emap amap.
  - reflexivity.
  - rewrite fold_left_app, List.filter_app. cbn.
    destruct (fold_left load_entity es (known, emap, amap))
      as [[known' emap'] amap'] eqn:E.
    specialize (IH known emap amap). rewrite E in IH. cbn in IH. cbn.
    destruct (String.eqb_spec (e_name e) n) as [->|Hne].
    + rewrite lookup_insert_eq, last_snoc. reflexivity.
    + rewrite lookup_insert_ne by exact Hne. now rewrite app_nil_r.
Qed.

Lemma load_entities_fields (r0 : Resolver B Vec) (entities : list EntityDef) :
  let acc := fold_left load_entity entities ([], ∅, ∅) in
  known_entities (load_entities libs r0 entities) = fst (fst acc)
  /\ entity_map (load_entities libs r0 entities) = snd (fst acc)
  /\ alias_map (load_entities libs r0 entities) = snd acc
  /\ is_Some (entity_vectors (load_entities libs r0 entities)).
Proof.
  unfold load_entities.
  destruct (fold_left load_entity entities ([], ∅, ∅)) as [[known emap] amap].
  cbn. repeat split; eauto.
Qed.

End Corpus.

(** X13. [load_entities] replaces the corpus: whatever was loaded before,
    the known names are the names of the new list in order, duplicates
    included, and the ticker recorded for a name is the ticker of the last
    entity that carries it; a name outside the list has none. *)
Theorem load_entities_replaces {B Vec : Type} (libs : Libs B Vec)
    (r0 : Resolver B Vec) (entities : list EntityDef) :
  let r := load_entities libs r0 entities in
  known_entities r = map e_name entities
  /\ (forall n,
        entity_map r !! n
        = option_map e_ticker
            (last (List.filter (fun e => String.eqb (e_name e) n) entities)))
  /\ (forall a c, alias_map r !! a = Some c -> In c (map e_name entities)).
Proof.
  intros r. unfold r.
  destruct (load_entities_fields libs r0 entities) as (Hk & He & Ha & _).
  pose proof (fold_load_ok entities ([], ∅, ∅)) as Hok.
  pose proof (fold_load_known entities [] ∅ ∅) as Hn.
  pose proof (fun n => fold_load_tickers entities n [] ∅ ∅) as Ht.
  destruct (fold_left load_entity entities ([], ∅, ∅)) as [[known emap] amap].
  cbn [fst snd] in *. cbn in Hn. rewrite Hn in Hk, Hok. clear Hn known.
  rewrite Hk, He, Ha.
  split; [reflexivity|]. split.
  - intros n. rewrite Ht, lookup_empty. now destruct (last _).
  - intros a c Hc. destruct Hok as [_ Hok2]; [|eauto].
    split; [contradiction|]. intros x y Hx. rewrite lookup_empty in Hx.
    discriminate.
Qed.

(** X14. On a loaded corpus [resolve] either answers with a known
    canonical name and the ticker recorded for it, through the alias map
    with confidence 1 or through the vector backend with a score above
    0.35, or answers [None] after an alias miss, or raises [ValueError] or
    [IndexError] because the backend returned no usable score; it never
    raises [KeyError]. *)
Theorem resolve_outcomes {B Vec : Type} (libs : Libs B Vec)
    (r0 : Resolver B Vec) (entities : list EntityDef) (query : string)
    (fuzzy_threshold : Z) :
  let r := load_entities libs r0 entities in
  match fst (resolve libs r query fuzzy_threshold) with
  | Ok (Some res) =>
      In (res_canonical_name res) (map e_name entities)
      /\ entity_map r !! res_canonical_name res = Some (res_ticker res)
      /\ ((res_method res = "alias_lookup" /\ res_confidence res = 1%Q
           /\ alias_map r !! strip (lower query) = Some (res_canonical_name res))
          \/ (res_method res = "pure_vector"
              /\ (35 # 100 < res_confidence res)%Q
              /\ alias_map r !! strip (lower query) = None))
  | Ok None => alias_map r !! strip (lower query) = None
  | Raise e =>
      alias_map r !! strip (lower query) = None
      /\ (e = ValueError "attempt to get argmax of an empty sequence"
          \/ e = IndexError "list index out of range")
  end.
Proof.
  intros r. unfold r.
  destruct (load_entities_fields libs r0 entities) as (Hk & He & Ha & [v Hv]).
  pose proof (fold_load_ok entities ([], ∅, ∅)) as Hok.
  pose proof (fold_load_known entities [] ∅ ∅) as Hn.
  unfold resolve, getitem. rewrite Hk, He, Ha, Hv.
  destruct (fold_left load_entity entities ([], ∅, ∅)) as [[known emap] amap].
  cbn [fst snd] in *. cbn in Hn. rewrite Hn in *. clear Hn known.
  destruct Hok as [Hok1 Hok2].
  { split; [contradiction|]. intros x y Hx. rewrite lookup_empty in Hx.
    discriminate. }
  destruct (amap !! strip (lower query)) as [c|] eqn:Ealias.
  - destruct (Hok1 c (Hok2 _ _ Ealias)) as [t Ht]. rewrite Ht. cbn.
    split; [eapply Hok2; eauto|]. split; [exact Ht|]. left. auto.
  - destruct (argmax _) as [i|e] eqn:Earg; cbn.
    + destruct (nth_error _ i) as [score|]; cbn; [|auto].
      destruct (nth_error (map e_name entities) i) as [name|] eqn:En; cbn;
        [|auto].
      destruct (Qle_bool score (35 # 100)) eqn:Es; cbn; [reflexivity|].
      apply nth_error_In in En.
      destruct (Hok1 name En) as [t Ht]. rewrite Ht. cbn.
      split; [exact En|]. split; [exact Ht|]. right.
      split; [reflexivity|]. split; [|reflexivity].
      apply Qnot_le_lt. intros Hle. apply Qle_bool_iff in Hle. congruence.
    + split; [reflexivity|]. left.
      unfold argmax in Earg. destruct (similarity _ _ _ _); congruence.
Qed.

(** X15. On an empty corpus every query fails with an exception, whatever
    the backend answers: there is no alias to hit, and the vector path
    finds either no score to take the maximum of or no name at the position
    of the best score. *)
Theorem resolve_empty_corpus {B Vec : Type} (libs : Libs B Vec)
    (r0 : Resolver B Vec) (query : string) (fuzzy_threshold : Z) :
  exists e,
    resolve libs (load_entities libs r0 []) query fuzzy_threshold
    = (Raise e,
       [FuzzyExtract query; Encode [query]; Similarity])
    /\ (e = ValueError "attempt to get argmax of an empty sequence"
        \/ e = IndexError "list index out of range").
Proof.
  unfold resolve, load_entities. cbn. rewrite lookup_empty.
  destruct (argmax _) as [i|e] eqn:Earg.
  - exists (IndexError "list index out of range"). split; [|now right].
    destruct (nth_error _ i); [|reflexivity]. now destruct i.
  - exists e. split; [reflexivity|]. left.
    unfold argmax in Earg. destruct (similarity _ _ _ _); congruence.
Qed.

End HybridResolverFacts.

Module MarketIndexFacts.
Import Py MacroModels MarketIndex MarketIndexStatus PyProps OrderFacts.

Definition meta_ids (idx : index) : list string :=
  map mr_event_id (market_metadata idx).

Definition fts_ids (idx : index) : list string :=
  map fts_event_id (market_fts idx).

(** The metadata table and the full-text table hold the same events, each
    once. *)
Definition in_step (idx : index) : Prop :=
  List.NoDup (meta_ids idx)
  /\ List.NoDup (fts_ids idx)
  /\ (forall eid, In eid (meta_ids idx) <-> In eid (fts_ids idx)).

Lemma upsert_row_ids (rows : list MetaRow) (m : MarketMetadata) :
  map mr_event_id (upsert_row rows m)
  = if existsb (fun r => String.eqb (mr_event_id r) (mm_event_id m)) rows
    then map mr_event_id rows
    else map mr_event_id rows ++ [mm_event_id m].
Proof.
  induction rows as [|r rows IH]; cbn; [reflexivity|].
  destruct (String.eqb (mr_event_id r) (mm_event_id m)); cbn; [reflexivity|].
  rewrite IH. now destruct (existsb _ rows).
Qed.

Lemma existsb_ids (rows : list MetaRow) (eid : string) :
  existsb (fun r => String.eqb (mr_event_id r) eid) rows = true
  <-> In eid (map mr_event_id rows).
Proof.
  rewrite existsb_exists, in_map_iff. split.
  - intros (r & Hr & He). apply String.eqb_eq in He. eauto.
  - intros (r & He & Hr). exists r. split; [exact Hr|now apply String.eqb_eq].
Qed.

Lemma fts_ids_upsert (idx : index) (m : MarketMetadata) :
  fts_ids (upsert_one idx m)
  = List.filter (fun i => negb (String.eqb i (mm_event_id m))) (fts_ids idx)
    ++ [mm_event_id m].
Proof.
  unfold fts_ids, upsert_one. cbn. rewrite map_app. cbn. f_equal.
  induction (market_fts idx) as [|f fs IH]; cbn; [reflexivity|].
  destruct (String.eqb (fts_event_id f) (mm_event_id m)); cbn; now rewrite IH.
Qed.

Lemma upsert_one_in_step (idx : index) (m : MarketMetadata) :
  in_step idx ->
  in_step (upsert_one idx m)
  /\ (forall eid, In eid (meta_ids (upsert_one idx m))
                  <-> In eid (meta_ids idx) \/ eid = mm_event_id m)
  /\ (get_count idx <= get_count (upsert_one idx m) <= S (get_count idx))%nat.
Proof.
  intros (Hm & Hf & Hsame).
  assert (Hids : forall eid, In eid (meta_ids (upsert_one idx m))
                   <-> In eid (meta_ids idx) \/ eid = mm_event_id m).
  { intros eid. unfold meta_ids, upsert_one. cbn. rewrite upsert_row_ids.
    destruct (existsb _ (market_metadata idx)) eqn:E.
    - apply existsb_ids in E. split; [auto|]. intros [H| ->]; auto.
    - rewrite in_app_iff. cbn. intuition. }
  split; [|split; [exact Hids|]].
  - split; [|split].
    + unfold meta_ids, upsert_one. cbn. rewrite upsert_row_ids.
      destruct (existsb _ (market_metadata idx)) eqn:E; [exact Hm|].
      apply List.NoDup_app; [exact Hm|repeat constructor; auto|].
      intros a Ha [<-|[]].
      apply existsb_ids in Ha. unfold meta_ids in *. congruence.
    + rewrite fts_ids_upsert.
      apply List.NoDup_app;
        [now apply List.NoDup_filter|repeat constructor; auto|].
      intros a Ha [<-|[]]. apply filter_In in Ha as [_ Ha].
      rewrite String.eqb_refl in Ha. discriminate.
    + intros eid. rewrite Hids, fts_ids_upsert, in_app_iff, filter_In. cbn.
      rewrite Hsame. split.
      * intros [H| ->]; [|auto].
        destruct (String.eqb_spec eid (mm_event_id m)) as [->|Hne]; auto.
      * intros [[H _]|[<-|[]]]; auto.
  - unfold get_count, upsert_one. cbn.
    pose proof (f_equal (@length _) (upsert_row_ids (market_metadata idx) m))
      as Hlen.
    rewrite !length_map in Hlen. rewrite Hlen.
    destruct (existsb _ (market_metadata idx));
      rewrite ?length_app, ?length_map; cbn; lia.
Qed.

Lemma upsert_markets_fold (markets : list MarketMetadata) :
  forall (n : nat) (idx : index),
  fold_left (fun '(count, i) m => (S count, upsert_one i m)) markets (n, idx)
  = ((n + length markets)%nat, fold_left upsert_one markets idx).
Proof.
  induction markets as [|m ms IH]; intros n idx; cbn.
  - now rewrite Nat.add_0_r.
  - rewrite IH. f_equal. lia.
Qed.

Definition row_for (idx : index) (eid : string) : option MetaRow :=
  List.find (fun r => String.eqb (mr_event_id r) eid) (market_metadata idx).

Example upsert_refreshes :
  map (fun r => (mr_event_id r, mr_title r, mr_tags r, mr_volume_usd r))
    (market_metadata
       (snd (upsert_markets empty_index
          [mkMarketMetadata "e1" "m1" "Old title" None 10%Q None "Fed" None None;
           mkMarketMetadata "e2" "m2" "Other" None 5%Q None "" None None;
           mkMarketMetadata "e1" "m9" "New title" None 99%Q None "CPI" None None])))
  = [("e1", "New title", "Fed", 99%Q); ("e2", "Other", "", 5%Q)].
Proof. reflexivity. Qed.

(** X16. [upsert_markets] keeps the metadata table and the full-text table
    in step: starting from tables that hold the same events, each once, the
    tables after the call again hold the same events, each once; these are
    the events held before together with the events given; the returned
    count is the number of markets given; and the index never shrinks. *)
Theorem upsert_markets_in_step (idx : index) (markets : list MarketMetadata) :
  in_step idx ->
  let '(count, idx') := upsert_markets idx markets in
  count = length markets
  /\ in_step idx'
  /\ (forall eid, In eid (meta_ids idx')
                  <-> In eid (meta_ids idx) \/ In eid (map mm_event_id markets))
  /\ (get_count idx <= get_count idx' <= get_count idx + length markets)%nat.
Proof.
  unfold upsert_markets. rewrite upsert_markets_fold. cbn [Nat.add].
  split; [reflexivity|]. revert idx H.
  induction markets as [|m ms IH]; intros idx H; cbn.
  - split; [exact H|]. split; [tauto|lia].
  - destruct (upsert_one_in_step idx m H) as (H1 & H2 & H3).
    destruct (IH (upsert_one idx m) H1) as (H4 & H5 & H6).
    split; [exact H4|]. split; [|lia].
    intros eid. rewrite H5, H2. intuition.
Qed.

Lemma upsert_markets_in_step_witness :
  let '(count, idx') := upsert_markets empty_index
                          [MarketIndexProps.fed_b; MarketIndexProps.fed_a;
                           MarketIndexProps.fed_b] in
  count = 3%nat
  /\ in_step idx'
  /\ (forall eid, In eid (meta_ids idx')
                  <-> In eid (meta_ids empty_index)
                      \/ In eid ["evt-b"; "evt-a"; "evt-b"])
  /\ (get_count empty_index <= get_count idx' <= get_count empty_index + 3)%nat.
Proof.
  apply (upsert_markets_in_step empty_index
           [MarketIndexProps.fed_b; MarketIndexProps.fed_a;
            MarketIndexProps.fed_b]).
  repeat split; cbn; try constructor; auto.
Defined.

(** X17. Upserting one market and reading its row back: a new event gets
    a row with all the given fields; an existing event keeps its market id,
    description, slug, tags and end date and takes the given title and
    volume; rows of other events are not touched. *)
Theorem upsert_then_read (idx : index) (m : MarketMetadata) :
  row_for (upsert_one idx m) (mm_event_id m)
  = Some
      (match row_for idx (mm_event_id m) with
       | Some r =>
           mkMetaRow (mr_event_id r) (mr_market_id r) (mm_title m)
             (mr_description r) (mr_slug r) (mr_tags r) (mm_volume_usd m)
             (mr_end_date r)
       | None =>
           mkMetaRow (mm_event_id m) (mm_market_id m) (mm_title m)
             (mm_description m) (mm_slug m) (mm_tags m) (mm_volume_usd m)
             (mm_end_date m)
       end)
  /\ (forall eid, eid <> mm_event_id m ->
        row_for (upsert_one idx m) eid = row_for idx eid).
Proof.
  unfold row_for, upsert_one. cbn. split.
  - induction (market_metadata idx) as [|r rows IH]; cbn.
    + now rewrite String.eqb_refl.
    + destruct (String.eqb (mr_event_id r) (mm_event_id m)) eqn:E; cbn.
      * now rewrite E.
      * rewrite E. exact IH.
  - intros eid Hne.
    induction (market_metadata idx) as [|r rows IH]; cbn.
    + apply String.eqb_neq in Hne. rewrite String.eqb_sym. now rewrite Hne.
    + destruct (String.eqb (mr_event_id r) (mm_event_id m)) eqn:E; cbn.
      * apply String.eqb_eq in E. rewrite E.
        destruct (String.eqb_spec (mm_event_id m) eid); [congruence|reflexivity].
      * destruct (String.eqb (mr_event_id r) eid); [reflexivity|exact IH].
Qed.

End MarketIndexFacts.

Module SearchFacts.
Import Py MacroModels MarketIndex PyProps OrderFacts MarketIndexFacts.

Lemma filter_ids_nodup (rows : list MetaRow) (f : MetaRow -> bool) :
  List.NoDup (map mr_event_id rows) ->
  List.NoDup (map mr_event_id (List.filter f rows)).
Proof.
  induction rows as [|r rows IH]; cbn; intros H; [constructor|].
  apply List.NoDup_cons_iff in H as [Hr Hrows].
  destruct (f r); cbn; [|auto].
  constructor; [|auto]. intros Hin. apply Hr.
  apply in_map_iff in Hin as (x & Hx & Hin). apply filter_In in Hin as [Hin _].
  rewrite <- Hx. now apply in_map.
Qed.

Lemma fts_join_ids (idx : index) (selected : FtsRow -> bool) :
  List.NoDup (meta_ids idx) ->
  List.NoDup (fts_ids idx) ->
  List.NoDup (map mr_event_id (fts_join idx selected))
  /\ (forall r, In r (fts_join idx selected) ->
        In r (market_metadata idx)
        /\ exists f, In f (market_fts idx) /\ selected f = true
                     /\ fts_event_id f = mr_event_id r).
Proof.
  unfold fts_join, meta_ids, fts_ids. intros Hm Hf. split.
  - induction (market_fts idx) as [|f fs IH]; cbn; [constructor|].
    cbn in Hf. apply List.NoDup_cons_iff in Hf as [Hnew Hf].
    rewrite map_app. apply List.NoDup_app.
    + destruct (selected f); [|constructor]. now apply filter_ids_nodup.
    + now apply IH.
    + intros eid H1 H2.
      assert (Heid : eid = fts_event_id f).
      { destruct (selected f); [|contradiction].
        apply in_map_iff in H1 as (r & <- & Hr).
        apply filter_In in Hr as [_ Hr]. apply String.eqb_eq in Hr. congruence. }
      apply Hnew. subst eid.
      apply in_map_iff in H2 as (r & Hr & Hin).
      apply in_flat_map in Hin as (f' & Hf' & Hin).
      destruct (selected f'); [|contradiction].
      apply filter_In in Hin as [_ Hin]. apply String.eqb_eq in Hin.
      apply in_map_iff. exists f'. split; [congruence|exact Hf'].
  - intros r Hr. apply in_flat_map in Hr as (f & Hf' & Hin).
    destruct (selected f) eqn:Es; [|contradiction].
    apply filter_In in Hin as [Hin Heq]. apply String.eqb_eq in Heq.
    split; [exact Hin|]. eauto.
Qed.

Lemma result_ids_nodup (limit : Z) (rows : list MetaRow) :
  List.NoDup (map mr_event_id rows) ->
  List.NoDup
    (map mm_event_id
       (map of_row (sql_limit limit (order_by_desc volume_below rows)))).
Proof.
  intros H. rewrite map_map. cbn.
  change (fun x : MetaRow => mr_event_id x) with mr_event_id.
  rewrite map_sql_limit. apply NoDup_sql_limit.
  eapply Permutation_NoDup; [|exact H].
  apply Permutation_map. symmetry. apply order_by_desc_perm.
Qed.

Lemma result_rows_in (limit : Z) (rows : list MetaRow) (m : MarketMetadata) :
  In m (map of_row (sql_limit limit (order_by_desc volume_below rows))) ->
  exists r, In r rows /\ m = of_row r.
Proof.
  intros H. apply in_map_iff in H as (r & <- & Hr).
  apply in_sql_limit in Hr.
  apply (Permutation_in _ (order_by_desc_perm volume_below rows)) in Hr.
  eauto.
Qed.

(** X18. On an index whose two tables are in step, [search] never returns
    an event twice, on either path, and every result is a row of the
    metadata table: on the full-text path one whose full-text row the query
    selects, on the fallback path one whose title or tags match
    [%query%]. *)
Theorem search_results_distinct
    (fts5_match : string -> option (FtsRow -> bool)) (idx : index)
    (query : string) (limit : Z) :
  in_step idx ->
  List.NoDup (map mm_event_id (search fts5_match idx query limit))
  /\ (forall m, In m (search fts5_match idx query limit) ->
        exists r,
          In r (market_metadata idx) /\ m = of_row r
          /\ match fts5_match query with
             | Some selected =>
                 exists f, In f (market_fts idx) /\ selected f = true
                           /\ fts_event_id f = mr_event_id r
             | None =>
                 like ("%" +:+ query +:+ "%") (mr_title r)
                 || like ("%" +:+ query +:+ "%") (mr_tags r) = true
             end).
Proof.
  intros (Hm & Hf & _). unfold search, _search_fallback.
  destruct (fts5_match query) as [selected|].
  - destruct (fts_join_ids idx selected Hm Hf) as [Hnd Hrows]. split.
    + now apply result_ids_nodup.
    + intros m Hin. apply result_rows_in in Hin as (r & Hr & ->).
      destruct (Hrows r Hr) as [Hin Hsel]. eauto.
  - split.
    + apply result_ids_nodup. now apply filter_ids_nodup.
    + intros m Hin. apply result_rows_in in Hin as (r & Hr & ->).
      apply filter_In in Hr as [Hr Hlike]. eauto.
Qed.

Lemma search_results_distinct_witness :
  List.NoDup
    (map mm_event_id
       (search MarketIndexProps.match_all MarketIndexProps.fed_index "Fed" 20))
  /\ (forall m,
        In m (search MarketIndexProps.match_all MarketIndexProps.fed_index
                "Fed" 20) ->
        exists r,
          In r (market_metadata MarketIndexProps.fed_index) /\ m = of_row r
          /\ exists f, In f (market_fts MarketIndexProps.fed_index)
                       /\ (fun _ : FtsRow => true) f = true
                       /\ fts_event_id f = mr_event_id r).
Proof.
  apply (search_results_distinct MarketIndexProps.match_all
           MarketIndexProps.fed_index "Fed" 20).
  split; [|split].
  - cbn. repeat (constructor; [cbn; intuition discriminate|]). constructor.
  - cbn. repeat (constructor; [cbn; intuition discriminate|]). constructor.
  - intros eid. cbn. tauto.
Defined.

(** *** The fallback search ignores the case of ASCII letters *)

Lemma like_percent (pattern' text : string) :
  like (String "%" pattern') text
  = like pattern' text
    || match text with
       | EmptyString => false
       | String _ text' => like (String "%" pattern') text'
       end.
Proof. destruct text; reflexivity. Qed.

Lemma lower_ascii_idem (c : ascii) : lower_ascii (lower_ascii c) = lower_ascii c.
Proof. destruct c as [[] [] [] [] [] [] [] []]; reflexivity. Qed.

Lemma lower_keeps_wildcards (c : ascii) :
  Ascii.eqb (lower_ascii c) "%" = Ascii.eqb c "%"
  /\ Ascii.eqb (lower_ascii c) "_" = Ascii.eqb c "_".
Proof. destruct c as [[] [] [] [] [] [] [] []]; split; reflexivity. Qed.

(** A pattern matches the same texts after a change of case that keeps
    the wildcards and the lowercase form of every character. *)
Lemma like_recase (f : ascii -> ascii) :
  (forall c, Ascii.eqb (f c) "%" = Ascii.eqb c "%"
             /\ Ascii.eqb (f c) "_" = Ascii.eqb c "_") ->
  (forall c, lower_ascii (f c) = lower_ascii c) ->
  forall (g : string -> string),
  (forall c s, g (String c s) = String (f c) (g s)) ->
  g EmptyString = EmptyString ->
  forall pattern text, like (g pattern) text = like pattern text.
Proof.
  intros Hw Hl g Hcons Hnil pattern.
  induction pattern as [|c p IH]; intros text.
  - now rewrite Hnil.
  - rewrite Hcons. destruct (Hw c) as [Hp Hu].
    destruct (Ascii.eqb c "%") eqn:Ec.
    + apply Ascii.eqb_eq in Ec. subst c.
      apply Ascii.eqb_eq in Hp. rewrite Hp.
      induction text as [|d t IHt].
      * rewrite !like_percent. now rewrite IH.
      * rewrite (like_percent (g p)), (like_percent p), IH, IHt. reflexivity.
    + cbn. rewrite Hp, Ec. destruct text as [|d t]; [reflexivity|].
      now rewrite Hu, Hl, IH.
Qed.

Lemma like_lower_pattern (pattern text : string) :
  like (lower pattern) text = like pattern text.
Proof.
  apply (like_recase lower_ascii lower_keeps_wildcards lower_ascii_idem lower);
    reflexivity.
Qed.

Lemma lower_append (a b : string) : lower (a +:+ b) = lower a +:+ lower b.
Proof. induction a as [|c a IH]; simpl; [reflexivity|]. now rewrite IH. Qed.

Lemma lower_wrap (q : string) :
  lower ("%" +:+ q +:+ "%") = "%" +:+ lower q +:+ "%".
Proof. now rewrite !lower_append. Qed.

Lemma like_wrap_case (q1 q2 text : string) :
  lower q1 = lower q2 ->
  like ("%" +:+ q1 +:+ "%") text = like ("%" +:+ q2 +:+ "%") text.
Proof.
  intros H.
  rewrite <- (like_lower_pattern ("%" +:+ q1 +:+ "%")),
          <- (like_lower_pattern ("%" +:+ q2 +:+ "%")), !lower_wrap, H.
  reflexivity.
Qed.

(** X19. The substring fallback compares as SQLite's [LIKE] does, without
    regard to the case of ASCII letters: two queries that differ only in
    the case of the letters [A]-[Z], [a]-[z] give the same result on every
    index, whatever the limit. *)
Theorem fallback_ignores_ascii_case (idx : index) (q1 q2 : string)
    (limit : Z) :
  same_ascii_case q1 q2 = true ->
  _search_fallback idx q1 limit = _search_fallback idx q2 limit.
Proof.
  intros H. apply same_ascii_case_lower in H.
  unfold _search_fallback. do 3 f_equal. apply filter_ext. intros r.
  now rewrite !(like_wrap_case q1 q2 _ H).
Qed.

Lemma fallback_ignores_ascii_case_witness :
  _search_fallback MarketIndexProps.fed_index "fed" 20
  = _search_fallback MarketIndexProps.fed_index "FED" 20.
Proof.
  apply (fallback_ignores_ascii_case MarketIndexProps.fed_index "fed" "FED" 20).
  reflexivity.
Defined.

End SearchFacts.

Module DiscoveryFacts.
Import Py MacroModels MarketIndex DiscoveryEngine PyProps OrderFacts.

Lemma order_sorted_qkey {A : Type} (key : A -> Q) (l : list A) :
  StronglySorted (fun a b => (key b <= key a)%Q)
    (order_by_desc (fun a b => negb (Qle_bool (key b) (key a))) l).
Proof.
  apply StronglySorted_weaken
    with (R := fun a b => negb (Qle_bool (key b) (key a)) = false).
  - intros a b H. apply negb_false_iff in H. now apply Qle_bool_iff.
  - apply order_by_desc_sorted.
    + intros a b c H1 H2. apply negb_false_iff in H1, H2.
      apply Qle_bool_iff in H1, H2. apply negb_false_iff, Qle_bool_iff.
      eapply Qle_trans; eauto.
    + intros a b H. apply negb_true_iff in H.
      apply negb_false_iff, Qle_bool_iff.
      apply Qlt_le_weak, Qnot_le_lt. intros Hle.
      apply Qle_bool_iff in Hle. congruence.
Qed.

Lemma slice_to_firstn {A : Type} (n : Z) (l : list A) :
  exists k, slice_to n l = firstn k l /\ ((0 <= n)%Z -> k = Z.to_nat n).
Proof.
  unfold slice_to. destruct (Z.ltb_spec n 0).
  - eexists. split; [reflexivity|lia].
  - eexists. split; [reflexivity|auto].
Qed.

(** What the loops of [search_ticker] keep true of the collected results
    and the set of seen ids. *)
Definition collected (P : MarketMetadata -> Prop)
    (acc : list MarketMetadata * gset string) : Prop :=
  List.NoDup (map mm_event_id (fst acc))
  /\ (forall eid, eid ∈ snd acc <-> In eid (map mm_event_id (fst acc)))
  /\ (forall m, In m (fst acc) -> P m).

Lemma add_matches_collected (P : MarketMetadata -> Prop)
    (matches : list MarketMetadata) :
  (forall m, In m matches -> P m) ->
  forall acc, collected P acc -> collected P (add_matches acc matches).
Proof.
  unfold add_matches.
  induction matches as [|m ms IH]; intros HP acc Hacc; cbn; [exact Hacc|].
  apply IH; [intros x Hx; apply HP; now right|].
  destruct acc as [results seen]. destruct Hacc as (H1 & H2 & H3). cbn in *.
  destruct (decide (mm_event_id m ∈ seen)) as [Hin|Hnew]; unfold collected; cbn.
  - repeat split; auto; apply H2.
  - split; [|split].
    + rewrite map_app. cbn. apply List.NoDup_app.
      * exact H1.
      * repeat constructor. auto.
      * intros a Ha [<-|[]]. apply Hnew, H2, Ha.
    + intros eid. rewrite map_app, in_app_iff, elem_of_union, elem_of_singleton.
      cbn. rewrite H2. intuition.
    + intros x Hx. apply in_app_iff in Hx as [Hx|[<-|[]]]; [auto|].
      apply HP. now left.
Qed.

Lemma search_ticker_fold (fts5_match : string -> option (FtsRow -> bool))
    (idx : index) (limit : Z) (kws : list string) :
  forall sent acc,
  fold_left
    (fun '(sent, acc) kw =>
       (sent ++ [kw], add_matches acc (search fts5_match idx kw limit)))
    kws (sent, acc)
  = (sent ++ kws,
     fold_left (fun acc kw => add_matches acc (search fts5_match idx kw limit))
       kws acc).
Proof.
  induction kws as [|kw kws IH]; intros sent acc; cbn.
  - now rewrite app_nil_r.
  - rewrite IH, <- app_assoc. reflexivity.
Qed.

Lemma keyword_fold_collected (fts5_match : string -> option (FtsRow -> bool))
    (idx : index) (limit : Z) (all kws : list string) :
  (forall kw, In kw kws -> In kw all) ->
  let P := fun m => exists kw, In kw all
                               /\ In m (search fts5_match idx kw limit) in
  forall acc, collected P acc ->
  collected P
    (fold_left (fun acc kw => add_matches acc (search fts5_match idx kw limit))
       kws acc).
Proof.
  intros Hsub P. induction kws as [|kw kws IH]; intros acc Hacc; cbn;
    [exact Hacc|].
  apply IH; [intros x Hx; apply Hsub; now right|].
  apply add_matches_collected; [|exact Hacc].
  intros m Hm. exists kw. split; [apply Hsub; now left|exact Hm].
Qed.

Example search_ticker_dedup :
  let '(sent, res) :=
    search_ticker MarketIndexProps.match_all MarketIndexProps.fed_index
      "msft" 2 in
  (sent, map mm_event_id res)
  = (["MSFT"; "Microsoft"; "OpenAI"; "Azure"; "Cloud"; "SaaS"],
     ["evt-c"; "evt-b"]).
Proof. vm_compute. reflexivity. Qed.

(** X20. [search_ticker] queries the index once per keyword of the ticker,
    in keyword order, and returns no event twice; its results are in
    descending order of volume, each was returned by the index for one of
    the keywords, and with a non-negative limit there are at most [limit]
    of them. *)
Theorem search_ticker_results
    (fts5_match : string -> option (FtsRow -> bool)) (idx : index)
    (ticker : string) (limit : Z) :
  let '(sent, res) := search_ticker fts5_match idx ticker limit in
  sent = get_keywords_for_ticker ticker
  /\ List.NoDup (map mm_event_id res)
  /\ StronglySorted
       (fun a b : MarketMetadata => (mm_volume_usd b <= mm_volume_usd a)%Q) res
  /\ (forall m, In m res ->
        exists kw, In kw (get_keywords_for_ticker ticker)
                   /\ In m (search fts5_match idx kw limit))
  /\ ((0 <= limit)%Z -> (Z.of_nat (length res) <= limit)%Z).
Proof.
  unfold search_ticker. rewrite search_ticker_fold. cbn [app].
  pose proof (keyword_fold_collected fts5_match idx limit
                (get_keywords_for_ticker ticker)
                (get_keywords_for_ticker ticker) (fun kw H => H) ([], ∅))
    as Hc.
  destruct (fold_left _ (get_keywords_for_ticker ticker) ([], ∅))
    as [results seen].
  destruct Hc as (Hnd & _ & HP).
  { split; [constructor|]. split; [|intros m []].
    intros eid. cbn. rewrite elem_of_empty. tauto. }
  cbn [fst snd] in *.
  set (lt := fun a b : MarketMetadata =>
               negb (Qle_bool (mm_volume_usd b) (mm_volume_usd a))).
  pose proof (order_by_desc_perm lt results) as Hperm.
  destruct (slice_to_firstn limit (order_by_desc lt results)) as (k & Hk & Hk').
  rewrite Hk. split; [reflexivity|]. split; [|split; [|split]].
  - rewrite <- firstn_map. apply NoDup_firstn.
    eapply Permutation_NoDup; [|exact Hnd].
    apply Permutation_map. now symmetry.
  - apply MarketIndexProps.StronglySorted_firstn.
    apply (order_sorted_qkey mm_volume_usd).
  - intros m Hm. apply HP. apply (Permutation_in _ Hperm).
    rewrite <- (firstn_skipn k (order_by_desc lt results)).
    apply in_or_app. now left.
  - intros Hl. rewrite (Hk' Hl), length_firstn. lia.
Qed.

End DiscoveryFacts.

(* ----------------------------------------------------------------- *)
(** ** Tickers outside the theme table *)

Module DiscoveryEngineProps.
Import Py MacroModels MarketIndex DiscoveryEngine PyProps OrderFacts
  MarketIndexFacts SearchFacts DiscoveryFacts.

Example keywords_nvda :
  get_keywords_for_ticker "nvda"
  = ["NVDA"; "Nvidia"; "AI"; "Chips"; "Semiconductors"; "TSMC"; "Blackwell";
     "Jensen Huang"].
Proof. vm_compute. reflexivity. Qed.

Example sector_unknown : get_sector_for_ticker "ibm" = "Other".
Proof. vm_compute. reflexivity. Qed.

(** The sort key of [search_ticker]: [a] has less volume than [b]. *)
Definition less_volume (a b : MarketMetadata) : bool :=
  negb (Qle_bool (mm_volume_usd b) (mm_volume_usd a)).

(** Matches with distinct ids, none of them seen, are all appended. *)
Lemma add_matches_fresh (matches : list MarketMetadata) :
  forall (results : list MarketMetadata) (seen : gset string),
  List.NoDup (map mm_event_id matches) ->
  (forall m, In m matches -> mm_event_id m ∉ seen) ->
  fst (add_matches (results, seen) matches) = results ++ matches.
Proof.
  unfold add_matches.
  induction matches as [|m ms IH]; intros results seen Hnd Hnew; cbn.
  - now rewrite app_nil_r.
  - cbn in Hnd. apply List.NoDup_cons_iff in Hnd as [Hm Hms].
    destruct (decide (mm_event_id m ∈ seen)) as [Hin|_].
    + exfalso. apply (Hnew m); [now left|exact Hin].
    + rewrite IH; [now rewrite <- app_assoc|exact Hms|].
      intros x Hx Hseen.
      apply elem_of_union in Hseen as [Heq|Hseen].
      * apply elem_of_singleton in Heq. apply Hm. rewrite <- Heq.
        now apply in_map.
      * apply (Hnew x); [now right|exact Hseen].
Qed.

(** Rows already in descending order are left as they are by the sort. *)
Lemma order_by_desc_sorted_same {A : Type} (lt : A -> A -> bool)
    (l : list A) :
  StronglySorted (fun a b => lt a b = false) l -> order_by_desc lt l = l.
Proof.
  unfold order_by_desc. induction 1 as [|x l Hl IH Hx]; cbn; [reflexivity|].
  rewrite IH. destruct l as [|y l']; cbn; [reflexivity|].
  apply List.Forall_inv in Hx. now rewrite Hx.
Qed.

Lemma slice_to_all {A : Type} (n : Z) (l : list A) :
  (0 <= n)%Z -> (Z.of_nat (length l) <= n)%Z -> slice_to n l = l.
Proof.
  intros Hn Hl. unfold slice_to. destruct (Z.ltb_spec n 0); [lia|].
  apply firstn_all2. lia.
Qed.

Section OneSearch.
Variable fts5_match : string -> option (FtsRow -> bool).
Variables (idx : index) (query : string) (limit : Z).

Lemma search_by_volume :
  StronglySorted (fun a b => less_volume a b = false)
    (search fts5_match idx query limit).
Proof.
  apply StronglySorted_weaken
    with (R := fun a b : MarketMetadata =>
                 (mm_volume_usd b <= mm_volume_usd a)%Q).
  - intros a b H. unfold less_volume. now apply negb_false_iff, Qle_bool_iff.
  - unfold search, _search_fallback.
    destruct (fts5_match query); apply MarketIndexProps.result_rows_sorted.
Qed.

Lemma search_within_limit :
  (0 <= limit)%Z ->
  (Z.of_nat (length (search fts5_match idx query limit)) <= limit)%Z.
Proof.
  intros H. unfold search, _search_fallback.
  destruct (fts5_match query); now apply MarketIndexProps.result_rows_length.
Qed.

Lemma search_ids_nodup :
  in_step idx ->
  List.NoDup (map mm_event_id (search fts5_match idx query limit)).
Proof.
  intros (Hm & Hf & _). unfold search, _search_fallback.
  destruct (fts5_match query) as [selected|]; apply result_ids_nodup.
  - now apply fts_join_ids.
  - now apply filter_ids_nodup.
Qed.

End OneSearch.

(** With a single keyword [search_ticker] runs one search. *)
Lemma search_ticker_one (fts5_match : string -> option (FtsRow -> bool))
    (idx : index) (ticker kw : string) (limit : Z) :
  get_keywords_for_ticker ticker = [kw] ->
  search_ticker fts5_match idx ticker limit
  = ([kw],
     slice_to limit
       (order_by_desc less_volume
          (fst (add_matches ([], ∅) (search fts5_match idx kw limit))))).
Proof.
  intros H. unfold search_ticker. rewrite H. cbn.
  destruct (add_matches _ _). reflexivity.
Qed.

(** C10. For a ticker whose uppercased form is not in the theme table,
    [get_keywords_for_ticker] returns the one-element list holding the
    uppercased ticker and the sector is [Other]; [search_ticker] then runs
    exactly one index search, for that keyword: what it returns is the
    result [found] of that search with repeated events dropped, sorted by
    volume and cut at [limit]; every market it returns is in [found]; and
    on an index whose tables are in step, with a non-negative limit, it
    returns [found] itself.  The lookup ignores case for every ticker:
    tickers with the same uppercased form, and so tickers that differ only
    in the case of ASCII letters such as [nvda] and [NVDA], get the same
    keywords and the same sector. *)
Theorem keywords_unsupported_ticker
    (fts5_match : string -> option (FtsRow -> bool)) (idx : index)
    (ticker : string) (limit : Z) :
  TICKER_THEME_MAP !! upper ticker = None ->
  let found := search fts5_match idx (upper ticker) limit in
  get_keywords_for_ticker ticker = [upper ticker]
  /\ get_sector_for_ticker ticker = "Other"
  /\ search_ticker fts5_match idx ticker limit
     = ([upper ticker],
        slice_to limit
          (order_by_desc less_volume (fst (add_matches ([], ∅) found))))
  /\ (forall m, In m (snd (search_ticker fts5_match idx ticker limit)) ->
        In m found)
  /\ (in_step idx -> (0 <= limit)%Z ->
      snd (search_ticker fts5_match idx ticker limit) = found)
  /\ (forall t1 t2, upper t1 = upper t2 ->
        get_keywords_for_ticker t1 = get_keywords_for_ticker t2
        /\ get_sector_for_ticker t1 = get_sector_for_ticker t2)
  /\ (forall t1 t2, same_ascii_case t1 t2 = true ->
        get_keywords_for_ticker t1 = get_keywords_for_ticker t2
        /\ get_sector_for_ticker t1 = get_sector_for_ticker t2)
  /\ get_keywords_for_ticker "nvda" = get_keywords_for_ticker "NVDA"
  /\ get_sector_for_ticker "nvda" = get_sector_for_ticker "NVDA".
Proof.
  intros Hnone found.
  assert (Hkw : get_keywords_for_ticker ticker = [upper ticker]).
  { unfold get_keywords_for_ticker. rewrite Hnone. reflexivity. }
  assert (Hcase : forall t1 t2, upper t1 = upper t2 ->
            get_keywords_for_ticker t1 = get_keywords_for_ticker t2
            /\ get_sector_for_ticker t1 = get_sector_for_ticker t2).
  { intros t1 t2 H. unfold get_keywords_for_ticker, get_sector_for_ticker.
    rewrite H. split; reflexivity. }
  pose proof (search_ticker_one fts5_match idx ticker (upper ticker) limit Hkw)
    as Hone.
  fold found in Hone.
  split; [exact Hkw|]. split.
  { unfold get_sector_for_ticker. rewrite Hnone. reflexivity. }
  split; [exact Hone|]. split; [|split; [|split; [exact Hcase|split]]].
  - rewrite Hone. cbn [snd]. intros m Hm.
    destruct (slice_to_firstn limit
                (order_by_desc less_volume (fst (add_matches ([], ∅) found))))
      as (k & Hk & _).
    rewrite Hk in Hm.
    assert (Hin : In m (order_by_desc less_volume
                          (fst (add_matches ([], ∅) found)))).
    { rewrite <- (firstn_skipn k (order_by_desc _ _)).
      apply in_or_app. now left. }
    apply (Permutation_in _ (order_by_desc_perm less_volume _)) in Hin.
    destruct (add_matches_collected (fun x => In x found) found
                (fun x Hx => Hx) ([], ∅)) as (_ & _ & HP).
    { split; [constructor|]. split; [|intros x []].
      intros eid. cbn. rewrite elem_of_empty. tauto. }
    now apply HP.
  - intros Hstep Hlimit. rewrite Hone. cbn [snd].
    rewrite add_matches_fresh.
    + cbn [app]. rewrite order_by_desc_sorted_same by apply search_by_volume.
      apply slice_to_all; [exact Hlimit|].
      now apply search_within_limit.
    + now apply search_ids_nodup.
    + intros m _. apply not_elem_of_empty.
  - intros t1 t2 H. apply Hcase. now apply same_ascii_case_upper.
  - split; apply Hcase; reflexivity.
Qed.

Lemma keywords_unsupported_ticker_witness :
  let found :=
    search MarketIndexProps.syntax_error MarketIndexProps.fed_index
      (upper "fed") 10 in
  get_keywords_for_ticker "fed" = [upper "fed"]
  /\ get_sector_for_ticker "fed" = "Other"
  /\ search_ticker MarketIndexProps.syntax_error MarketIndexProps.fed_index
       "fed" 10
     = ([upper "fed"],
        slice_to 10
          (order_by_desc less_volume (fst (add_matches ([], ∅) found))))
  /\ (forall m,
        In m (snd (search_ticker MarketIndexProps.syntax_error
                     MarketIndexProps.fed_index "fed" 10)) ->
        In m found)
  /\ (in_step MarketIndexProps.fed_index -> (0 <= 10)%Z ->
      snd (search_ticker MarketIndexProps.syntax_error
             MarketIndexProps.fed_index "fed" 10) = found)
  /\ (forall t1 t2, upper t1 = upper t2 ->
        get_keywords_for_ticker t1 = get_keywords_for_ticker t2
        /\ get_sector_for_ticker t1 = get_sector_for_ticker t2)
  /\ (forall t1 t2, same_ascii_case t1 t2 = true ->
        get_keywords_for_ticker t1 = get_keywords_for_ticker t2
        /\ get_sector_for_ticker t1 = get_sector_for_ticker t2)
  /\ get_keywords_for_ticker "nvda" = get_keywords_for_ticker "NVDA"
  /\ get_sector_for_ticker "nvda" = get_sector_for_ticker "NVDA".
Proof.
  apply (keywords_unsupported_ticker MarketIndexProps.syntax_error
           MarketIndexProps.fed_index "fed" 10).
  vm_compute. reflexivity.
Defined.

(** The ticker [fed] is outside the table; its one keyword [FED] finds the
    three Fed markets, which come back in descending order of volume. *)
Example search_unsupported_fed :
  map mm_event_id
    (snd (search_ticker MarketIndexProps.syntax_error
            MarketIndexProps.fed_index "fed" 10))
  = ["evt-c"; "evt-b"; "evt-a"].
Proof. vm_compute. reflexivity. Qed.

End DiscoveryEngineProps.

Module ParseMarketFacts.
Import Py MacroModels PolymarketScraper.

Lemma shell_event_valid (now : Z) :
  probability_in_range (probability_yes (shell_event now)) = true
  /\ timestamp (shell_event now) = now.
Proof. split; reflexivity. Qed.

(** X21. Whatever the market dictionary holds and whatever the built-ins
    do with it, [_parse_single_market] returns an event whose
    [probability_yes] lies in [0, 1] and whose timestamp is the clock
    reading: either the shell event with source [error], or an event with
    source [polymarket] whose id and title are the strings of the
    dictionary and whose probability and outcomes are those of the inner
    block. *)
Theorem parse_single_market_valid
    (literal_eval_str : string -> option PyVal)
    (float_of_str : string -> option Q)
    (market : gmap string PyVal) (now : Z) :
  let e := _parse_single_market literal_eval_str float_of_str market now in
  let inner := parse_outcomes literal_eval_str float_of_str market in
  probability_in_range (probability_yes e) = true
  /\ timestamp e = now
  /\ (e = shell_event now
      \/ (source e = "polymarket"
          /\ dict_get market "id" (PStr "") = PStr (event_id e)
          /\ dict_get market "question" (PStr "Unknown") = PStr (title e)
          /\ probability_yes e = snd inner
          /\ outcomes e = Some (fst inner))).
Proof.
  cbv zeta. unfold _parse_single_market.
  destruct (parse_outcomes literal_eval_str float_of_str market)
    as [outcomes_data prob_yes].
  pose proof (shell_event_valid now) as [Hs1 Hs2].
  destruct (float float_of_str _) as [vol|exc]; [|now auto].
  unfold new_MacroEvent.
  destruct (dict_get market "id" (PStr "")) as [|b|q|i|l]; try now auto.
  destruct (dict_get market "question" (PStr "Unknown")) as [|b|q|t|l];
    try now auto.
  destruct (probability_in_range prob_yes) eqn:Hr; [|now auto].
  cbn. repeat split; auto. right. repeat split; auto.
Qed.

End ParseMarketFacts.
